(** * NewsGroupingApp: signature similarity, grouping thresholds, membership
      store, entity upsert, group merging and token estimation.

    A shallow embedding of the Python sources

      - [enhanced_grouping.py]            (similarity scorer, membership writes,
                                           group signatures)
      - [analysis/two_phase_grouping.py]  (dynamic thresholds, grouping decision,
                                           founding a group)
      - [analysis/group_merging.py]       (merge pass, group similarity)
      - [db/database.py]                  (entity upsert, link tables)
      - [article_signature.py]            (primary entities of an article)
      - [utils.py]                        (token estimate, chunking)

    Conventions.  Python floats are modelled as exact rationals [Q]; results
    about scores are stated up to [==].  Python dictionaries that are only
    looked up are [gmap]s, Python sets are [gset]s, dictionaries that are
    iterated are insertion-ordered association lists.  SQL tables are lists
    of rows, in the order a scan returns them.  Calls to the language model
    and commit failures of the database are oracles passed as arguments. *)

From Stdlib Require Import ZArith QArith Qabs Qminmax Qround.
From Stdlib Require Import List String Ascii Bool Lia Lqa DecimalString.
From stdpp Require Import base gmap sets strings.
Import ListNotations.

(* ===================================================================== *)
(** * Part I: the embedding                                               *)
(* ===================================================================== *)

(** ** Python primitives *)

Module Py.
Local Open Scope Q_scope.

Definition Qleb (x y : Q) : bool := Qle_bool x y.
Definition Qltb (x y : Q) : bool := negb (Qle_bool y x).

(** [min(a, b)] and [max(a, b)]: the first argument is kept unless the
    second is strictly smaller (resp. strictly larger). *)
Definition min (a b : Q) : Q := if Qltb b a then b else a.
Definition max (a b : Q) : Q := if Qltb a b then b else a.

(** Truthiness of a string; a missing value ([None]) is represented by the
    empty string, which is falsy as well. *)
Definition truthy (s : string) : bool := negb (String.eqb s "").

Definition nonempty {A} (l : list A) : bool :=
  match l with [] => false | _ :: _ => true end.

(** [float(n)] for a length or a count. *)
Definition of_nat (n : nat) : Q := inject_Z (Z.of_nat n).

(** [int(x)]: truncation towards zero. *)
Definition int (x : Q) : Z := Z.quot (Qnum x) (Zpos (Qden x)).

(** [sorted(l, key=key, reverse=True)]: descending and stable, elements
    with equal keys keep their original order. *)
Section Sorted.
Context {A : Type} (key : A -> Q).

Fixpoint insert_desc (x : A) (l : list A) : list A :=
  match l with
  | [] => [x]
  | y :: t => if Qltb (key y) (key x) then x :: y :: t
              else y :: insert_desc x t
  end.

Definition sorted_desc (l : list A) : list A :=
  fold_left (fun acc x => insert_desc x acc) l [].
End Sorted.

(** An insertion-ordered dictionary: assigning to an existing key keeps the
    position of the key and replaces its value. *)
Section Dict.
Context {V : Type}.

Fixpoint dict_set (k : string) (v : V) (d : list (string * V))
  : list (string * V) :=
  match d with
  | [] => [(k, v)]
  | (k', v') :: t => if String.eqb k' k then (k', v) :: t
                     else (k', v') :: dict_set k v t
  end.

Fixpoint dict_get (k : string) (d : list (string * V)) : option V :=
  match d with
  | [] => None
  | (k', v') :: t => if String.eqb k' k then Some v' else dict_get k t
  end.
End Dict.
End Py.

(** ** The similarity scorer ([enhanced_grouping.py]) *)

Module Scorer.
Local Open Scope Q_scope.
Import Py.

(** An entry of [primary_entities] in an article signature.  The relevance
    is optional because the code reads it with a default. *)
Record ArticleEntity := mkArticleEntity {
  ae_entity_id : Z;
  ae_entity_name : string;
  ae_entity_type : string;
  ae_relevance_score : option Q
}.

Record GroupEntity := mkGroupEntity {
  ge_entity_id : Z;
  ge_entity_name : string;
  ge_entity_type : string;
  ge_frequency : option Q;
  ge_avg_relevance : option Q
}.

(** [{"company_name": .., "frequency": ..}], [{"cve_id": .., ..}] and
    [{"event_name": .., "frequency": ..}] entries of a group signature. *)
Record Counted := mkCounted {
  c_name : string;
  c_frequency : option Q
}.

(** Dates are the parsed instants, in seconds; [None] stands for a missing,
    empty or unparseable date string (the parse error is caught and leaves
    the adjustment at its initial value). *)
Record ArticleSignature := mkArticleSignature {
  article_id : Z;
  published_date : option Q;
  source : string;
  primary_entities : list ArticleEntity;
  companies : list string;
  cves : list string;
  events : list string          (* the [event_name] of each event *)
}.

Record GroupSignature := mkGroupSignature {
  group_id : Z;
  group_label : string;
  description : string;
  main_topic : string;
  g_primary_entities : list GroupEntity;
  g_companies : list Counted;
  g_cves : list Counted;
  g_events : list Counted;
  latest_published_date : option Q;
  member_sources : list string
}.

Record Scores := mkScores {
  entity_similarity : Q;
  company_similarity : Q;
  cve_similarity : Q;
  event_similarity : Q;
  composite_score : Q;
  _temporal_adjustment : Q;
  _source_bonus : Q;
  _core_entity_bonus : Q;
  _base_composite_score : Q
}.

Definition CORE_ENTITY_BONUS : Q := 0.20.
Definition CORE_ENTITY_TYPES : list string :=
  ["product"; "organization"; "technology"]%string.

(** *** Entity dimension *)

(** [{e["entity_id"]: e.get("relevance_score", 0.7) for e in ...}]: a later
    entry for the same id overwrites an earlier one. *)
Definition article_entities_dict (es : list ArticleEntity) : gmap Z Q :=
  fold_left
    (fun d e => <[ae_entity_id e := default 0.7 (ae_relevance_score e)]> d)
    es ∅.

(** One iteration of the loop over the group's entities; the state is
    [(entity_score, max_possible_score)]. *)
Definition entity_step (d : gmap Z Q) (acc : Q * Q) (ge : GroupEntity)
  : Q * Q :=
  let group_avg_relevance := default 0.7 (ge_avg_relevance ge) in
  let group_frequency := default 0 (ge_frequency ge) in
  let max_possible_score := snd acc + group_frequency * group_avg_relevance in
  match d !! ge_entity_id ge with
  | Some article_relevance =>
      (fst acc + article_relevance * group_avg_relevance * group_frequency,
       max_possible_score)
  | None => (fst acc, max_possible_score)
  end.

Definition calc_entity_similarity (a : ArticleSignature) (g : GroupSignature)
  : Q :=
  let d := article_entities_dict (primary_entities a) in
  if negb (bool_decide (d = ∅)) && nonempty (g_primary_entities g) then
    let r := fold_left (entity_step d) (g_primary_entities g) (0, 0) in
    if Qltb 0 (snd r) then fst r / snd r else 0
  else 0.

(** *** Company and CVE dimensions (Jaccard) *)

(** [{c.get(key) for c in l if c.get(key)}] *)
Definition truthy_names (l : list Counted) : gset string :=
  list_to_set (filter (fun n => truthy n = true) (map c_name l)).

Definition jaccard (art : list string) (grp : list Counted) : Q :=
  let article_set : gset string := list_to_set art in
  let group_set := truthy_names grp in
  if negb (bool_decide (article_set = ∅)) && negb (bool_decide (group_set = ∅))
  then
    let intersection := size (article_set ∩ group_set) in
    let union := size (article_set ∪ group_set) in
    if (0 <? union)%nat then of_nat intersection / of_nat union else 0
  else 0.

(** *** Event dimension *)

Definition group_event_dict (l : list Counted) : list (string * Q) :=
  fold_left
    (fun d e => if truthy (c_name e)
                then dict_set (c_name e) (default 0 (c_frequency e)) d
                else d)
    l [].

Definition event_step (names : gset string) (acc : Q * Q) (kv : string * Q)
  : Q * Q :=
  let max_possible_event_score := snd acc + snd kv in
  if bool_decide (fst kv ∈ names)
  then (fst acc + snd kv, max_possible_event_score)
  else (fst acc, max_possible_event_score).

Definition calc_event_similarity (a : ArticleSignature) (g : GroupSignature)
  : Q :=
  let article_event_names : gset string :=
    list_to_set (filter (fun n => truthy n = true) (events a)) in
  if negb (bool_decide (article_event_names = ∅)) && nonempty (g_events g)
  then
    let r := fold_left (event_step article_event_names)
                       (group_event_dict (g_events g)) (0, 0) in
    if Qltb 0 (snd r) then fst r / snd r else 0
  else 0.

(** *** Adjustments *)

Definition hours_diff (article_pub_date group_latest_pub_date : Q) : Q :=
  Qabs (article_pub_date - group_latest_pub_date) / 3600.

Definition temporal_adjustment (a : ArticleSignature) (g : GroupSignature)
  : Q :=
  match published_date a, latest_published_date g with
  | Some ad, Some gd =>
      let h := hours_diff ad gd in
      if Qleb h 48 then 0 + 0.05 * (1 - h / 48)
      else if Qltb (7 * 24) h
           then 0 + (- 0.03) * min (h / (7 * 24) - 1) 1
           else 0
  | _, _ => 0
  end.

Definition source_bonus (a : ArticleSignature) (g : GroupSignature) : Q :=
  if truthy (source a) && nonempty (member_sources g)
     && bool_decide (source a ∈ member_sources g)
  then 0.03 else 0.

Definition top_article_entity (a : ArticleSignature) : option ArticleEntity :=
  head (sorted_desc (fun e => default 0 (ae_relevance_score e))
                    (primary_entities a)).

Definition top_group_entity (g : GroupSignature) : option GroupEntity :=
  head (sorted_desc
          (fun e => default 0 (ge_frequency e) * default 0 (ge_avg_relevance e))
          (g_primary_entities g)).

Definition core_entity_bonus (a : ArticleSignature) (g : GroupSignature) : Q :=
  match top_article_entity a, top_group_entity g with
  | Some ta, Some tg =>
      if (ae_entity_id ta =? ge_entity_id tg)%Z
         && bool_decide (ae_entity_type ta ∈ CORE_ENTITY_TYPES)
      then CORE_ENTITY_BONUS else 0
  | _, _ => 0
  end.

(** *** The scorer *)

Definition base_composite (e c v ev : Q) : Q :=
  0 + e * 0.40 + c * 0.25 + v * 0.15 + ev * 0.10.

Definition calculate_article_to_group_similarity
  (a : ArticleSignature) (g : GroupSignature) : Scores :=
  let e := calc_entity_similarity a g in
  let c := jaccard (companies a) (g_companies g) in
  let v := jaccard (cves a) (g_cves g) in
  let ev := calc_event_similarity a g in
  let composite := base_composite e c v ev in
  let t := temporal_adjustment a g in
  let s := source_bonus a g in
  let k := core_entity_bonus a g in
  let adjusted_score := composite + t + s + k in
  let final_score := max 0 (min 1 adjusted_score) in
  mkScores e c v ev final_score t s k composite.
End Scorer.

(** ** Dynamic thresholds and the grouping decision
       ([analysis/two_phase_grouping.py]) *)

Module Grouping.
Local Open Scope Q_scope.
Import Py.

(** The group dictionary as [get_existing_groups] builds it. *)
Record GroupDict := mkGroupDict {
  gd_group_id : Z;
  gd_main_topic : string;
  gd_group_label : string;
  gd_description : string;
  article_ids : list Z
}.

Record SizeAdjust := mkSizeAdjust {
  breakpoints : list nat;
  adjustments : list Q
}.

(** The rules dictionary; an absent key is [None]. *)
Record Rules := mkRules {
  base : option Q;
  category_adjust : option (list (string * Q));
  size_adjust : option SizeAdjust
}.

Definition ENABLE_LLM_MATCH_ASSESSMENT : bool := true.
Definition AMBIGUITY_ZONE_BELOW_THRESHOLD : Q := 0.10.
Definition AMBIGUITY_ZONE_ABOVE_THRESHOLD : Q := 0.05.
Definition MAX_SCORE_GAP_FOR_AMBIGUITY : Q := 0.08.
Definition DEFAULT_SIMILARITY_THRESHOLD : Q := 0.40.

Definition DYNAMIC_THRESHOLD_RULES : Rules :=
  mkRules
    (Some DEFAULT_SIMILARITY_THRESHOLD)
    (Some [("Cybersecurity & Data Privacy"%string, 0.05);
           ("Artificial Intelligence & Machine Learning"%string, 0.03);
           ("Other"%string, - 0.03)])
    (Some (mkSizeAdjust [1; 5; 10]%nat [0.05; 0.0; - 0.03; - 0.05])).

(** The loop [for i, bp in enumerate(breakpoints)]: [i] is the index of the
    breakpoint under inspection, [adj_index] the value assigned so far. *)
Fixpoint find_adj_index (group_size : nat) (bps : list nat)
                        (i adj_index : nat) : nat :=
  match bps with
  | [] => adj_index
  | bp :: rest =>
      if (bp <? group_size)%nat
      then find_adj_index group_size rest (S i) (S i)
      else adj_index
  end.

Definition _calculate_dynamic_threshold
  (group_dict : GroupDict) (base_threshold : Q) (rules : Rules) : Q :=
  let threshold := base_threshold in
  let category := gd_main_topic group_dict in
  let group_size := length (article_ids group_dict) in
  let threshold :=
    match category_adjust rules with
    | Some table =>
        if truthy category
        then threshold + default 0.0 (dict_get category table)
        else threshold
    | None => threshold
    end in
  let threshold :=
    match size_adjust rules with
    | Some sa =>
        if (length (adjustments sa) =? length (breakpoints sa) + 1)%nat
        then threshold
             + nth (find_adj_index group_size (breakpoints sa) 0 0)
                   (adjustments sa) 0
        else threshold
    | None => threshold
    end in
  max 0.1 (min 0.9 threshold).

(** An entry of [group_scores]. *)
Record GroupScore := mkGroupScore {
  gs_group_id : Z;
  gs_group_label : string;
  gs_description : string;
  score : Q;
  dynamic_threshold : Q
}.

Definition group_scores_of
  (article_sig : Scorer.ArticleSignature)
  (existing : list (GroupDict * Scorer.GroupSignature))
  (rules : Rules) : list GroupScore :=
  let base_threshold := default DEFAULT_SIMILARITY_THRESHOLD (base rules) in
  flat_map
    (fun gd : GroupDict * Scorer.GroupSignature =>
       if nonempty (article_ids (fst gd)) then
         [mkGroupScore
            (gd_group_id (fst gd)) (gd_group_label (fst gd))
            (gd_description (fst gd))
            (Scorer.composite_score
               (Scorer.calculate_article_to_group_similarity
                  article_sig (snd gd)))
            (_calculate_dynamic_threshold (fst gd) base_threshold rules)]
       else [])
    existing.

Inductive Decision :=
| add_to_existing (final_group_id : Z)
| create_new.

(** What the grouping code makes of the model's answer: no answer, an
    integer, an answer containing the word "none", anything else. *)
Inductive LlmAnswer :=
| NoAnswer
| AnswerInt (n : Z)
| AnswerNone
| AnswerUnparsable.

Definition _get_group_details_for_prompt
  (gid : Z) (existing : list (GroupDict * Scorer.GroupSignature))
  : option GroupDict :=
  fst <$> List.find (fun gd => (gd_group_id (fst gd) =? gid)%Z) existing.

(** The decision taken for one article, with the flag
    [llm_check_triggered].  [call_gpt_api] receives the candidates that
    the prompt lists. *)
Definition decide_group
  (call_gpt_api : list GroupScore -> LlmAnswer)
  (article_sig : Scorer.ArticleSignature)
  (existing : list (GroupDict * Scorer.GroupSignature))
  (rules : Rules) : Decision * bool :=
  let base_threshold := default DEFAULT_SIMILARITY_THRESHOLD (base rules) in
  let group_scores :=
    sorted_desc score (group_scores_of article_sig existing rules) in
  match group_scores with
  | [] => (create_new, false)
  | best_match_group :: others =>
      let best_match_score := score best_match_group in
      let best_match_threshold_used := dynamic_threshold best_match_group in
      let second_best_score :=
        match others with [] => - 1.0 | g2 :: _ => score g2 end in
      let is_match_above_threshold :=
        Qleb best_match_threshold_used best_match_score in
      let is_in_ambiguity_zone :=
        (Qleb (best_match_threshold_used - AMBIGUITY_ZONE_BELOW_THRESHOLD)
              best_match_score
         && Qltb best_match_score
                 (best_match_threshold_used + AMBIGUITY_ZONE_ABOVE_THRESHOLD))
        || (is_match_above_threshold
            && Qltb (best_match_score - second_best_score)
                    MAX_SCORE_GAP_FOR_AMBIGUITY) in
      let fallback :=
        if is_match_above_threshold
        then add_to_existing (gs_group_id best_match_group)
        else create_new in
      if is_match_above_threshold && negb is_in_ambiguity_zone then
        (add_to_existing (gs_group_id best_match_group), false)
      else if ENABLE_LLM_MATCH_ASSESSMENT && is_in_ambiguity_zone then
        let candidates := take 3 group_scores in
        let candidate_group_ids := map gs_group_id candidates in
        let candidate_groups_details :=
          omap (fun gid => _get_group_details_for_prompt gid existing)
               candidate_group_ids in
        if nonempty candidate_groups_details then
          match call_gpt_api candidates with
          | AnswerInt n =>
              if bool_decide (n ∈ candidate_group_ids)
              then (add_to_existing n, true)
              else (fallback, true)
          | AnswerNone => (create_new, true)
          | NoAnswer | AnswerUnparsable => (fallback, true)
          end
        else (fallback, true)
      else (create_new, false)
  end.
End Grouping.

(** ** Group memberships ([add_article_to_group], [enhanced_grouping.py]) *)

Module Store.
(** A row of [two_phase_article_group_memberships]: article id, group id.
    The primary key is the pair. *)
Definition Row : Type := Z * Z.

Inductive Sql :=
| SELECT_group_id (article_id : Z)
| DELETE_memberships (article_id : Z)
| INSERT_membership (article_id group_id : Z).

(** A cursor: the table as the open transaction sees it, and the
    statements executed so far, each with the table it left behind. *)
Record Cursor := mkCursor {
  table : list Row;
  executed : list (Sql * list Row)
}.

Inductive sqlite3_Error := IntegrityError.

(** Statements run in a state-and-error monad over the cursor. *)
Definition Exec (A : Type) : Type := Cursor -> (sqlite3_Error + A) * Cursor.

Definition ret {A} (x : A) : Exec A := fun c => (inr x, c).

Definition bind {A B} (m : Exec A) (k : A -> Exec B) : Exec B :=
  fun c => match m c with
           | (inr x, c') => k x c'
           | (inl e, c') => (inl e, c')
           end.

Notation "'fetch' x <- m >>> k" := (bind m (fun x => k))
  (at level 10, x name, m at level 100, k at level 200).
Notation "'exec' m >>> k" := (bind m (fun _ => k))
  (at level 10, m at level 100, k at level 200).

Definition record (s : Sql) (t : list Row) (c : Cursor) : Cursor :=
  mkCursor t (executed c ++ [(s, t)]).

Definition memberships_of (article_id : Z) (t : list Row) : list Row :=
  List.filter (fun r => (fst r =? article_id)%Z) t.

(** [SELECT group_id ... WHERE article_id = ?] followed by [fetchone()]. *)
Definition select_group_id (article_id : Z) : Exec (option Z) :=
  fun c =>
    (inr (snd <$> head (memberships_of article_id (table c))),
     record (SELECT_group_id article_id) (table c) c).

(** The rows of the other articles. *)
Definition without (article_id : Z) (t : list Row) : list Row :=
  List.filter (fun r => negb (fst r =? article_id)%Z) t.

(** [DELETE ... WHERE article_id = ?] *)
Definition delete_memberships (article_id : Z) : Exec unit :=
  fun c =>
    let t := without article_id (table c) in
    (inr tt, record (DELETE_memberships article_id) t c).

(** [INSERT INTO ... VALUES (?, ?)]: refused when the key is present. *)
Definition insert_membership (article_id group_id : Z) : Exec unit :=
  fun c =>
    if existsb (fun r => (fst r =? article_id)%Z && (snd r =? group_id)%Z)
               (table c)
    then (inl IntegrityError,
          record (INSERT_membership article_id group_id) (table c) c)
    else (inr tt,
          record (INSERT_membership article_id group_id)
                 (table c ++ [(article_id, group_id)]) c).

(** The body of the [try] block. *)
Definition add_article_to_group_body (article_id group_id : Z) : Exec bool :=
  fetch existing_group <- select_group_id article_id >>>
  match existing_group with
  | Some existing =>
      if (existing =? group_id)%Z then ret true
      else exec delete_memberships article_id >>>
           exec insert_membership article_id group_id >>>
           ret true
  | None =>
      exec insert_membership article_id group_id >>>
      ret true
  end.

(** [conn_managed_here] is true when no cursor was passed: the function
    then works on its own connection and rolls back on an error.  With a
    caller's cursor the caller decides. *)
Definition add_article_to_group
  (conn_managed_here : bool) (article_id group_id : Z) (c : Cursor)
  : bool * Cursor :=
  match add_article_to_group_body article_id group_id c with
  | (inr b, c') => (b, c')
  | (inl _, c') =>
      (false, if conn_managed_here then mkCursor (table c) (executed c')
              else c')
  end.

(** A run of attach and move requests [(article_id, group_id)] through one
    cursor, as the grouping loop issues them. *)
Definition attach_all (calls : list (Z * Z)) (c : Cursor) : Cursor :=
  fold_left (fun c call => snd (add_article_to_group false (fst call)
                                                      (snd call) c))
            calls c.

(** Every article has at most one membership row. *)
Definition at_most_one_group (t : list Row) : Prop :=
  forall article_id : Z, (length (memberships_of article_id t) <= 1)%nat.
End Store.

(** ** Entity upsert ([insert_entity], [db/database.py]) *)

Module Entities.
(** A row of [entity_profiles].  Timestamps are seconds. *)
Record EntityProfile := mkEntityProfile {
  entity_id : Z;
  entity_name : string;
  entity_type : string;
  description : option string;
  first_seen : option Z;
  last_seen : option Z;
  mention_count : Z;
  created_at : Z;
  updated_at : Z
}.

(** The table and the AUTOINCREMENT counter kept in [sqlite_sequence]. *)
Record Db := mkDb {
  entity_profiles : list EntityProfile;
  sqlite_sequence : Z
}.

(** [COALESCE(x, y)] *)
Definition COALESCE {A} (x y : option A) : option A :=
  match x with Some _ => x | None => y end.

(** [SELECT entity_id ... WHERE entity_name = ? AND entity_type = ?] and
    [fetchone()].  A NULL parameter matches no row. *)
Definition select_entity (name type : option string) (db : Db)
  : option EntityProfile :=
  match name, type with
  | Some n, Some t =>
      List.find (fun r => String.eqb (entity_name r) n
                          && String.eqb (entity_type r) t)
                (entity_profiles db)
  | _, _ => None
  end.

(** The row as the [UPDATE] statement leaves it. *)
Definition bump (new_description : option string) (now : Z)
                (r : EntityProfile) : EntityProfile :=
  mkEntityProfile
    (entity_id r) (entity_name r) (entity_type r)
    (COALESCE new_description (description r))
    (first_seen r) (Some now) (mention_count r + 1)
    (created_at r) now.

(** [insert_entity]; [now] is CURRENT_TIMESTAMP.  The [INSERT] fails on a
    NULL name or type (both columns are NOT NULL); the error is caught and
    [None] is returned. *)
Definition insert_entity
  (name type new_description : option string) (now : Z) (db : Db)
  : option Z * Db :=
  match select_entity name type db with
  | Some entity =>
      let id := entity_id entity in
      (Some id,
       mkDb (map (fun r => if (entity_id r =? id)%Z
                           then bump new_description now r else r)
                 (entity_profiles db))
            (sqlite_sequence db))
  | None =>
      match name, type with
      | Some n, Some t =>
          let id := (sqlite_sequence db + 1)%Z in
          (Some id,
           mkDb (entity_profiles db
                 ++ [mkEntityProfile id n t new_description
                                     (Some now) (Some now) 1 now now])
                id)
      | _, _ => (None, db)
      end
  end.

Definition find_by_id (id : Z) (db : Db) : option EntityProfile :=
  List.find (fun r => (entity_id r =? id)%Z) (entity_profiles db).

(** The constraints of the table: [entity_id] is the primary key and
    [(entity_name, entity_type)] is UNIQUE. *)
Definition ids_unique (db : Db) : Prop :=
  List.NoDup (map entity_id (entity_profiles db)).

Definition keys_unique (db : Db) : Prop :=
  List.NoDup (map (fun r => (entity_name r, entity_type r)) (entity_profiles db)).

(** The description the specification asks for on a hit: filled in only
    when the stored one is empty. *)
Definition fill_if_empty (stored new_description : option string)
  : option string :=
  match stored with
  | Some s => if Py.truthy s then stored else new_description
  | None => new_description
  end.
End Entities.

(** ** The merge pass ([analysis/group_merging.py]) *)

Module Merger.
Local Open Scope Q_scope.
Import Py.

Definition Group : Type := Grouping.GroupDict * Scorer.GroupSignature.

(** The local variables of [merge_similar_groups] that survive an
    iteration.  [merges] is not a variable of the program: it records, in
    order, the pair (surviving id, deleted id) of every committed merge. *)
Record State := mkState {
  merged_pairs_count : nat;
  errors : nat;
  processed_group_ids : gset Z;
  merges : list (Z * Z)
}.

Definition initial : State := mkState 0 0 ∅ [].

(** The pass either runs to its end or is left by an exception, raised
    while two signatures are compared or by a merge transaction. *)
Inductive Outcome :=
| Completed (st : State)
| Raised (st : State).

Definition state_of (o : Outcome) : State :=
  match o with Completed st | Raised st => st end.

(** The three ways a merge transaction can end. *)
Inductive Transaction :=
| Committed
| sqlite3_Error
| Uncaught.

(** "Decide which group survives": the assignments
    [surviving_group_id = group_a_id] and [deleted_group_id = group_b_id]. *)
Definition choose_survivor (group_a group_b : Group) : Z * Z :=
  let surviving_group_id := Grouping.gd_group_id (fst group_a) in
  let deleted_group_id := Grouping.gd_group_id (fst group_b) in
  (surviving_group_id, deleted_group_id).

Section Pass.
(** Reads the member articles from the store. *)
Variable generate_group_signature
  : Grouping.GroupDict -> Scorer.GroupSignature.
(** The group-to-group score; it consults the language model and may
    raise ([None]). *)
Variable _calculate_group_similarity
  : Scorer.GroupSignature -> Scorer.GroupSignature -> option Q.
(** What the transaction merging [deleted] into [surviving] does: it
    commits; or it fails with a [sqlite3.Error], which is rolled back and
    counted; or it raises an exception that [except sqlite3.Error] does not
    catch, as the OverflowError of a label outside 64 bits. *)
Variable merge_transaction : Z -> Z -> Transaction.
Variable merge_threshold : Q.

(** The inner loop [for j in range(i + 1, n)] for a fixed [group_a];
    [rest] holds the groups at the indices still to visit. *)
Fixpoint compare_with (group_a : Group) (rest : list Group) (st : State)
  : Outcome :=
  match rest with
  | [] => Completed st
  | group_b :: rest' =>
      let group_a_id := Grouping.gd_group_id (fst group_a) in
      let group_b_id := Grouping.gd_group_id (fst group_b) in
      if bool_decide (group_a_id ∈ processed_group_ids st)
         || bool_decide (group_b_id ∈ processed_group_ids st)
      then compare_with group_a rest' st
      else
        match _calculate_group_similarity (snd group_a) (snd group_b) with
        | None => Raised st
        | Some similarity =>
            if Qleb merge_threshold similarity then
              let '(surviving_group_id, deleted_group_id) :=
                choose_survivor group_a group_b in
              match merge_transaction surviving_group_id
                                      deleted_group_id with
              | Committed =>
                  Completed
                    (mkState
                       (merged_pairs_count st + 1) (errors st)
                       ({[group_b_id]} ∪ ({[group_a_id]}
                                          ∪ processed_group_ids st))
                       (merges st
                        ++ [(surviving_group_id, deleted_group_id)]))
              | sqlite3_Error =>
                  Completed
                    (mkState (merged_pairs_count st) (errors st + 1)
                             (processed_group_ids st) (merges st))
              | Uncaught => Raised st
              end
            else compare_with group_a rest' st
        end
  end.

(** The outer loop [for i in range(n)] over the groups still ahead. *)
Fixpoint compare_pairs (groups : list Group) (st : State) : Outcome :=
  match groups with
  | [] => Completed st
  | group_a :: rest =>
      match compare_with group_a rest st with
      | Completed st' => compare_pairs rest st'
      | Raised st' => Raised st'
      end
  end.

Definition groups_with_signatures (groups : list Grouping.GroupDict)
  : list Group :=
  map (fun g => (g, generate_group_signature g))
      (List.filter (fun g => nonempty (Grouping.article_ids g)) groups).

Definition merge_similar_groups (groups : list Grouping.GroupDict)
  : Outcome :=
  if (length groups <? 2)%nat then Completed initial
  else compare_pairs (groups_with_signatures groups) initial.
End Pass.

(** The ids that took part in a merge, survivors and deleted alike. *)
Definition participants (ms : list (Z * Z)) : list Z :=
  flat_map (fun m => [fst m; snd m]) ms.

Definition id_of (g : Group) : Z := Grouping.gd_group_id (fst g).

(** What the loops maintain: no id takes part in two recorded merges, every
    id that took part is marked as processed, and the counter counts the
    recorded merges. *)
Definition consistent (st : State) : Prop :=
  List.NoDup (participants (merges st))
  /\ (forall id, In id (participants (merges st)) ->
                 id ∈ processed_group_ids st)
  /\ merged_pairs_count st = length (merges st).

(** The rule of the specification for the surviving group: larger
    membership, then older [created_at], then smaller id. *)
Definition survivor_by_rule (created_at : Z -> Z)
                            (a b : Grouping.GroupDict) : Z :=
  let size_a := length (Grouping.article_ids a) in
  let size_b := length (Grouping.article_ids b) in
  let id_a := Grouping.gd_group_id a in
  let id_b := Grouping.gd_group_id b in
  if (size_b <? size_a)%nat then id_a
  else if (size_a <? size_b)%nat then id_b
  else if (created_at id_a <? created_at id_b)%Z then id_a
  else if (created_at id_b <? created_at id_a)%Z then id_b
  else Z.min id_a id_b.
End Merger.

(** ** Token estimate ([utils.py]) *)

Module Utils.
Local Open Scope Q_scope.

(** [str.isspace] on the code points below 256. *)
Definition isspace (c : ascii) : bool :=
  let n := nat_of_ascii c in
  ((9 <=? n) && (n <=? 13) || (28 <=? n) && (n <=? 32)
   || (n =? 133) || (n =? 160))%nat.

(** [text.split()]: the maximal runs of non-space characters.  [word] is
    the run being read, if any. *)
Fixpoint split_from (text : string) (word : option string) : list string :=
  match text with
  | EmptyString => match word with Some w => [w] | None => [] end
  | String c rest =>
      if isspace c then
        match word with
        | Some w => w :: split_from rest None
        | None => split_from rest None
        end
      else
        split_from rest
          (Some (match word with Some w => w | None => EmptyString end
                 ++ String c EmptyString)%string)
  end.

Definition split (text : string) : list string := split_from text None.

Definition approximate_tokens (text : string) : Z :=
  Py.int (Py.of_nat (length (split text)) * 1.3).

(** Python's [round]: to the nearest integer, ties to the even one. *)
Definition round (x : Q) : Z :=
  let f := Qfloor x in
  let r := x - inject_Z f in
  if Py.Qltb r (1 # 2) then f
  else if Py.Qltb (1 # 2) r then (f + 1)%Z
  else if Z.even f then f else (f + 1)%Z.

(** The estimate as the specification words it. *)
Definition rounded_estimate (text : string) : Z :=
  round (Py.of_nat (length (split text)) * 1.3).
End Utils.

(** ** The offsets and the clamp as the specification tabulates them *)

Module Stated.
Local Open Scope Q_scope.

Definition category_offset (category : string) : Q :=
  if String.eqb category "Cybersecurity & Data Privacy" then 0.05
  else if String.eqb category "Artificial Intelligence & Machine Learning"
       then 0.03
  else if String.eqb category "Other" then - 0.03
  else 0.0.

Definition size_offset (members : nat) : Q :=
  if (members <=? 1)%nat then 0.05
  else if (members <=? 5)%nat then 0.0
  else if (members <=? 10)%nat then - 0.03
  else - 0.05.

Definition clamp (lo hi x : Q) : Q := Qmax lo (Qmin hi x).

(** Scores and frequencies in the unit interval; an absent value is
    replaced by the code's default and carries no obligation. *)
Definition unit_interval (q : Q) : Prop := 0 <= q <= 1.

Definition in_range (o : option Q) : Prop :=
  match o with Some q => unit_interval q | None => True end.

Definition relevances_in_range (a : Scorer.ArticleSignature) : Prop :=
  Forall (fun e => in_range (Scorer.ae_relevance_score e))
         (Scorer.primary_entities a).

Definition entities_in_range (g : Scorer.GroupSignature) : Prop :=
  Forall (fun e => in_range (Scorer.ge_frequency e)
                   /\ in_range (Scorer.ge_avg_relevance e))
         (Scorer.g_primary_entities g).

Definition events_in_range (g : Scorer.GroupSignature) : Prop :=
  Forall (fun e => in_range (Scorer.c_frequency e)) (Scorer.g_events g).
End Stated.

(** ** Concrete signatures and groups used in the examples *)

Module Scenario.
Local Open Scope Q_scope.
Import Scorer Grouping.

(** An article with a CVE, a company, an entity and an event, published
    six hours after the group's latest member. *)
Definition acme_article : ArticleSignature :=
  mkArticleSignature 1 (Some 21600) "bleepingcomputer"
    [mkArticleEntity 5 "Acme Corp" "organization" (Some 0.9)]
    ["Acme Corp"; "Initech"]%string ["CVE-2024-1234"%string]
    ["Patch Tuesday"%string].

Definition acme_group : GroupSignature :=
  mkGroupSignature 7 "CVE-2024-1234 exploit activity" "Exploitation"
    "Cybersecurity & Data Privacy"
    [mkGroupEntity 5 "Acme Corp" "organization" (Some 1) (Some 0.8);
     mkGroupEntity 6 "Jane Doe" "person" (Some 0.5) (Some 0.8)]
    [mkCounted "Acme Corp" (Some 1)]
    [mkCounted "CVE-2024-1234" (Some 1)]
    [mkCounted "Patch Tuesday" (Some 1); mkCounted "Pwn2Own" (Some 0.5)]
    (Some 0) ["bleepingcomputer"%string].

Definition acme_dict : GroupDict :=
  mkGroupDict 7 "Cybersecurity & Data Privacy"
    "CVE-2024-1234 exploit activity" "Exploitation" [100; 101]%Z.

(** An article without entities, companies and CVEs that shares its
    source, its date and an event with the group above. *)
Definition bare_article : ArticleSignature :=
  mkArticleSignature 2 (Some 0) "bleepingcomputer" [] [] []
    ["Patch Tuesday"%string; "Pwn2Own"%string].

(** The same, with nothing but its source. *)
Definition sourced_article : ArticleSignature :=
  mkArticleSignature 3 None "bleepingcomputer" [] [] [] [].

(** Rules with a low base threshold and no adjustment. *)
Definition low_rules : Rules := mkRules (Some 0.10) None None.

(** An entity table with two profiles, one of them described. *)
Definition openai : Entities.EntityProfile :=
  Entities.mkEntityProfile 1 "OpenAI" "organization" (Some "AI lab"%string)
    (Some 1000%Z) (Some 2000%Z) 3 1000 2000.

Definition gpt5 : Entities.EntityProfile :=
  Entities.mkEntityProfile 2 "GPT-5" "product" None
    (Some 1500%Z) (Some 1500%Z) 1 1500 1500.

Definition entity_db : Entities.Db := Entities.mkDb [openai; gpt5] 2.

(** Two groups about one story: the first has one article, the second
    three. *)
Definition small_group : GroupDict :=
  mkGroupDict 1 "Artificial Intelligence & Machine Learning"
    "GPT-5 launch reactions" "Reactions" [10]%Z.

Definition large_group : GroupDict :=
  mkGroupDict 2 "Artificial Intelligence & Machine Learning"
    "OpenAI GPT-5 release" "Release" [20; 21; 22]%Z.

Definition bare_signature (g : GroupDict) : GroupSignature :=
  mkGroupSignature (gd_group_id g) (gd_group_label g) (gd_description g)
    (gd_main_topic g) [] [] [] [] None [].
End Scenario.

(** ** Packing summaries into chunks ([chunk_summaries], [utils.py]) *)

Module Chunks.
Import Utils.

(** An item of [summaries_dict]: the link and the summary. *)
Definition Item : Type := string * string.

(** [sorted(summaries_dict.items(), key=lambda x: len(x[1]))]: ascending by
    the length of the summary, items of equal length in their original
    order. *)
Fixpoint insert_by_len (x : Item) (l : list Item) : list Item :=
  match l with
  | [] => [x]
  | y :: t =>
      if (String.length (snd x) <? String.length (snd y))%nat
      then x :: y :: t
      else y :: insert_by_len x t
  end.

Definition sorted_items (summaries_dict : list Item) : list Item :=
  fold_left (fun acc x => insert_by_len x acc) summaries_dict [].

(** The state of the generator: the chunks yielded so far and the two
    local variables. *)
Record Packer := mkPacker {
  yielded : list (list Item);
  current_chunk : list Item;
  current_tokens : Z
}.

(** [if current_chunk: yield current_chunk; current_chunk = {};
    current_tokens = 0] *)
Definition flush (p : Packer) : Packer :=
  if Py.nonempty (current_chunk p)
  then mkPacker (yielded p ++ [current_chunk p]) [] 0
  else p.

(** One iteration of the loop over the sorted items. *)
Definition pack_step (max_token_chunk : Z) (p : Packer) (item : Item)
  : Packer :=
  let tokens_for_article := approximate_tokens (snd item) in
  if (max_token_chunk <? tokens_for_article)%Z then
    let p1 := flush p in
    mkPacker (yielded p1 ++ [[item]]) (current_chunk p1) (current_tokens p1)
  else
    let p1 :=
      if (max_token_chunk <? current_tokens p + tokens_for_article)%Z
      then flush p else p in
    mkPacker (yielded p1)
             (Py.dict_set (fst item) (snd item) (current_chunk p1))
             (current_tokens p1 + tokens_for_article)%Z.

(** The chunks in the order the generator yields them. *)
Definition chunk_summaries (summaries_dict : list Item) (max_token_chunk : Z)
  : list (list Item) :=
  yielded (flush (fold_left (pack_step max_token_chunk)
                            (sorted_items summaries_dict)
                            (mkPacker [] [] 0))).

Definition chunk_tokens (chunk : list Item) : Z :=
  fold_right (fun item acc => (approximate_tokens (snd item) + acc)%Z) 0%Z
             chunk.

(** What the loop maintains on a dictionary (distinct links): the running
    count is the load of the open chunk, an open chunk is within budget, and
    so is every closed chunk of more than one article. *)
Definition within_budget (max_token_chunk : Z) (chunk : list Item) : Prop :=
  (chunk_tokens chunk <= max_token_chunk)%Z
  \/ exists item, chunk = [item]
                  /\ (max_token_chunk < approximate_tokens (snd item))%Z.

Definition packer_ok (max_token_chunk : Z) (p : Packer) : Prop :=
  Forall (fun c => c <> []) (yielded p)
  /\ Forall (within_budget max_token_chunk) (yielded p)
  /\ current_tokens p = chunk_tokens (current_chunk p)
  /\ (current_chunk p = [] \/ (current_tokens p <= max_token_chunk)%Z).

(** Three summaries of one, three and two words. *)
Definition sample_summaries : list Item :=
  [("https://a.example/1", "patch released today");
   ("https://b.example/2", "breach");
   ("https://c.example/3", "new exploit")]%string.
End Chunks.

(** ** Notions used to describe the grouping decision *)

Module Arbitration.
Local Open Scope Q_scope.
Import Grouping.

(** The rules with another value under the key ["base"]. *)
Definition with_base (b : Q) (rules : Rules) : Rules :=
  mkRules (Some b) (category_adjust rules) (size_adjust rules).

(** What the rules add to the base for a group, before the clamp. *)
Definition threshold_shift (group_dict : GroupDict) (rules : Rules) : Q :=
  match category_adjust rules with
  | Some table =>
      if Py.truthy (gd_main_topic group_dict)
      then default 0.0 (Py.dict_get (gd_main_topic group_dict) table)
      else 0
  | None => 0
  end
  + match size_adjust rules with
    | Some sa =>
        if (length (adjustments sa) =? length (breakpoints sa) + 1)%nat
        then nth (find_adj_index (length (article_ids group_dict))
                                 (breakpoints sa) 0 0)
                 (adjustments sa) 0
        else 0
    | None => 0
    end.

(** [group_scores] after [group_scores.sort(key=score, reverse=True)]. *)
Definition ranked (article_sig : Scorer.ArticleSignature)
                  (existing : list (GroupDict * Scorer.GroupSignature))
                  (rules : Rules) : list GroupScore :=
  Py.sorted_desc score (group_scores_of article_sig existing rules).

(** Answers of the language model that the code does not act upon: no
    answer, an unparsable one, or an id that is not among the candidates. *)
Definition no_verdict (answer : LlmAnswer) (candidate_group_ids : list Z)
  : Prop :=
  match answer with
  | NoAnswer | AnswerUnparsable => True
  | AnswerInt n => n ∉ candidate_group_ids
  | AnswerNone => False
  end.

(** The plain comparison of the best score with its threshold. *)
Definition threshold_verdict (candidates : list GroupScore) : Decision :=
  match candidates with
  | [] => create_new
  | best :: _ =>
      if Py.Qleb (dynamic_threshold best) (score best)
      then add_to_existing (gs_group_id best)
      else create_new
  end.

(** A list in descending order of [key]. *)
Fixpoint descending {A} (key : A -> Q) (l : list A) : Prop :=
  match l with
  | [] => True
  | x :: t => Forall (fun y => key y <= key x) t /\ descending key t
  end.

(** Two score entries for the same group and score, the second with a
    threshold at least as high. *)
Definition raised (g1 g2 : GroupScore) : Prop :=
  gs_group_id g1 = gs_group_id g2
  /\ score g1 = score g2
  /\ dynamic_threshold g1 <= dynamic_threshold g2.
End Arbitration.

(** ** Group-to-group similarity ([_calculate_group_similarity],
       [analysis/group_merging.py]) *)

Module GroupSimilarity.
Local Open Scope Q_scope.
Import Scorer.

(** A group signature read in the place of the article signature.  Its
    entities carry no [relevance_score], it has no [published_date] and no
    [source]; its companies and CVEs are dictionaries, which [set(...)]
    cannot hash: the scorer raises a TypeError unless both lists are empty
    ([None]).  The article id is only logged. *)
Definition as_article (g : GroupSignature) : option ArticleSignature :=
  if Py.nonempty (g_companies g) || Py.nonempty (g_cves g) then None
  else
    Some (mkArticleSignature
            (group_id g) None ""
            (map (fun e => mkArticleEntity (ge_entity_id e) (ge_entity_name e)
                                           (ge_entity_type e) None)
                 (g_primary_entities g))
            [] []
            (map c_name (g_events g))).

(** The scorer on a signature of either kind.  In the lists on which it
    calls [set(...)] an article signature has names, a group signature has
    dictionaries with a name and a frequency. *)
Inductive Entry :=
| Name (name : string)
| Dictionary (item : Counted).

Definition hashable (e : Entry) : bool :=
  match e with Name _ => true | Dictionary _ => false end.

(** [set(l)]: a dictionary cannot be hashed, the call raises TypeError
    ([None]); else the elements. *)
Definition py_set (l : list Entry) : option (list string) :=
  if forallb hashable l
  then Some (omap (fun e => match e with
                            | Name name => Some name
                            | Dictionary _ => None
                            end) l)
  else None.

Record RawSignature := mkRawSignature {
  raw_id : Z;
  raw_published_date : option Q;
  raw_source : string;
  raw_primary_entities : list ArticleEntity;
  raw_companies : list Entry;
  raw_cves : list Entry;
  raw_events : list string
}.

Definition of_article (a : ArticleSignature) : RawSignature :=
  mkRawSignature (article_id a) (published_date a) (source a)
                 (primary_entities a) (map Name (companies a))
                 (map Name (cves a)) (events a).

(** A group signature has no [published_date] and no [source], and its
    entities carry no [relevance_score]. *)
Definition of_group (g : GroupSignature) : RawSignature :=
  mkRawSignature
    (group_id g) None ""
    (map (fun e => mkArticleEntity (ge_entity_id e) (ge_entity_name e)
                                   (ge_entity_type e) None)
         (g_primary_entities g))
    (map Dictionary (g_companies g)) (map Dictionary (g_cves g))
    (map c_name (g_events g)).

(** [calculate_article_to_group_similarity] with the two calls of
    [set(...)] on the article's side written out. *)
Definition calculate_raw (r : RawSignature) (g : GroupSignature)
  : option Scores :=
  match py_set (raw_companies r) with
  | None => None
  | Some article_companies =>
      match py_set (raw_cves r) with
      | None => None
      | Some article_cves =>
          Some (calculate_article_to_group_similarity
                  (mkArticleSignature
                     (raw_id r) (raw_published_date r) (raw_source r)
                     (raw_primary_entities r) article_companies article_cves
                     (raw_events r))
                  g)
      end
  end.

(** The rating of the two labels and descriptions.  [llm_score] is the
    answer of the language model read by [float(...)], [None] when that
    fails; it is asked only with an API key and two descriptions. *)
Definition label_desc_similarity
  (api_key : bool) (llm_score : GroupSignature -> GroupSignature -> option Q)
  (group_sig_a group_sig_b : GroupSignature) : Q :=
  if api_key && Py.truthy (description group_sig_a)
     && Py.truthy (description group_sig_b)
  then default 0.0 (llm_score group_sig_a group_sig_b)
  else 0.0.

Definition _calculate_group_similarity
  (api_key : bool) (llm_score : GroupSignature -> GroupSignature -> option Q)
  (group_sig_a group_sig_b : GroupSignature) : option Q :=
  match as_article group_sig_a, as_article group_sig_b with
  | Some article_a, Some article_b =>
      let sim_a_b :=
        composite_score
          (calculate_article_to_group_similarity article_a group_sig_b) in
      let sim_b_a :=
        composite_score
          (calculate_article_to_group_similarity article_b group_sig_a) in
      let avg_sim := (sim_a_b + sim_b_a) / 2.0 in
      let label_desc_sim :=
        label_desc_similarity api_key llm_score group_sig_a group_sig_b in
      Some (avg_sim * 0.7 + label_desc_sim * 0.3)
  | _, _ => None
  end.

(** A signature that carries a company or a CVE entry. *)
Definition has_company_or_cve (g : GroupSignature) : Prop :=
  g_companies g <> [] \/ g_cves g <> [].

(** Two groups about the same entity and event, without companies and
    CVEs. *)
Definition launch_a : GroupSignature :=
  mkGroupSignature 1 "GPT-5 launch reactions" "Reactions"
    "Artificial Intelligence & Machine Learning"
    [mkGroupEntity 5 "OpenAI" "organization" (Some 1) (Some 0.9)]
    [] [] [mkCounted "GPT-5 launch" (Some 1)] (Some 0) ["techcrunch"%string].

Definition launch_b : GroupSignature :=
  mkGroupSignature 2 "OpenAI GPT-5 release" "Release"
    "Artificial Intelligence & Machine Learning"
    [mkGroupEntity 5 "OpenAI" "organization" (Some 1) (Some 0.8);
     mkGroupEntity 6 "Sam Altman" "person" (Some 0.5) (Some 0.8)]
    [] [] [mkCounted "GPT-5 launch" (Some 0.5)] (Some 3600)
    ["techradar"%string].
End GroupSimilarity.

(** ** Link tables ([link_entity_to_article], [insert_article_cve],
       [db/database.py]) *)

Module Links.
(** A row of [article_entities]; the primary key is (article, entity). *)
Record ArticleEntityRow := mkArticleEntityRow {
  ae_article_id : Z;
  ae_entity_id : Z;
  ae_relevance_score : option Q;
  ae_context_snippet : option string
}.





Definition links_unique (t : list ArticleEntityRow) : Prop :=
  List.NoDup (map (fun r => (ae_article_id r, ae_entity_id r)) t).







End Links.

(** ** The constraints of [entity_profiles] ([db/database.py]) *)

Module EntityTable.
Import Entities.



End EntityTable.

(** ** Founding a group ([create_new_group_for_single_article],
       [analysis/two_phase_grouping.py]) *)

Module NewGroup.
Local Open Scope Z_scope.

(** A value as [json.loads] returns it (NaN and the infinities apart). *)
#[local] Set Warnings "-register-all".
Inductive Json :=
| JNull
| JBool (b : bool)
| JInt (n : Z)
| JFloat (x : Q)
| JStr (s : string)
| JArr (items : list Json)
| JObj (fields : list (string * Json)).

(** [json.loads] of the cleaned response, an oracle. *)
Inductive Parsed := JSONDecodeError | Loaded (v : Json).

(** [DictSliceError] is what slicing a dictionary raises: a TypeError
    (unhashable type: 'slice') before Python 3.12, a KeyError since. *)
Inductive Exception :=
| TypeError
| AttributeError
| OverflowError
| DictSliceError.

Inductive Outcome (A : Type) :=
| Returned (x : A)
| Raised (e : Exception).
Arguments Returned {A} x.
Arguments Raised {A} e.

Definition PREDEFINED_CATEGORIES : list string :=
  ["Science & Environment";
   "Business, Finance & Trade";
   "Artificial Intelligence & Machine Learning";
   "Software Development & Open Source";
   "Cybersecurity & Data Privacy";
   "Politics & Government";
   "Consumer Technology & Gadgets";
   "Automotive, Space & Transportation";
   "Enterprise Technology & Cloud Computing";
   "Other"]%string.

(** An entry of [closest_groups_info].  [desc] is the description of the
    group as its dictionary holds it: text or [None] when read from the
    table, the raw value of the model's answer for a group founded earlier
    in the run. *)
Record NearMiss := mkNearMiss {
  label : string;
  desc : Json;
  score : Q
}.

(** [desc[:100]]: text and lists can be sliced; [None], a boolean and a
    number raise TypeError. *)
Definition slice_desc (desc : Json) : option Exception :=
  match desc with
  | JStr _ | JArr _ => None
  | JNull | JBool _ | JInt _ | JFloat _ => Some TypeError
  | JObj _ => Some DictSliceError
  end.

(** The loop over the entries that are shown in the prompt. *)
Fixpoint build_context (shown : list NearMiss) : Outcome unit :=
  match shown with
  | [] => Returned tt
  | group_info :: rest =>
      match slice_desc (desc group_info) with
      | Some e => Raised e
      | None => build_context rest
      end
  end.

(** [for i, group_info in enumerate(closest_groups_info[:2])] *)
Definition prompt_context (closest_groups_info : list NearMiss) : Outcome unit :=
  build_context (firstn 2 closest_groups_info).

(** [f"{article_id}"] *)
Definition str_of_int (n : Z) : string := NilZero.string_of_int (Z.to_int n).

(** [d.get(key, default)] *)
Definition get (key : string) (default : Json) (d : list (string * Json))
  : Json :=
  match Py.dict_get key d with Some v => v | None => default end.

(** [main_topic not in PREDEFINED_CATEGORIES] replaces the topic by
    ["Other"]; only a string compares equal to a category. *)
Definition normalise_topic (main_topic : Json) : string :=
  match main_topic with
  | JStr s => if existsb (String.eqb s) PREDEFINED_CATEGORIES then s
              else "Other"
  | _ => "Other"
  end%string.

Record GroupInfo := mkGroupInfo {
  gi_main_topic : string;
  gi_group_label : Json;
  gi_description : Json
}.

(** The [try] block around [json.loads]: a decoding error gives the
    fallback triple; a decoded value that is no object has no [get], and
    the AttributeError is not caught. *)
Definition group_info_of (article_id : Z) (article_title : string)
                         (parsed : Parsed) : Outcome GroupInfo :=
  match parsed with
  | Loaded (JObj group_info) =>
      let main_topic := get "main_topic" (JStr "Other") group_info in
      let group_label :=
        get "group_label"
            (JStr ("Group for Article " ++ str_of_int article_id)) group_info in
      let description := get "description" (JStr article_title) group_info in
      Returned (mkGroupInfo (normalise_topic main_topic) group_label
                            description)
  | Loaded _ => Raised AttributeError
  | JSONDecodeError =>
      Returned (mkGroupInfo "Other"
                  (JStr ("Group for Article " ++ str_of_int article_id
                         ++ " (Auto)"))
                  (JStr article_title))
  end%string.

(** A row of [two_phase_article_groups], with the values bound to the
    INSERT. *)
Record GroupRow := mkGroupRow {
  r_group_id : Z;
  r_main_topic : string;
  r_sub_topic : string;
  r_group_label : Json;
  r_description : Json;
  r_consistency_score : Q
}.

(** The two tables and the AUTOINCREMENT counter of the groups table. *)
Record Db := mkDb {
  two_phase_article_groups : list GroupRow;
  sqlite_sequence : Z;
  memberships : list Store.Row
}.

(** AUTOINCREMENT: one more than the largest id that ever existed. *)
Definition next_rowid (db : Db) : Z :=
  fold_right Z.max (sqlite_sequence db)
             (map r_group_id (two_phase_article_groups db)) + 1.

(** Binding one parameter: lists and dicts are refused with a
    [sqlite3.Error], an integer outside 64 bits raises OverflowError. *)
Inductive Binding := Bound | Unsupported | TooLarge.

Definition bind_parameter (v : Json) : Binding :=
  match v with
  | JArr _ | JObj _ => Unsupported
  | JInt n => if (- 2 ^ 63 <=? n) && (n <? 2 ^ 63) then Bound else TooLarge
  | _ => Bound
  end.

Inductive Inserted :=
| lastrowid (new_group_id : Z) (db : Db)
| sqlite3_Error
| Overflow.

(** [INSERT INTO two_phase_article_groups (main_topic, sub_topic,
    group_label, description, consistency_score) VALUES (?, ?, ?, ?, ?)]:
    parameters are bound in order; [group_label] is NOT NULL. *)
Definition insert_group (info : GroupInfo) (db : Db) : Inserted :=
  match bind_parameter (gi_group_label info) with
  | TooLarge => Overflow
  | Unsupported => sqlite3_Error
  | Bound =>
      match bind_parameter (gi_description info) with
      | TooLarge => Overflow
      | Unsupported => sqlite3_Error
      | Bound =>
          match gi_group_label info with
          | JNull => sqlite3_Error
          | _ =>
              let new_group_id := next_rowid db in
              lastrowid new_group_id
                (mkDb (two_phase_article_groups db
                       ++ [mkGroupRow new_group_id (gi_main_topic info) ""
                                      (gi_group_label info)
                                      (gi_description info) 0.7%Q])
                      new_group_id (memberships db))
          end
      end
  end.

(** The dictionary returned for the new group. *)
Record NewGroupDict := mkNewGroupDict {
  ng_group_id : Z;
  ng_main_topic : string;
  ng_sub_topic : string;
  ng_group_label : Json;
  ng_description : Json;
  ng_consistency_score : Q;
  ng_article_ids : list Z
}.

(** [response] is the answer of [call_gpt_api].  The database is returned
    as committed: a rollback, and a connection closed by an exception
    before the commit, leave it as it was. *)
Definition create_new_group_for_single_article
  (article_id : Z) (article_title : string)
  (closest_groups_info : list NearMiss)
  (response : option string) (json_loads : string -> Parsed) (db : Db)
  : Outcome (option NewGroupDict) * Db :=
  match prompt_context closest_groups_info with
  | Raised e => (Raised e, db)
  | Returned _ =>
      match response with
      | None => (Returned None, db)
      | Some text =>
          if negb (Py.truthy text) then (Returned None, db)
          else
            match group_info_of article_id article_title (json_loads text) with
            | Raised e => (Raised e, db)
            | Returned info =>
                match insert_group info db with
                | Overflow => (Raised OverflowError, db)
                | sqlite3_Error => (Returned None, db)
                | lastrowid new_group_id db1 =>
                    let added :=
                      Store.add_article_to_group
                        false article_id new_group_id
                        (Store.mkCursor (memberships db1) []) in
                    if fst added
                    then (Returned
                            (Some (mkNewGroupDict
                                     new_group_id (gi_main_topic info) ""
                                     (gi_group_label info)
                                     (gi_description info) 0.7%Q
                                     [article_id])),
                          mkDb (two_phase_article_groups db1)
                               (sqlite_sequence db1)
                               (Store.table (snd added)))
                    else (Returned None, db)
                end
            end
      end
  end.

Definition sample_db : Db :=
  mkDb [mkGroupRow 1 "Other" "" (JStr "Old story") JNull 0.7%Q] 1
       [(10, 1); (11, 1)].

Definition sample_loads (text : string) : Parsed :=
  if String.eqb text "{}" then Loaded (JObj []) else JSONDecodeError.

End NewGroup.

(** ** The write of a merge ([merge_similar_groups],
       [analysis/group_merging.py]) *)

Module MergeWrite.
Import NewGroup.

(** The transaction of one merge.  [merged_label] and [merged_description]
    are the values bound to the UPDATE of the surviving group: those of the
    model's answer where it has them, the fallback strings otherwise.  They
    are bound in this order: an integer outside 64 bits raises
    OverflowError, which [except sqlite3.Error] does not catch; a list or a
    dictionary is refused with a [sqlite3.Error], and so is a NULL label
    ([group_label] is NOT NULL).  [commits] tells whether the statements
    and the commit succeed otherwise.  The group ids come from the table
    and fit. *)
Definition merge_transaction (merged_label merged_description : Json)
                             (commits : bool) : Merger.Transaction :=
  match bind_parameter merged_label with
  | TooLarge => Merger.Uncaught
  | Unsupported => Merger.sqlite3_Error
  | Bound =>
      match bind_parameter merged_description with
      | TooLarge => Merger.Uncaught
      | Unsupported => Merger.sqlite3_Error
      | Bound =>
          match merged_label with
          | JNull => Merger.sqlite3_Error
          | _ => if commits then Merger.Committed else Merger.sqlite3_Error
          end
      end
  end.
End MergeWrite.

(** ** Group signatures ([generate_group_signature],
       [enhanced_grouping.py]) *)

Module GroupSig.
Import Py Scorer.
Local Open Scope Q_scope.

(** [counts[k] += 1] on a [defaultdict(int)]; [items()] lists the keys in
    the order of their first increment. *)
Fixpoint incr (k : string) (d : list (string * nat)) : list (string * nat) :=
  match d with
  | [] => [(k, 1%nat)]
  | (k', n) :: t => if String.eqb k' k then (k', S n) :: t
                    else (k', n) :: incr k t
  end.

Definition count_all (names : list string) : list (string * nat) :=
  fold_left (fun d k => incr k d) names [].

(** [entity_counts[entity_id] += 1] and
    [entity_relevance_scores[entity_id].append(relevance)]; both
    dictionaries are only looked up.  Entity ids are read from the primary
    key and are never [None]. *)
Definition count_entity (m : gmap Z nat) (e : ArticleEntity) : gmap Z nat :=
  <[ae_entity_id e := S (default 0%nat (m !! ae_entity_id e))]> m.

Definition note_relevance (m : gmap Z (list Q)) (e : ArticleEntity)
  : gmap Z (list Q) :=
  <[ae_entity_id e := default [] (m !! ae_entity_id e)
                      ++ [default 0.0 (ae_relevance_score e)]]> m.

(** [sum(relevances)] *)
Definition sum (l : list Q) : Q := fold_left Qplus l 0.

(** One step of the date loop: a parsed date replaces the latest one when
    it is strictly later. *)
Definition later (latest_published_date : option Q) (sig : ArticleSignature)
  : option Q :=
  match published_date sig with
  | Some current_date =>
      match latest_published_date with
      | None => Some current_date
      | Some latest => if Qltb latest current_date then Some current_date
                       else latest_published_date
      end
  | None => latest_published_date
  end.

(** A row fetched from [entity_profiles], turned into an entry of
    [primary_entities]. *)
Definition entity_detail (entity_counts : gmap Z nat)
                         (entity_relevance_scores : gmap Z (list Q))
                         (num_valid_articles : nat)
                         (row : Entities.EntityProfile) : GroupEntity :=
  let entity_id := Entities.entity_id row in
  let relevances := default [] (entity_relevance_scores !! entity_id) in
  let avg_relevance :=
    if nonempty relevances then sum relevances / of_nat (length relevances)
    else 0.0 in
  let frequency :=
    of_nat (default 0%nat (entity_counts !! entity_id))
    / of_nat num_valid_articles in
  mkGroupEntity entity_id (Entities.entity_name row)
                (Entities.entity_type row) (Some frequency)
                (Some avg_relevance).

Definition counted (num_valid_articles : nat) (item : string * nat) : Counted :=
  mkCounted (fst item) (Some (of_nat (snd item) / of_nat num_valid_articles)).

(** [sorted(.., key=lambda x: (x["frequency"], x["avg_relevance"]),
    reverse=True)]: tuples compare by their first components unless these
    are equal. *)
Definition pair_ltb (x y : Q * Q) : bool :=
  if Qeq_bool (fst x) (fst y) then Qltb (snd x) (snd y)
  else Qltb (fst x) (fst y).

Section SortedBy.
Context {A : Type} (key : A -> Q * Q).

Fixpoint insert_desc_by (x : A) (l : list A) : list A :=
  match l with
  | [] => [x]
  | y :: t => if pair_ltb (key y) (key x) then x :: y :: t
              else y :: insert_desc_by x t
  end.

Definition sorted_desc_by (l : list A) : list A :=
  fold_left (fun acc x => insert_desc_by x acc) l [].
End SortedBy.

(** [sorted(list(all_sources))]: ascending in the order of strings. *)
Fixpoint insert_sorted (s : string) (l : list string) : list string :=
  match l with
  | [] => [s]
  | x :: t => if String.ltb s x then s :: x :: t else x :: insert_sorted s t
  end.

Definition sorted (l : list string) : list string :=
  fold_left (fun acc s => insert_sorted s acc) l [].

(** [generate_article_signature] answers [None] when it raises or returns
    an empty dictionary; [entity_profiles] is the table the entity details
    are selected from, [db_error] tells that this SELECT failed. *)
Definition generate_group_signature
  (generate_article_signature : Z -> option ArticleSignature)
  (entity_profiles : list Entities.EntityProfile) (db_error : bool)
  (group : Grouping.GroupDict) : GroupSignature :=
  let group_signature :=
    mkGroupSignature (Grouping.gd_group_id group)
                     (Grouping.gd_group_label group)
                     (Grouping.gd_description group)
                     (Grouping.gd_main_topic group)
                     [] [] [] [] None [] in
  if negb (nonempty (Grouping.article_ids group)) then group_signature
  else
    let article_signatures :=
      omap generate_article_signature (Grouping.article_ids group) in
    if negb (nonempty article_signatures) then group_signature
    else
      let entities := flat_map primary_entities article_signatures in
      let all_entity_ids : gset Z := list_to_set (map ae_entity_id entities) in
      let entity_counts := fold_left count_entity entities ∅ in
      let entity_relevance_scores := fold_left note_relevance entities ∅ in
      let company_counts := count_all (flat_map companies article_signatures) in
      let cve_counts := count_all (flat_map cves article_signatures) in
      let event_counts :=
        count_all (flat_map (fun sig => List.filter truthy (events sig))
                            article_signatures) in
      let latest_published_date := fold_left later article_signatures None in
      let all_sources : gset string :=
        list_to_set (List.filter truthy (map source article_signatures)) in
      let num_valid_articles := length article_signatures in
      let final_entity_details :=
        if db_error then []
        else map (entity_detail entity_counts entity_relevance_scores
                                num_valid_articles)
                 (List.filter (fun row => bool_decide
                                 (Entities.entity_id row ∈ all_entity_ids))
                              entity_profiles) in
      mkGroupSignature
        (Grouping.gd_group_id group) (Grouping.gd_group_label group)
        (Grouping.gd_description group) (Grouping.gd_main_topic group)
        (sorted_desc_by (fun x => (default 0 (ge_frequency x),
                                   default 0 (ge_avg_relevance x)))
                        final_entity_details)
        (sorted_desc (fun x => default 0 (c_frequency x))
                     (map (counted num_valid_articles) company_counts))
        (sorted_desc (fun x => default 0 (c_frequency x))
                     (map (counted num_valid_articles) cve_counts))
        (sorted_desc (fun x => default 0 (c_frequency x))
                     (map (counted num_valid_articles) event_counts))
        latest_published_date
        (sorted (elements all_sources)).

(** Counting by hand, to state what the dictionaries hold. *)
Definition occurrences (k : string) (names : list string) : nat :=
  length (List.filter (String.eqb k) names).

Definition mentions (id : Z) (es : list ArticleEntity) : nat :=
  length (List.filter (fun e => (ae_entity_id e =? id)%Z) es).

(** What the tables guarantee for an article signature: one entry per
    entity (the key of [article_entities]) with a relevance in the unit
    interval, and no event name twice. *)
Definition article_ok (sig : ArticleSignature) : Prop :=
  List.NoDup (map ae_entity_id (primary_entities sig))
  /\ Stated.relevances_in_range sig
  /\ List.NoDup (List.filter truthy (events sig)).

(** A member article that yields a signature with a company or a CVE. *)
Definition mentions_company_or_cve
  (generate_article_signature : Z -> option ArticleSignature)
  (group : Grouping.GroupDict) : Prop :=
  exists id sig,
    In id (Grouping.article_ids group)
    /\ generate_article_signature id = Some sig
    /\ (companies sig <> [] \/ cves sig <> []).

(** A group of two articles of which the second has no signature. *)
Definition sample_signature_of (id : Z) : option ArticleSignature :=
  if (id =? 1)%Z then Some Scenario.acme_article else None.

Definition sample_group : Grouping.GroupDict :=
  Grouping.mkGroupDict 7 "Cybersecurity & Data Privacy"
    "CVE-2024-1234 exploit activity" "Exploitation" [1; 2]%Z.
End GroupSig.

(** ** Primary entities of an article ([get_primary_entities],
       [article_signature.py]) *)

Module ArticleSig.
Local Open Scope Q_scope.

(** [ae.relevance_score >= ?]: a NULL relevance satisfies no comparison. *)
Definition relevant (min_relevance : Q) (row : Links.ArticleEntityRow) : bool :=
  match Links.ae_relevance_score row with
  | Some r => Py.Qleb min_relevance r
  | None => false
  end.

(** The rows of [article_entities JOIN entity_profiles] for one link. *)
Definition joined_with (entity_profiles : list Entities.EntityProfile)
                       (row : Links.ArticleEntityRow)
  : list Scorer.ArticleEntity :=
  map (fun e => Scorer.mkArticleEntity
                  (Entities.entity_id e) (Entities.entity_name e)
                  (Entities.entity_type e) (Links.ae_relevance_score row))
      (List.filter (fun e => (Entities.entity_id e =? Links.ae_entity_id row)%Z)
                   entity_profiles).

(** [SELECT e.entity_id, e.entity_name, e.entity_type, ae.relevance_score
    FROM article_entities ae JOIN entity_profiles e
    ON ae.entity_id = e.entity_id
    WHERE ae.article_id = ? AND ae.relevance_score >= ?
    ORDER BY ae.relevance_score DESC]; rows of equal relevance are kept in
    the order of the scan. *)
Definition get_primary_entities
  (article_id : Z) (min_relevance : Q)
  (article_entities : list Links.ArticleEntityRow)
  (entity_profiles : list Entities.EntityProfile)
  : list Scorer.ArticleEntity :=
  Py.sorted_desc
    (fun e => default 0 (Scorer.ae_relevance_score e))
    (flat_map
       (fun row =>
          if (Links.ae_article_id row =? article_id)%Z
             && relevant min_relevance row
          then joined_with entity_profiles row
          else [])
       article_entities).

(** Links to the two profiles of [Scenario.entity_db]: article 10 names
    both of them, article 11 names them with a low and with no relevance. *)
Definition sample_article_entities : list Links.ArticleEntityRow :=
  [Links.mkArticleEntityRow 10 1 (Some 0.75) (Some "OpenAI said"%string);
   Links.mkArticleEntityRow 10 2 (Some 0.9) None;
   Links.mkArticleEntityRow 11 1 (Some 0.3) None;
   Links.mkArticleEntityRow 11 2 None None].
End ArticleSig.

(** ** Processing one article ([process_single_ungrouped_article],
       [analysis/two_phase_grouping.py]) *)

Module Processing.
Import Grouping.
Local Open Scope Q_scope.

(** An entry of [existing_groups_with_signatures].  [GroupDict] writes a
    description that is [None] as the empty string; the flag tells the two
    apart, as slicing the description does. *)
Record Existing := mkExisting {
  group_dict : GroupDict;
  description_is_none : bool;
  group_sig : Scorer.GroupSignature
}.

Definition as_pair (e : Existing) : GroupDict * Scorer.GroupSignature :=
  (group_dict e, group_sig e).

(** [details['description'][:500]] for the details that
    [_get_group_details_for_prompt] finds for a candidate id: the first
    entry with that id. *)
Definition details_description_is_none (existing : list Existing) (gid : Z)
  : bool :=
  match List.find (fun e => (gd_group_id (group_dict e) =? gid)%Z) existing with
  | Some e => description_is_none e
  | None => false
  end.

(** [group_scores], each entry with the flag of its group, after the
    sort. *)
Definition ranked_with_flags (article_sig : Scorer.ArticleSignature)
                             (existing : list Existing) (rules : Rules)
  : list (GroupScore * bool) :=
  Py.sorted_desc
    (fun g : GroupScore * bool => score (fst g))
    (flat_map (fun e => map (fun g => (g, description_is_none e))
                            (group_scores_of article_sig [as_pair e] rules))
              existing).

(** [near_miss_groups]: label, description and score of
    [group_scores[:2]]. *)
Definition near_miss_groups (article_sig : Scorer.ArticleSignature)
                            (existing : list Existing) (rules : Rules)
  : list NewGroup.NearMiss :=
  map (fun g : GroupScore * bool =>
         NewGroup.mkNearMiss
                  (gs_group_label (fst g))
                  (if snd g then NewGroup.JNull
                   else NewGroup.JStr (gs_description (fst g)))
                  (score (fst g)))
      (take 2 (ranked_with_flags article_sig existing rules)).

Inductive Status :=
| added_to_existing (group_id : Z)
| created_new (new_group_info : NewGroup.NewGroupDict)
| error.

(** [article_sig] is the result of [generate_article_signature], [None]
    when it is empty or the call raised; [call_gpt_api] answers the
    arbitration prompt, [response] and [json_loads] belong to the prompt
    for a new group.  Every exception is caught and reported as an
    error.  The result is the status and the database; the article id that
    the code appends to the caller's entry of the group is not part of
    it. *)
Definition process_single_ungrouped_article
  (article_id : Z) (article_title : string)
  (article_sig : option Scorer.ArticleSignature)
  (existing : list Existing) (rules : Rules)
  (call_gpt_api : list GroupScore -> LlmAnswer)
  (response : option string) (json_loads : string -> NewGroup.Parsed)
  (db : NewGroup.Db) : Status * NewGroup.Db :=
  match article_sig with
  | None => (error, db)
  | Some sig =>
      let pairs := map as_pair existing in
      let decided := decide_group call_gpt_api sig pairs rules in
      let candidate_group_ids :=
        map gs_group_id (take 3 (Arbitration.ranked sig pairs rules)) in
      if snd decided
         && existsb (details_description_is_none existing) candidate_group_ids
      then (error, db)
      else
        match fst decided with
        | add_to_existing final_group_id =>
            let added :=
              Store.add_article_to_group
                false article_id final_group_id
                (Store.mkCursor (NewGroup.memberships db) []) in
            if fst added
            then (added_to_existing final_group_id,
                  NewGroup.mkDb (NewGroup.two_phase_article_groups db)
                                (NewGroup.sqlite_sequence db)
                                (Store.table (snd added)))
            else (error, db)
        | create_new =>
            let created :=
              NewGroup.create_new_group_for_single_article
                article_id article_title
                (near_miss_groups sig existing rules)
                response json_loads db in
            match fst created with
            | NewGroup.Returned (Some new_group_info) =>
                (created_new new_group_info, snd created)
            | _ => (error, snd created)
            end
        end
  end.

Definition sample_existing : list Existing :=
  [mkExisting (mkGroupDict 1 "Other" "Old story" "" [10; 11]%Z) true
              GroupSimilarity.launch_a].
End Processing.

(* ===================================================================== *)
(** * Part II: properties                                                 *)
(* ===================================================================== *)

(** ** The embedding on small inputs *)

Section Examples.
Local Open Scope Q_scope.

(** A descending sort keeps the original order among equal keys. *)
Example sorted_desc_stable :
  Py.sorted_desc snd [("a", 0.5); ("b", 0.9); ("c", 0.5); ("d", 0.9)]%string
  = [("b", 0.9); ("d", 0.9); ("a", 0.5); ("c", 0.5)]%string.
Proof. reflexivity. Qed.

(** Assigning to a key that is present keeps its position. *)
Example dict_set_overwrites :
  Py.dict_set "x" 3%Z (Py.dict_set "y" 2%Z (Py.dict_set "x" 1%Z []))
  = [("x"%string, 3%Z); ("y"%string, 2%Z)].
Proof. reflexivity. Qed.

(** The article and the group of the CVE scenario: one of two weighted
    entities shared, one company of two, the CVE, one event of two by
    weight, and six hours between the publication dates. *)
Example acme_scores :
  let s := Scorer.calculate_article_to_group_similarity
             Scenario.acme_article Scenario.acme_group in
  Scorer.entity_similarity s == 3 # 5
  /\ Scorer.company_similarity s == 1 # 2
  /\ Scorer.cve_similarity s == 1
  /\ Scorer.event_similarity s == 2 # 3
  /\ Scorer._temporal_adjustment s == 0.04375
  /\ Scorer._source_bonus s == 0.03
  /\ Scorer._core_entity_bonus s == 0.20
  /\ Scorer.composite_score s == 2053 # 2400.
Proof. repeat split. Qed.

Example size_buckets :
  map (fun n => Grouping.find_adj_index n [1; 5; 10]%nat 0 0)
      [0; 1; 2; 5; 6; 10; 11]%nat
  = [0; 0; 1; 1; 2; 2; 3]%nat.
Proof. reflexivity. Qed.

(** A move: the old row goes before the new one comes. *)
Example move_article :
  Store.add_article_to_group true 10 2 (Store.mkCursor [(10, 1); (11, 1)]%Z [])
  = (true,
     Store.mkCursor [(11, 1); (10, 2)]%Z
       [(Store.SELECT_group_id 10, [(10, 1); (11, 1)]);
        (Store.DELETE_memberships 10, [(11, 1)]);
        (Store.INSERT_membership 10 2, [(11, 1); (10, 2)])]%Z).
Proof. reflexivity. Qed.

(** A new entity takes the next id; a NULL name is refused. *)
Example insert_new_entity :
  fst (Entities.insert_entity (Some "Acme Corp"%string)
         (Some "organization"%string) None 3000 Scenario.entity_db)
  = Some 3%Z
  /\ Entities.insert_entity None (Some "organization"%string) None 3000
                            Scenario.entity_db
     = (None, Scenario.entity_db).
Proof. split; reflexivity. Qed.
End Examples.

(** ** Comparisons and clamps *)

Section Comparisons.
Local Open Scope Q_scope.

Lemma Qleb_cases (x y : Q) :
  (Py.Qleb x y = true /\ x <= y) \/ (Py.Qleb x y = false /\ y < x).
Proof.
  unfold Py.Qleb. destruct (Qle_bool x y) eqn:E.
  - left. split; [reflexivity | now apply Qle_bool_iff].
  - right. split; [reflexivity |].
    apply Qnot_le_lt. intro H. apply Qle_bool_iff in H. congruence.
Qed.

Lemma Qltb_cases (x y : Q) :
  (Py.Qltb x y = true /\ x < y) \/ (Py.Qltb x y = false /\ y <= x).
Proof.
  unfold Py.Qltb. destruct (Qleb_cases y x) as [[E H] | [E H]];
    unfold Py.Qleb in E; rewrite E; simpl; auto.
Qed.

Lemma py_min_Qmin (a b : Q) : Py.min a b == Qmin a b.
Proof.
  unfold Py.min. destruct (Qltb_cases b a) as [[E H] | [E H]]; rewrite E.
  - symmetry. apply Q.min_r. lra.
  - symmetry. apply Q.min_l. exact H.
Qed.

Lemma py_max_Qmax (a b : Q) : Py.max a b == Qmax a b.
Proof.
  unfold Py.max. destruct (Qltb_cases a b) as [[E H] | [E H]]; rewrite E.
  - symmetry. apply Q.max_r. lra.
  - symmetry. apply Q.max_l. exact H.
Qed.

Lemma py_clamp_bounds (lo hi x : Q) :
  lo <= hi -> lo <= Py.max lo (Py.min hi x) <= hi.
Proof.
  intros Hlh. unfold Py.max, Py.min.
  destruct (Qltb_cases x hi) as [[E1 H1] | [E1 H1]]; rewrite E1;
    match goal with
    | |- context [Py.Qltb ?a ?b] =>
        destruct (Qltb_cases a b) as [[E2 H2] | [E2 H2]]; rewrite E2
    end; lra.
Qed.
End Comparisons.

(** Case analysis on the first comparison of the goal. *)
Ltac qcase :=
  match goal with
  | |- context [Py.Qleb ?a ?b] =>
      let E := fresh "E" in let H := fresh "H" in
      destruct (Qleb_cases a b) as [[E H] | [E H]]; rewrite E
  | |- context [Py.Qltb ?a ?b] =>
      let E := fresh "E" in let H := fresh "H" in
      destruct (Qltb_cases a b) as [[E H] | [E H]]; rewrite E
  end.

(** Division by the constants of the temporal rule is a multiplication. *)
Ltac qdiv_const :=
  unfold Qdiv in *;
  change (/ 3600)%Q with (1 # 3600)%Q in *;
  change (/ 48)%Q with (1 # 48)%Q in *;
  change (/ (7 * 24))%Q with (1 # 168)%Q in *.

(** ** Temporal adjustment *)

Section Temporal.
Local Open Scope Q_scope.
Import Scorer.

Lemma hours_diff_nonneg (ad gd : Q) : 0 <= hours_diff ad gd.
Proof.
  unfold hours_diff. pose proof (Qabs_nonneg (ad - gd)). qdiv_const. lra.
Qed.

Lemma temporal_adjustment_bound (a : ArticleSignature) (g : GroupSignature) :
  Qabs (temporal_adjustment a g) <= 0.05.
Proof.
  unfold temporal_adjustment.
  destruct (published_date a) as [ad |];
    [destruct (latest_published_date g) as [gd |] |];
    try (apply Qabs_Qle_condition; lra).
  pose proof (hours_diff_nonneg ad gd) as Hh.
  cbv zeta. set (h := hours_diff ad gd) in *.
  apply Qabs_Qle_condition.
  qcase.
  - qdiv_const. lra.
  - qcase; [| lra].
    unfold Py.min. qcase; qdiv_const; lra.
Qed.

(** C6.  With dh the distance in hours between the article's publication
    instant and the group's latest one, the temporal adjustment is
    0.05 * (1 - dh/48) when dh <= 48, -0.03 * min(dh/168 - 1, 1) when
    dh > 168, and 0 in between; its absolute value never exceeds 0.05,
    whatever the inputs (dates present or not). *)
Theorem temporal_adjustment_formula :
  (forall (a : ArticleSignature) (g : GroupSignature) (ad gd : Q),
      published_date a = Some ad ->
      latest_published_date g = Some gd ->
      let dh := Qabs (ad - gd) / 3600 in
      (dh <= 48 -> temporal_adjustment a g == 0.05 * (1 - dh / 48)) /\
      (168 < dh ->
       temporal_adjustment a g == - 0.03 * Qmin (dh / 168 - 1) 1) /\
      (48 < dh -> dh <= 168 -> temporal_adjustment a g == 0)) /\
  (forall (a : ArticleSignature) (g : GroupSignature),
      Qabs (temporal_adjustment a g) <= 0.05).
Proof.
  split; [| exact temporal_adjustment_bound].
  intros a g ad gd Ha Hg dh.
  unfold temporal_adjustment. rewrite Ha, Hg. cbv zeta.
  change (hours_diff ad gd) with dh.
  repeat split.
  - intros Hle. qcase; [| lra]. qdiv_const. lra.
  - intros Hgt. qcase; [lra |]. qcase; [| lra].
    rewrite py_min_Qmin.
    change (7 * 24) with 168.
    ring.
  - intros H1 H2. qcase; [lra |]. qcase; [lra | reflexivity].
Qed.

(** An article published six hours after the group's latest member. *)
Lemma temporal_adjustment_formula_witness :
  temporal_adjustment
    (mkArticleSignature 1 (Some 21600) "bleepingcomputer" [] [] [] [])
    (mkGroupSignature 1 "" "" "" [] [] [] [] (Some 0) [])
  == 0.05 * (1 - (Qabs (21600 - 0) / 3600) / 48).
Proof.
  apply (proj1 temporal_adjustment_formula
           (mkArticleSignature 1 (Some 21600) "bleepingcomputer" [] [] [] [])
           (mkGroupSignature 1 "" "" "" [] [] [] [] (Some 0) [])
           21600 0 eq_refl eq_refl).
  vm_compute. discriminate.
Defined.
End Temporal.

(** ** Dynamic threshold *)

Section Threshold.
Local Open Scope Q_scope.
Import Grouping.

(** The index chosen for the default breakpoints, by size bucket. *)
Lemma find_adj_index_default (n : nat) :
  find_adj_index n [1; 5; 10]%nat 0 0
  = if (n <=? 1)%nat then 0%nat
    else if (n <=? 5)%nat then 1%nat
    else if (n <=? 10)%nat then 2%nat else 3%nat.
Proof.
  cbn [find_adj_index].
  destruct (Nat.ltb_spec 1 n), (Nat.ltb_spec 5 n), (Nat.ltb_spec 10 n),
           (Nat.leb_spec n 1), (Nat.leb_spec n 5), (Nat.leb_spec n 10);
    try reflexivity; lia.
Qed.

(** The index never leaves the adjustment list when the list is one longer
    than the breakpoint list, so [adjustments[adj_index]] cannot raise. *)
Lemma find_adj_index_le (n : nat) (bps : list nat) (i adj : nat) :
  (adj <= i)%nat -> (find_adj_index n bps i adj <= i + length bps)%nat.
Proof.
  revert i adj.
  induction bps as [| bp rest IH]; intros i adj Hle;
    cbn [find_adj_index length].
  - lia.
  - destruct (bp <? n)%nat.
    + specialize (IH (S i) (S i) (le_n _)). lia.
    + lia.
Qed.

Lemma size_adjustment_default (n : nat) :
  nth (find_adj_index n [1; 5; 10]%nat 0 0) [0.05; 0.0; - 0.03; - 0.05] 0
  = Stated.size_offset n.
Proof.
  rewrite find_adj_index_default. unfold Stated.size_offset.
  destruct (n <=? 1)%nat, (n <=? 5)%nat, (n <=? 10)%nat; reflexivity.
Qed.

Lemma category_adjustment_default (category : string) :
  Py.truthy category = true ->
  default 0.0
    (Py.dict_get category
       [("Cybersecurity & Data Privacy"%string, 0.05);
        ("Artificial Intelligence & Machine Learning"%string, 0.03);
        ("Other"%string, - 0.03)])
  = Stated.category_offset category.
Proof.
  intros _. unfold Stated.category_offset. cbn [Py.dict_get].
  rewrite (String.eqb_sym _ category).
  destruct (String.eqb category "Cybersecurity & Data Privacy");
    [reflexivity |].
  rewrite (String.eqb_sym _ category).
  destruct (String.eqb category "Artificial Intelligence & Machine Learning");
    [reflexivity |].
  rewrite (String.eqb_sym _ category).
  destruct (String.eqb category "Other"); reflexivity.
Qed.

Lemma category_offset_falsy (category : string) :
  Py.truthy category = false -> Stated.category_offset category = 0.0.
Proof.
  unfold Py.truthy. intros H. apply negb_false_iff, String.eqb_eq in H.
  subst category. reflexivity.
Qed.

Lemma default_rules_threshold (group_dict : GroupDict) (base_threshold : Q) :
  _calculate_dynamic_threshold group_dict base_threshold
                               DYNAMIC_THRESHOLD_RULES
  == Stated.clamp 0.1 0.9
       (base_threshold
        + Stated.category_offset (gd_main_topic group_dict)
        + Stated.size_offset (length (article_ids group_dict))).
Proof.
  unfold _calculate_dynamic_threshold, Stated.clamp.
  cbn [DYNAMIC_THRESHOLD_RULES category_adjust size_adjust
       breakpoints adjustments length Nat.add Nat.eqb].
  rewrite size_adjustment_default.
  rewrite py_max_Qmax, py_min_Qmin.
  destruct (Py.truthy (gd_main_topic group_dict)) eqn:Ht.
  - rewrite (category_adjustment_default _ Ht). reflexivity.
  - rewrite (category_offset_falsy _ Ht).
    apply Q.max_compat; [reflexivity |].
    apply Q.min_compat; [reflexivity |]. ring.
Qed.

Lemma category_offset_lower (category : string) :
  - 0.03 <= Stated.category_offset category.
Proof.
  unfold Stated.category_offset.
  repeat match goal with
         | |- context [String.eqb ?a ?b] => destruct (String.eqb a b)
         end; lra.
Qed.

Lemma size_offset_lower (members : nat) :
  - 0.05 <= Stated.size_offset members.
Proof.
  unfold Stated.size_offset.
  destruct (members <=? 1)%nat, (members <=? 5)%nat, (members <=? 10)%nat;
    lra.
Qed.

(** With the default base of 0.40 no group's threshold is below 0.32. *)
Lemma default_threshold_lower (group_dict : GroupDict) :
  0.32 <= _calculate_dynamic_threshold group_dict 0.40
                                       DYNAMIC_THRESHOLD_RULES.
Proof.
  rewrite default_rules_threshold. unfold Stated.clamp.
  pose proof (category_offset_lower (gd_main_topic group_dict)) as Hc.
  pose proof (size_offset_lower (length (article_ids group_dict))) as Hs.
  apply Qle_trans with (Qmin 0.9
    (0.40 + Stated.category_offset (gd_main_topic group_dict)
     + Stated.size_offset (length (article_ids group_dict))));
    [| apply Q.le_max_r].
  apply Q.min_glb; lra.
Qed.

(** C7.  Under the default rules the dynamic threshold of a group is the
    base threshold plus the category offset (+0.05 cybersecurity, +0.03
    AI/ML, -0.03 Other, 0 otherwise) plus the size-bucket offset (+0.05 up
    to one member, 0 for 2-5, -0.03 for 6-10, -0.05 above 10), clamped to
    [0.10, 0.90]. *)
Theorem dynamic_threshold_default_rules
  (group_dict : GroupDict) (base_threshold : Q) :
  _calculate_dynamic_threshold group_dict base_threshold
                               DYNAMIC_THRESHOLD_RULES
  == Stated.clamp 0.1 0.9
       (base_threshold
        + Stated.category_offset (gd_main_topic group_dict)
        + Stated.size_offset (length (article_ids group_dict)))
  /\ base DYNAMIC_THRESHOLD_RULES = Some 0.40.
Proof.
  split; [apply default_rules_threshold | reflexivity].
Qed.
End Threshold.

(** ** Token estimate *)

Section Tokens.
Import Utils.

Lemma int_times_1_3 (n : nat) :
  Py.int (Py.of_nat n * 1.3)%Q = (13 * Z.of_nat n / 10)%Z.
Proof.
  unfold Py.int, Py.of_nat. cbn [Qmult Qnum Qden inject_Z].
  change (Z.pos (1 * 10)) with 10%Z.
  rewrite Z.quot_div_nonneg by lia. f_equal. lia.
Qed.

Lemma round_floor_or_next (x : Q) :
  round x = Qfloor x \/ round x = (Qfloor x + 1)%Z.
Proof.
  unfold round.
  destruct (Py.Qltb (x - inject_Z (Qfloor x)) (1 # 2)); [now left |].
  destruct (Py.Qltb (1 # 2) (x - inject_Z (Qfloor x))); [now right |].
  destruct (Z.even (Qfloor x)); [now left | now right].
Qed.

Lemma floor_times_1_3 (n : nat) :
  Qfloor (Py.of_nat n * 1.3)%Q = (13 * Z.of_nat n / 10)%Z.
Proof.
  unfold Py.of_nat. cbn [Qmult Qnum Qden inject_Z Qfloor].
  change (Z.pos (1 * 10)) with 10%Z. f_equal. lia.
Qed.

Example split_runs :
  split (" hello   brave" ++ String "010" "new world ")%string
  = ["hello"; "brave"; "new"; "world"]%string.
Proof. reflexivity. Qed.

(** C9, as the code has it.  The estimate is the word count times 1.3
    truncated to an integer, that is floor(13 * word_count / 10); it is
    the rounded product or one less, never more. *)
Theorem approximate_tokens_truncates (text : string) :
  approximate_tokens text
  = (13 * Z.of_nat (length (split text)) / 10)%Z
  /\ (approximate_tokens text <= rounded_estimate text
      <= approximate_tokens text + 1)%Z.
Proof.
  unfold approximate_tokens, rounded_estimate.
  rewrite int_times_1_3. split; [reflexivity |].
  destruct (round_floor_or_next (Py.of_nat (length (split text)) * 1.3)%Q)
    as [H | H]; rewrite H, floor_times_1_3; lia.
Qed.

(** C9 as stated fails: two words give 2, while round(2 * 1.3) = 3. *)
Lemma approximate_tokens_not_rounded :
  length (split "a b") = 2%nat
  /\ approximate_tokens "a b" = 2%Z
  /\ round (Py.of_nat 2 * 1.3)%Q = 3%Z
  /\ approximate_tokens "a b" <> rounded_estimate "a b".
Proof. repeat split. vm_compute. discriminate. Qed.
End Tokens.

(** ** Ranges of the similarity scores *)

Section Ranges.
Local Open Scope Q_scope.
Import Scorer Stated.

Lemma ratio_in_unit_interval (s m : Q) :
  0 <= s -> s <= m -> 0 < m -> unit_interval (s / m).
Proof.
  intros H0 Hle Hm. split.
  - apply Qle_shift_div_l; [exact Hm | lra].
  - apply Qle_shift_div_r; [exact Hm | lra].
Qed.

Lemma guarded_ratio_in_unit_interval (r : Q * Q) :
  0 <= fst r -> fst r <= snd r ->
  unit_interval (if Py.Qltb 0 (snd r) then fst r / snd r else 0).
Proof.
  intros H0 Hle. qcase.
  - now apply ratio_in_unit_interval.
  - split; lra.
Qed.

Lemma default_in_range (d : Q) (o : option Q) :
  unit_interval d -> in_range o -> unit_interval (default d o).
Proof. destruct o; simpl; auto. Qed.

(** *** Entity dimension *)

Lemma insert_all_in_range (es : list ArticleEntity) (d : gmap Z Q) :
  Forall (fun e => in_range (ae_relevance_score e)) es ->
  (forall k v, d !! k = Some v -> unit_interval v) ->
  forall k v,
    fold_left
      (fun d e => <[ae_entity_id e := default 0.7 (ae_relevance_score e)]> d)
      es d !! k = Some v ->
    unit_interval v.
Proof.
  intros Hes. revert d.
  induction Hes as [| e es He Hes IH]; intros d Hd k v; cbn [fold_left].
  - apply Hd.
  - apply IH. intros k' v' Hk'.
    apply lookup_insert_Some in Hk' as [[_ <-] | [_ Hk']].
    + apply default_in_range; [split; lra | exact He].
    + exact (Hd _ _ Hk').
Qed.

Lemma article_entities_dict_in_range (a : ArticleSignature) :
  relevances_in_range a ->
  forall k v, article_entities_dict (primary_entities a) !! k = Some v ->
              unit_interval v.
Proof.
  intros Ha. apply insert_all_in_range; [exact Ha |].
  intros k v Hk. rewrite lookup_empty in Hk. discriminate.
Qed.

Lemma entity_step_invariant (d : gmap Z Q) (acc : Q * Q) (ge : GroupEntity) :
  (forall k v, d !! k = Some v -> unit_interval v) ->
  in_range (ge_frequency ge) -> in_range (ge_avg_relevance ge) ->
  0 <= fst acc -> fst acc <= snd acc ->
  0 <= fst (entity_step d acc ge)
  /\ fst (entity_step d acc ge) <= snd (entity_step d acc ge).
Proof.
  intros Hd Hf Hr H0 Hle. unfold entity_step.
  assert (Hr' : unit_interval (default 0.7 (ge_avg_relevance ge)))
    by (apply default_in_range; [split; lra | exact Hr]).
  assert (Hf' : unit_interval (default 0 (ge_frequency ge)))
    by (apply default_in_range; [split; lra | exact Hf]).
  set (r := default 0.7 (ge_avg_relevance ge)) in *.
  set (f := default 0 (ge_frequency ge)) in *.
  destruct Hr' as [Hr0 Hr1], Hf' as [Hf0 Hf1].
  assert (Hfr : 0 <= f * r) by (apply Qmult_le_0_compat; assumption).
  destruct (d !! ge_entity_id ge) as [ar |] eqn:Hlook; cbn [fst snd].
  - destruct (Hd _ _ Hlook) as [Ha0 Ha1].
    assert (Hprod : 0 <= ar * (f * r))
      by (apply Qmult_le_0_compat; assumption).
    assert (Hgap : 0 <= (1 - ar) * (f * r))
      by (apply Qmult_le_0_compat; [lra | assumption]).
    split; lra.
  - split; lra.
Qed.

Lemma entity_fold_invariant (d : gmap Z Q) (ges : list GroupEntity) :
  (forall k v, d !! k = Some v -> unit_interval v) ->
  Forall (fun e => in_range (ge_frequency e)
                   /\ in_range (ge_avg_relevance e)) ges ->
  forall acc : Q * Q,
    0 <= fst acc -> fst acc <= snd acc ->
    0 <= fst (fold_left (entity_step d) ges acc)
    /\ fst (fold_left (entity_step d) ges acc)
       <= snd (fold_left (entity_step d) ges acc).
Proof.
  intros Hd Hges.
  induction Hges as [| ge ges [Hf Hr] _ IH]; intros acc H0 Hle;
    cbn [fold_left].
  - split; assumption.
  - destruct (entity_step_invariant d acc ge Hd Hf Hr H0 Hle) as [H0' Hle'].
    now apply IH.
Qed.

Lemma entity_similarity_in_range (a : ArticleSignature) (g : GroupSignature) :
  relevances_in_range a -> entities_in_range g ->
  unit_interval (calc_entity_similarity a g).
Proof.
  intros Ha Hg. unfold calc_entity_similarity. cbv zeta.
  destruct (negb _ && Py.nonempty _); [| split; lra].
  destruct (entity_fold_invariant _ _
              (article_entities_dict_in_range a Ha) Hg (0, 0))
    as [H0 Hle]; cbn [fst snd]; try lra.
  now apply guarded_ratio_in_unit_interval.
Qed.
(** *** Company and CVE dimensions *)

Lemma of_nat_le (i u : nat) : (i <= u)%nat -> Py.of_nat i <= Py.of_nat u.
Proof. intros H. unfold Py.of_nat. rewrite <- Zle_Qle. lia. Qed.

Lemma of_nat_pos (u : nat) : (0 < u)%nat -> 0 < Py.of_nat u.
Proof.
  intros H. unfold Py.of_nat. change 0 with (inject_Z 0).
  rewrite <- Zlt_Qlt. lia.
Qed.

Lemma jaccard_in_range (art : list string) (grp : list Counted) :
  unit_interval (jaccard art grp).
Proof.
  unfold jaccard. cbv zeta.
  destruct (negb _ && negb _); [| split; lra].
  destruct (Nat.ltb_spec 0
              (size (list_to_set art ∪ truthy_names grp : gset string)))
    as [Hpos | _]; [| split; lra].
  apply ratio_in_unit_interval.
  - change 0 with (Py.of_nat 0). apply of_nat_le. lia.
  - apply of_nat_le, subseteq_size.
    etrans; [apply intersection_subseteq_l | apply union_subseteq_l].
  - now apply of_nat_pos.
Qed.

(** *** Event dimension *)

Lemma dict_set_values (P : Q -> Prop) (k : string) (v : Q)
                      (d : list (string * Q)) :
  P v -> Forall (fun kv => P (snd kv)) d ->
  Forall (fun kv => P (snd kv)) (Py.dict_set k v d).
Proof.
  intros Hv Hd. induction Hd as [| [k' v'] d Hkv Hd IH]; cbn [Py.dict_set].
  - repeat constructor. exact Hv.
  - destruct (String.eqb k' k); constructor; auto.
Qed.

Lemma group_event_dict_in_range (l : list Counted)
                                (d : list (string * Q)) :
  Forall (fun e => in_range (c_frequency e)) l ->
  Forall (fun kv => unit_interval (snd kv)) d ->
  Forall (fun kv => unit_interval (snd kv))
    (fold_left
       (fun d e => if Py.truthy (c_name e)
                   then Py.dict_set (c_name e) (default 0 (c_frequency e)) d
                   else d)
       l d).
Proof.
  intros Hl. revert d.
  induction Hl as [| e l He _ IH]; intros d Hd; cbn [fold_left].
  - exact Hd.
  - apply IH. destruct (Py.truthy (c_name e)); [| exact Hd].
    apply dict_set_values; [| exact Hd].
    apply default_in_range; [split; lra | exact He].
Qed.

Lemma event_fold_invariant (names : gset string) (d : list (string * Q)) :
  Forall (fun kv => unit_interval (snd kv)) d ->
  forall acc : Q * Q,
    0 <= fst acc -> fst acc <= snd acc ->
    0 <= fst (fold_left (event_step names) d acc)
    /\ fst (fold_left (event_step names) d acc)
       <= snd (fold_left (event_step names) d acc).
Proof.
  intros Hd.
  induction Hd as [| kv d [Hkv0 _] _ IH]; intros acc H0 Hle;
    cbn [fold_left].
  - split; assumption.
  - apply IH; unfold event_step;
      destruct (bool_decide (fst kv ∈ names)); cbn [fst snd]; lra.
Qed.

Lemma event_similarity_in_range (a : ArticleSignature) (g : GroupSignature) :
  events_in_range g -> unit_interval (calc_event_similarity a g).
Proof.
  intros Hg. unfold calc_event_similarity. cbv zeta.
  destruct (negb _ && Py.nonempty _); [| split; lra].
  match goal with
  | |- context [fold_left (event_step ?names) ?d ?acc] =>
      destruct (event_fold_invariant names d
                  (group_event_dict_in_range _ [] Hg ltac:(constructor))
                  acc) as [H0 Hle]; cbn [fst snd]; try lra
  end.
  now apply guarded_ratio_in_unit_interval.
Qed.

(** C3.  When the article's relevance scores, the group's entity
    frequencies and average relevances and the group's event frequencies
    lie in [0,1], the entity, company, CVE and event similarities returned
    by the scorer lie in [0,1], and so does the composite score. *)
Theorem similarity_scores_in_unit_interval
  (a : ArticleSignature) (g : GroupSignature) :
  relevances_in_range a -> entities_in_range g -> events_in_range g ->
  let s := calculate_article_to_group_similarity a g in
  unit_interval (entity_similarity s)
  /\ unit_interval (company_similarity s)
  /\ unit_interval (cve_similarity s)
  /\ unit_interval (event_similarity s)
  /\ unit_interval (composite_score s).
Proof.
  intros Ha Hg He s. subst s.
  unfold calculate_article_to_group_similarity.
  cbn [entity_similarity company_similarity cve_similarity
       event_similarity composite_score].
  repeat split;
    try apply (entity_similarity_in_range a g Ha Hg);
    try apply jaccard_in_range;
    try apply (event_similarity_in_range a g He);
    apply py_clamp_bounds; lra.
Qed.

Lemma similarity_scores_in_unit_interval_witness :
  unit_interval
    (entity_similarity
       (calculate_article_to_group_similarity
          Scenario.acme_article Scenario.acme_group))
  /\ unit_interval
       (composite_score
          (calculate_article_to_group_similarity
             Scenario.acme_article Scenario.acme_group)).
Proof.
  assert (Ha : relevances_in_range Scenario.acme_article)
    by (repeat constructor; cbn; lra).
  assert (Hg : entities_in_range Scenario.acme_group)
    by (repeat constructor; cbn; lra).
  assert (He : events_in_range Scenario.acme_group)
    by (repeat constructor; cbn; lra).
  pose proof (similarity_scores_in_unit_interval
                Scenario.acme_article Scenario.acme_group Ha Hg He) as H.
  cbv zeta in H. exact (conj (proj1 H) (proj2 (proj2 (proj2 (proj2 H))))).
Defined.
End Ranges.

(** ** Articles without entities, companies or CVEs *)

Section EmptySignature.
Local Open Scope Q_scope.
Import Scorer Grouping Stated.

Lemma insert_desc_Forall {A} (key : A -> Q) (P : A -> Prop)
                         (x : A) (l : list A) :
  P x -> Forall P l -> Forall P (Py.insert_desc key x l).
Proof.
  intros Hx Hl. induction Hl as [| y l Hy Hl IH]; cbn [Py.insert_desc].
  - repeat constructor. exact Hx.
  - destruct (Py.Qltb (key y) (key x)); repeat constructor; auto.
Qed.

Lemma sorted_desc_Forall {A} (key : A -> Q) (P : A -> Prop) (l : list A) :
  Forall P l -> Forall P (Py.sorted_desc key l).
Proof.
  unfold Py.sorted_desc. intros Hl.
  assert (Hacc : Forall P (@nil A)) by constructor.
  revert Hacc. generalize (@nil A).
  induction Hl as [| x l Hx _ IH]; intros acc Hacc; cbn [fold_left].
  - exact Hacc.
  - apply IH. now apply insert_desc_Forall.
Qed.

Lemma source_bonus_bound (a : ArticleSignature) (g : GroupSignature) :
  0 <= source_bonus a g <= 0.03.
Proof. unfold source_bonus. destruct (_ && _); split; lra. Qed.

Lemma temporal_adjustment_upper (a : ArticleSignature) (g : GroupSignature) :
  temporal_adjustment a g <= 0.05.
Proof.
  pose proof (temporal_adjustment_bound a g) as H.
  apply Qabs_Qle_condition in H. lra.
Qed.

Section Scores.
Variables (a : ArticleSignature) (g : GroupSignature).
Hypothesis no_entities : primary_entities a = [].
Hypothesis no_companies : companies a = [].
Hypothesis no_cves : cves a = [].

Lemma empty_entity_similarity : calc_entity_similarity a g = 0.
Proof. unfold calc_entity_similarity. now rewrite no_entities. Qed.

Lemma empty_company_similarity : jaccard (companies a) (g_companies g) = 0.
Proof. now rewrite no_companies. Qed.

Lemma empty_cve_similarity : jaccard (cves a) (g_cves g) = 0.
Proof. now rewrite no_cves. Qed.

Lemma empty_core_entity_bonus : core_entity_bonus a g = 0.
Proof.
  unfold core_entity_bonus, top_article_entity. now rewrite no_entities.
Qed.

(** What is left of the composite: the event term and two adjustments. *)
Lemma empty_composite :
  composite_score (calculate_article_to_group_similarity a g)
  == clamp 0 1 (0.10 * calc_event_similarity a g
                + temporal_adjustment a g + source_bonus a g).
Proof.
  unfold calculate_article_to_group_similarity, clamp, base_composite.
  cbn [composite_score].
  rewrite empty_entity_similarity, empty_company_similarity,
    empty_cve_similarity, empty_core_entity_bonus.
  rewrite py_max_Qmax, py_min_Qmin.
  apply Q.max_compat; [reflexivity |].
  apply Q.min_compat; [reflexivity |]. ring.
Qed.

Lemma empty_composite_upper :
  events_in_range g ->
  composite_score (calculate_article_to_group_similarity a g) <= 0.18.
Proof.
  intros Hg. rewrite empty_composite. unfold clamp.
  destruct (event_similarity_in_range a g Hg) as [_ Hev].
  pose proof (temporal_adjustment_upper a g) as Ht.
  pose proof (source_bonus_bound a g) as [_ Hs].
  apply Q.max_lub; [lra |].
  eapply Qle_trans; [apply Q.le_min_r | lra].
Qed.
End Scores.

(** Scores that stay clear of every threshold and of its ambiguity zone
    lead to a new group, without consulting the language model. *)
Lemma decide_group_clearly_below
  (call_gpt_api : list GroupScore -> LlmAnswer)
  (a : ArticleSignature) (existing : list (GroupDict * GroupSignature))
  (rules : Rules) :
  Forall (fun gs => score gs
                    < dynamic_threshold gs - AMBIGUITY_ZONE_BELOW_THRESHOLD)
         (group_scores_of a existing rules) ->
  decide_group call_gpt_api a existing rules = (create_new, false).
Proof.
  intros Hall. unfold decide_group. cbv zeta.
  apply (sorted_desc_Forall score) in Hall.
  destruct (Py.sorted_desc score (group_scores_of a existing rules))
    as [| best others]; [reflexivity |].
  apply Forall_cons in Hall as [Hbest _].
  unfold AMBIGUITY_ZONE_BELOW_THRESHOLD in *.
  destruct (Qleb_cases (dynamic_threshold best) (score best))
    as [[_ H] | [E1 _]]; [lra |].
  destruct (Qleb_cases (dynamic_threshold best - 0.10) (score best))
    as [[_ H] | [E2 _]]; [lra |].
  rewrite E1, E2. reflexivity.
Qed.

Lemma empty_group_scores
  (a : ArticleSignature) (existing : list (GroupDict * GroupSignature)) :
  primary_entities a = [] -> companies a = [] -> cves a = [] ->
  Forall (fun gd => events_in_range (snd gd)) existing ->
  Forall (fun gs => score gs <= 0.18 /\ 0.32 <= dynamic_threshold gs)
         (group_scores_of a existing DYNAMIC_THRESHOLD_RULES).
Proof.
  intros He Hc Hv Hex. unfold group_scores_of. cbv zeta.
  induction Hex as [| gd existing Hgd _ IH]; cbn [flat_map].
  - constructor.
  - destruct (Py.nonempty (article_ids (fst gd))); [| exact IH].
    cbn [app]. constructor; [| exact IH].
    cbn [score dynamic_threshold]. split.
    + now apply empty_composite_upper.
    + apply default_threshold_lower.
Qed.

(** C2, as the code has it.  For an article without primary entities,
    companies and CVEs, the entity, company and CVE similarities and the
    core-entity bonus are 0 against any group, and the composite is the
    clamped sum of 0.10 times the event similarity, the temporal
    adjustment and the source bonus: at most 0.18 when the group's event
    frequencies lie in [0,1], and 0 when moreover the article names no
    event, has no date and comes from a source the group does not have.
    Under the default threshold rules, when the event frequencies of every
    existing group lie in [0,1], the decision is to create a new group,
    without consulting the language model.  Floats are read as exact
    rationals, so the bounds are those of exact arithmetic.  *)
Theorem empty_signature_scores_and_decision :
  (forall (a : ArticleSignature) (g : GroupSignature),
      primary_entities a = [] -> companies a = [] -> cves a = [] ->
      let s := calculate_article_to_group_similarity a g in
      entity_similarity s = 0
      /\ company_similarity s = 0
      /\ cve_similarity s = 0
      /\ _core_entity_bonus s = 0
      /\ composite_score s
         == clamp 0 1 (0.10 * event_similarity s
                       + _temporal_adjustment s + _source_bonus s)
      /\ (events_in_range g -> composite_score s <= 0.18)
      /\ (events a = [] -> published_date a = None ->
          source a ∉ member_sources g -> composite_score s == 0))
  /\
  (forall (call_gpt_api : list GroupScore -> LlmAnswer)
          (a : ArticleSignature)
          (existing : list (GroupDict * GroupSignature)),
      primary_entities a = [] -> companies a = [] -> cves a = [] ->
      Forall (fun gd => events_in_range (snd gd)) existing ->
      decide_group call_gpt_api a existing DYNAMIC_THRESHOLD_RULES
      = (create_new, false)).
Proof.
  split.
  - intros a g He Hc Hv s.
    pose proof (empty_composite a g He Hc Hv) as Hcomp.
    repeat split.
    + now apply empty_entity_similarity.
    + now apply empty_company_similarity.
    + now apply empty_cve_similarity.
    + now apply empty_core_entity_bonus.
    + exact Hcomp.
    + now apply empty_composite_upper.
    + intros Hev Hdate Hsrc. subst s. rewrite Hcomp.
      unfold calc_event_similarity, temporal_adjustment, source_bonus.
      rewrite Hev, Hdate.
      rewrite (bool_decide_eq_false_2 _ Hsrc), andb_false_r.
      reflexivity.
  - intros call_gpt_api a existing He Hc Hv Hex.
    apply decide_group_clearly_below.
    eapply Forall_impl; [exact (empty_group_scores a existing He Hc Hv Hex) |].
    intros gs [Hs Ht]. cbn beta. unfold AMBIGUITY_ZONE_BELOW_THRESHOLD. lra.
Qed.

Lemma empty_signature_scores_and_decision_witness :
  decide_group (fun _ => NoAnswer) Scenario.bare_article
               [(Scenario.acme_dict, Scenario.acme_group)]
               DYNAMIC_THRESHOLD_RULES
  = (create_new, false).
Proof.
  apply (proj2 empty_signature_scores_and_decision);
    try reflexivity.
  repeat constructor; cbn; lra.
Defined.

(** C2 as stated fails.  An article without entities, companies and CVEs
    still collects the source bonus, so its score is 0.03 and not 0; and
    with the event, the date and the source in common its score of 0.18
    attaches it to the group under rules whose base threshold is 0.10. *)
Lemma empty_signature_score_not_zero :
  (primary_entities Scenario.sourced_article = []
   /\ companies Scenario.sourced_article = []
   /\ cves Scenario.sourced_article = []
   /\ composite_score
        (calculate_article_to_group_similarity
           Scenario.sourced_article Scenario.acme_group) == 0.03
   /\ ~ composite_score
          (calculate_article_to_group_similarity
             Scenario.sourced_article Scenario.acme_group) == 0)
  /\
  (primary_entities Scenario.bare_article = []
   /\ companies Scenario.bare_article = []
   /\ cves Scenario.bare_article = []
   /\ composite_score
        (calculate_article_to_group_similarity
           Scenario.bare_article Scenario.acme_group) == 0.18
   /\ decide_group (fun _ => NoAnswer) Scenario.bare_article
                   [(Scenario.acme_dict, Scenario.acme_group)]
                   Scenario.low_rules
      = (add_to_existing 7, false)).
Proof.
  repeat split; try reflexivity; vm_compute; discriminate.
Qed.
End EmptySignature.

(** ** Group memberships *)

Section Memberships.
Import Store.
Local Open Scope Z_scope.

Implicit Types (t : list Row) (c : Cursor).

Lemma memberships_of_app (a : Z) t1 t2 :
  memberships_of a (t1 ++ t2) = memberships_of a t1 ++ memberships_of a t2.
Proof. apply List.filter_app. Qed.

Lemma memberships_of_row (a b g : Z) :
  memberships_of b [(a, g)] = if a =? b then [(a, g)] else [].
Proof. reflexivity. Qed.

Lemma memberships_of_without_same (a : Z) t :
  memberships_of a (without a t) = [].
Proof.
  unfold memberships_of, without.
  induction t as [| r t IH]; cbn [List.filter]; [reflexivity |].
  destruct (fst r =? a) eqn:E; cbn [negb List.filter]; [exact IH |].
  now rewrite E.
Qed.

Lemma memberships_of_without_other (a b : Z) t :
  b <> a -> memberships_of b (without a t) = memberships_of b t.
Proof.
  intros Hne. unfold memberships_of, without.
  induction t as [| r t IH]; cbn [List.filter]; [reflexivity |].
  destruct (fst r =? a) eqn:Ea; cbn [negb List.filter].
  - apply Z.eqb_eq in Ea.
    destruct (Z.eqb_spec (fst r) b) as [Eb | _]; [congruence | exact IH].
  - destruct (fst r =? b); [now rewrite IH | exact IH].
Qed.

Lemma memberships_of_fst (a : Z) t (r : Row) :
  In r (memberships_of a t) -> fst r = a.
Proof.
  unfold memberships_of. intros H.
  apply List.filter_In in H as [_ H]. now apply Z.eqb_eq.
Qed.

(** The key of an article without rows is free. *)
Lemma key_free (a g : Z) t :
  memberships_of a t = [] ->
  existsb (fun r => (fst r =? a) && (snd r =? g)) t = false.
Proof.
  unfold memberships_of.
  induction t as [| r t IH]; cbn [List.filter existsb]; [reflexivity |].
  destruct (fst r =? a); [discriminate |]. intros H. now rewrite IH.
Qed.

(** The statements [add_article_to_group] runs and the table each leaves,
    by the row [fetchone()] returns. *)
Lemma add_article_to_group_cases (own : bool) (a g : Z) c :
  add_article_to_group own a g c
  = match head (memberships_of a (table c)) with
    | None =>
        let t1 := table c ++ [(a, g)] in
        (true, mkCursor t1
                 (executed c ++ [(SELECT_group_id a, table c);
                                 (INSERT_membership a g, t1)]))
    | Some r =>
        if snd r =? g
        then (true, mkCursor (table c)
                      (executed c ++ [(SELECT_group_id a, table c)]))
        else
          let t1 := without a (table c) in
          let t2 := t1 ++ [(a, g)] in
          (true, mkCursor t2
                   (executed c ++ [(SELECT_group_id a, table c);
                                   (DELETE_memberships a, t1);
                                   (INSERT_membership a g, t2)]))
    end.
Proof.
  unfold add_article_to_group, add_article_to_group_body, bind,
    select_group_id.
  destruct (memberships_of a (table c)) as [| r ms] eqn:Hms;
    cbn [head fmap option_fmap option_map].
  - unfold insert_membership, record. cbn [table executed].
    rewrite (key_free a g _ Hms). unfold ret. cbn [table executed].
    now rewrite <- app_assoc.
  - destruct (snd r =? g); [reflexivity |].
    unfold delete_memberships, insert_membership, record.
    cbn [table executed]. fold (without a (table c)).
    rewrite (key_free a g _ (memberships_of_without_same a (table c))).
    unfold ret. cbn [table executed].
    now rewrite <- !app_assoc.
Qed.

Lemma at_most_one_without (a : Z) t :
  at_most_one_group t -> at_most_one_group (without a t).
Proof.
  intros H b. destruct (Z.eq_dec b a) as [-> | Hne].
  - rewrite memberships_of_without_same. cbn. lia.
  - rewrite memberships_of_without_other by exact Hne. apply H.
Qed.

Lemma at_most_one_fresh (a g : Z) t :
  at_most_one_group t -> memberships_of a t = [] ->
  at_most_one_group (t ++ [(a, g)]).
Proof.
  intros H Hfree b. rewrite memberships_of_app, memberships_of_row.
  destruct (Z.eqb_spec a b) as [<- | Hne].
  - rewrite Hfree. cbn. lia.
  - rewrite app_nil_r. apply H.
Qed.
Lemma add_article_to_group_preserves (own : bool) (a g : Z) c :
  at_most_one_group (table c) ->
  at_most_one_group (table (snd (add_article_to_group own a g c))).
Proof.
  intros Hinv. rewrite add_article_to_group_cases.
  destruct (memberships_of a (table c)) as [| r ms] eqn:Hms; cbn [head].
  - now apply at_most_one_fresh.
  - destruct (snd r =? g); [exact Hinv |].
    apply at_most_one_fresh; [now apply at_most_one_without |].
    apply memberships_of_without_same.
Qed.

Lemma attach_all_preserves (calls : list (Z * Z)) c :
  at_most_one_group (table c) ->
  at_most_one_group (table (attach_all calls c)).
Proof.
  revert c. induction calls as [| call calls IH]; intros c Hinv;
    cbn [attach_all fold_left]; [exact Hinv |].
  apply IH. now apply add_article_to_group_preserves.
Qed.

(** C4.  [add_article_to_group] keeps every article in at most one group:
    started on a table with that property it succeeds, every statement it
    runs leaves such a table, a membership in another group is deleted
    before the new row is inserted, and afterwards the article's only row
    is the one for the target group while the other articles' rows are
    untouched.  The property therefore holds after any run of attach and
    move requests. *)
Theorem add_article_to_group_single_membership
  (own : bool) (a g : Z) c :
  at_most_one_group (table c) ->
  let r := add_article_to_group own a g c in
  (forall calls, at_most_one_group (table (attach_all calls (snd r))))
  /\ fst r = true
  /\ at_most_one_group (table (snd r))
  /\ memberships_of a (table (snd r)) = [(a, g)]
  /\ (forall b, b <> a ->
       memberships_of b (table (snd r)) = memberships_of b (table c))
  /\ exists steps,
       executed (snd r) = executed c ++ steps
       /\ Forall (fun step => at_most_one_group (snd step)) steps
       /\ map fst steps
          = match head (memberships_of a (table c)) with
            | None => [SELECT_group_id a; INSERT_membership a g]
            | Some r =>
                if snd r =? g then [SELECT_group_id a]
                else [SELECT_group_id a; DELETE_memberships a;
                      INSERT_membership a g]
            end.
Proof.
  intros Hinv r. subst r.
  split.
  { intros calls.
    now apply attach_all_preserves, add_article_to_group_preserves. }
  rewrite add_article_to_group_cases.
  destruct (memberships_of a (table c)) as [| r ms] eqn:Hms; cbn [head].
  - (* no membership yet *)
    cbv zeta. cbn [fst snd table executed].
    pose proof (at_most_one_fresh a g _ Hinv Hms) as Hinv'.
    split; [reflexivity |]. split; [| split; [| split]].
    + exact Hinv'.
    + rewrite memberships_of_app, Hms, memberships_of_row, Z.eqb_refl.
      reflexivity.
    + intros b Hne. rewrite memberships_of_app, memberships_of_row.
      destruct (Z.eqb_spec a b); [congruence | apply app_nil_r].
    + eexists. split; [reflexivity |]. split; [| reflexivity].
      repeat (apply List.Forall_cons; [assumption |]); apply List.Forall_nil.
  - (* one membership: the invariant leaves no second row *)
    assert (Hfst : fst r = a)
      by (apply (memberships_of_fst a (table c)); rewrite Hms; now left).
    assert (ms = []) as ->.
    { specialize (Hinv a). rewrite Hms in Hinv. cbn in Hinv.
      destruct ms; [reflexivity | cbn in Hinv; lia]. }
    destruct (Z.eqb_spec (snd r) g) as [Hg | Hg].
    + cbn [fst snd table executed].
      split; [reflexivity |]. split; [| split; [| split]].
      * exact Hinv.
      * rewrite Hms. destruct r; cbn in *; now subst.
      * reflexivity.
      * eexists. split; [reflexivity |]. split; [| reflexivity].
        repeat (apply List.Forall_cons; [assumption |]); apply List.Forall_nil.
    + cbv zeta. cbn [fst snd table executed].
      pose proof (at_most_one_without a _ Hinv) as Hinv1.
      pose proof (at_most_one_fresh a g _ Hinv1
                    (memberships_of_without_same a (table c))) as Hinv2.
      split; [reflexivity |]. split; [| split; [| split]].
      * exact Hinv2.
      * rewrite memberships_of_app, memberships_of_without_same,
          memberships_of_row, Z.eqb_refl. reflexivity.
      * intros b Hne. rewrite memberships_of_app, memberships_of_row.
        destruct (Z.eqb_spec a b); [congruence |].
        rewrite app_nil_r. now apply memberships_of_without_other.
      * eexists. split; [reflexivity |]. split; [| reflexivity].
        repeat (apply List.Forall_cons; [assumption |]); apply List.Forall_nil.
Qed.

(** Article 10 moves from group 1 to group 2. *)
Lemma add_article_to_group_single_membership_witness :
  memberships_of 10
    (table (snd (add_article_to_group false 10 2
                   (mkCursor [(10, 1); (11, 1)] []))))
  = [(10, 2)].
Proof.
  apply (add_article_to_group_single_membership
           false 10 2 (mkCursor [(10, 1); (11, 1)] [])).
  intros b. cbn [table memberships_of List.filter fst].
  destruct (Z.eqb_spec 10 b), (Z.eqb_spec 11 b); cbn; lia.
Defined.



End Memberships.

(** ** Entity upsert *)

Section EntityUpsert.
Import Entities.
Local Open Scope Z_scope.

Lemma find_by_id_map (f : EntityProfile -> EntityProfile) (id : Z)
                     (l : list EntityProfile) (seq seq' : Z) :
  (forall r, entity_id (f r) = entity_id r) ->
  find_by_id id (mkDb (map f l) seq') = f <$> find_by_id id (mkDb l seq).
Proof.
  intros Hid. unfold find_by_id. cbn [entity_profiles].
  induction l as [| r l IH]; cbn [map List.find]; [reflexivity |].
  rewrite Hid. destruct (entity_id r =? id); [reflexivity | exact IH].
Qed.

Lemma find_by_id_In (db : Db) (r : EntityProfile) :
  ids_unique db -> In r (entity_profiles db) ->
  find_by_id (entity_id r) db = Some r.
Proof.
  unfold ids_unique, find_by_id.
  induction (entity_profiles db) as [| r' l IH]; cbn [map List.find];
    intros Hnd Hin; [destruct Hin |].
  apply List.NoDup_cons_iff in Hnd as [Hnotin Hnd].
  destruct Hin as [-> | Hin]; [now rewrite Z.eqb_refl |].
  destruct (Z.eqb_spec (entity_id r') (entity_id r)) as [E | _];
    [| now apply IH].
  exfalso. apply Hnotin. rewrite E. now apply in_map.
Qed.

Lemma find_by_id_sound (db : Db) (id : Z) (r : EntityProfile) :
  find_by_id id db = Some r -> entity_id r = id.
Proof.
  unfold find_by_id. intros H. apply List.find_some in H as [_ H].
  now apply Z.eqb_eq.
Qed.

(** With the UNIQUE constraint the SELECT fetches the row that carries the
    name and the type. *)
Lemma select_entity_In (db : Db) (r : EntityProfile) :
  keys_unique db -> In r (entity_profiles db) ->
  select_entity (Some (entity_name r)) (Some (entity_type r)) db = Some r.
Proof.
  unfold keys_unique, select_entity.
  induction (entity_profiles db) as [| r' l IH]; cbn [map List.find];
    intros Hnd Hin; [destruct Hin |].
  apply List.NoDup_cons_iff in Hnd as [Hnotin Hnd].
  destruct Hin as [-> | Hin]; [now rewrite !String.eqb_refl |].
  destruct (String.eqb_spec (entity_name r') (entity_name r)) as [En | _];
    [| now apply IH].
  destruct (String.eqb_spec (entity_type r') (entity_type r)) as [Et | _];
    [| now apply IH].
  exfalso. apply Hnotin. rewrite En, Et.
  now apply (in_map (fun r => (entity_name r, entity_type r))).
Qed.

(** C5, as the code has it.  Called with the name and type of a stored
    entity, [insert_entity] returns that entity's id, adds one to its
    mention count, sets last-seen and updated-at to the current time, and
    stores the description passed in whenever one is passed: the stored
    description is kept only when none is passed.  Other rows, the row
    count and the id counter do not change. *)
Theorem insert_entity_bumps_existing
  (db : Db) (r : EntityProfile) (new_description : option string) (now : Z) :
  ids_unique db -> keys_unique db -> In r (entity_profiles db) ->
  let res := insert_entity (Some (entity_name r)) (Some (entity_type r))
                           new_description now db in
  fst res = Some (entity_id r)
  /\ (exists r',
        find_by_id (entity_id r) (snd res) = Some r'
        /\ mention_count r' = mention_count r + 1
        /\ last_seen r' = Some now
        /\ updated_at r' = now
        /\ description r'
           = match new_description with
             | Some d => Some d
             | None => description r
             end
        /\ entity_name r' = entity_name r
        /\ entity_type r' = entity_type r
        /\ first_seen r' = first_seen r
        /\ created_at r' = created_at r)
  /\ (forall id, id <> entity_id r ->
                 find_by_id id (snd res) = find_by_id id db)
  /\ length (entity_profiles (snd res)) = length (entity_profiles db)
  /\ sqlite_sequence (snd res) = sqlite_sequence db.
Proof.
  intros Hids Hkeys Hin res. subst res. unfold insert_entity.
  rewrite (select_entity_In db r Hkeys Hin). cbn [fst snd].
  set (f := fun r0 : EntityProfile =>
              if entity_id r0 =? entity_id r
              then bump new_description now r0 else r0).
  assert (Hf : forall r0, entity_id (f r0) = entity_id r0)
    by (intros r0; unfold f; destruct (entity_id r0 =? entity_id r);
        reflexivity).
  assert (Hfind : forall id,
             find_by_id id (mkDb (map f (entity_profiles db))
                                 (sqlite_sequence db))
             = f <$> find_by_id id db).
  { intros id. rewrite (find_by_id_map f id _ (sqlite_sequence db)) by exact Hf.
    now destruct db. }
  split; [reflexivity |]. split; [| split; [| split]].
  - exists (bump new_description now r).
    rewrite Hfind, (find_by_id_In db r Hids Hin). cbn [fmap option_fmap option_map].
    unfold f. rewrite Z.eqb_refl.
    destruct new_description; repeat split.
  - intros id Hne. rewrite Hfind.
    destruct (find_by_id id db) as [r0 |] eqn:E; [| reflexivity].
    cbn [fmap option_fmap option_map]. unfold f.
    apply find_by_id_sound in E.
    destruct (Z.eqb_spec (entity_id r0) (entity_id r)); [congruence |].
    reflexivity.
  - cbn [entity_profiles]. apply length_map.
  - reflexivity.
Qed.

Lemma insert_entity_bumps_existing_witness :
  fst (insert_entity (Some "GPT-5"%string) (Some "product"%string)
                     (Some "A language model"%string) 3000
                     Scenario.entity_db)
  = Some 2.
Proof.
  apply (insert_entity_bumps_existing Scenario.entity_db Scenario.gpt5
           (Some "A language model"%string) 3000).
  - repeat constructor; cbn; intuition discriminate.
  - repeat constructor; cbn; intuition discriminate.
  - right. now left.
Defined.

(** C5 as stated fails: a description that is already present is replaced
    by the one passed in, where the specification keeps it. *)
Lemma insert_entity_overwrites_description :
  description Scenario.openai = Some "AI lab"%string
  /\ (description
        <$> find_by_id 1
              (snd (insert_entity (Some "OpenAI"%string)
                                  (Some "organization"%string)
                                  (Some "Maker of GPT"%string) 3000
                                  Scenario.entity_db)))
     = Some (Some "Maker of GPT"%string)
  /\ fill_if_empty (description Scenario.openai) (Some "Maker of GPT"%string)
     = Some "AI lab"%string.
Proof. repeat split. Qed.
End EntityUpsert.

(** ** The merge pass *)

Section MergePass.
Import Merger.
Local Open Scope Z_scope.

Variable generate_group_signature : Grouping.GroupDict -> Scorer.GroupSignature.
Variable _calculate_group_similarity
  : Scorer.GroupSignature -> Scorer.GroupSignature -> option Q.
Variable merge_transaction : Z -> Z -> Transaction.
Variable merge_threshold : Q.

Lemma participants_snoc (ms : list (Z * Z)) (s d : Z) :
  participants (ms ++ [(s, d)]) = participants ms ++ [s; d].
Proof. unfold participants. now rewrite flat_map_app. Qed.

Lemma NoDup_snoc2 (l : list Z) (s d : Z) :
  List.NoDup l -> ~ In s l -> ~ In d l -> s <> d -> List.NoDup (l ++ [s; d]).
Proof.
  intros Hl Hs Hd Hsd. induction l as [| x l IH]; cbn [app].
  - constructor; [intros [E | []]; congruence |].
    constructor; [intros [] | constructor].
  - apply List.NoDup_cons_iff in Hl as [Hx Hl]. constructor.
    + rewrite in_app_iff. intros [Hin | [E | [E | []]]].
      * contradiction.
      * apply Hs. now left.
      * apply Hd. now left.
    + apply IH; [exact Hl | |]; intros Hin; [apply Hs | apply Hd]; now right.
Qed.

Lemma consistent_initial : consistent initial.
Proof.
  unfold consistent, initial. cbn. split; [constructor |].
  split; [intros id [] | reflexivity].
Qed.

Lemma compare_with_consistent (group_a : Group) (rest : list Group)
                              (st : State) :
  ~ In (id_of group_a) (map id_of rest) ->
  consistent st ->
  consistent
    (state_of (compare_with _calculate_group_similarity merge_transaction
                            merge_threshold group_a rest st)).
Proof.
  intros Hfresh Hst.
  induction rest as [| group_b rest IH]; cbn [compare_with].
  - exact Hst.
  - assert (Hrest : ~ In (id_of group_a) (map id_of rest))
      by (intros Hin; apply Hfresh; now right).
    assert (Hab : id_of group_a <> id_of group_b)
      by (intros E; apply Hfresh; now left).
    cbv zeta.
    destruct (bool_decide _ || bool_decide _) eqn:Hskip; [now apply IH |].
    apply orb_false_iff in Hskip as [Ha Hb].
    apply bool_decide_eq_false in Ha, Hb.
    destruct (_calculate_group_similarity _ _) as [similarity |];
      [| exact Hst].
    destruct (Py.Qleb merge_threshold similarity); [| now apply IH].
    unfold choose_survivor. cbv zeta.
    destruct (merge_transaction _ _); cbn [state_of];
      [| exact Hst | exact Hst].
    destruct Hst as (Hnd & Hmarked & Hcount).
    unfold consistent. cbn [merges processed_group_ids merged_pairs_count].
    rewrite participants_snoc. split; [| split].
    + apply NoDup_snoc2; [exact Hnd | | | exact Hab];
        intros Hin; apply Hmarked in Hin; contradiction.
    + intros id Hin. apply in_app_iff in Hin as [Hin | [<- | [<- | []]]].
      * apply Hmarked in Hin. set_solver.
      * set_solver.
      * set_solver.
    + rewrite length_app. cbn [length]. lia.
Qed.

Lemma compare_pairs_consistent (groups : list Group) (st : State) :
  List.NoDup (map id_of groups) ->
  consistent st ->
  consistent
    (state_of (compare_pairs _calculate_group_similarity merge_transaction
                             merge_threshold groups st)).
Proof.
  revert st. induction groups as [| group_a rest IH]; intros st Hnd Hst;
    cbn [compare_pairs].
  - exact Hst.
  - cbn [map] in Hnd. apply List.NoDup_cons_iff in Hnd as [Hfresh Hnd].
    pose proof (compare_with_consistent group_a rest st Hfresh Hst) as Hstep.
    destruct (compare_with _ _ _ group_a rest st) as [st' | st'];
      cbn [state_of] in *; [now apply IH | exact Hstep].
Qed.

Lemma groups_with_signatures_ids (groups : list Grouping.GroupDict) :
  List.NoDup (map Grouping.gd_group_id groups) ->
  List.NoDup (map id_of (groups_with_signatures generate_group_signature
                                                groups)).
Proof.
  unfold groups_with_signatures. rewrite map_map. unfold id_of. cbn [fst].
  induction groups as [| g groups IH]; cbn [map List.filter]; intros Hnd;
    [constructor |].
  apply List.NoDup_cons_iff in Hnd as [Hfresh Hnd].
  destruct (Py.nonempty (Grouping.article_ids g)); [| now apply IH].
  cbn [map]. constructor; [| now apply IH].
  intros Hin. apply Hfresh.
  apply in_map_iff in Hin as (g' & <- & Hin).
  apply List.filter_In in Hin as [Hin _]. now apply in_map.
Qed.

Lemma merge_similar_groups_consistent (groups : list Grouping.GroupDict) :
  List.NoDup (map Grouping.gd_group_id groups) ->
  consistent
    (state_of (merge_similar_groups generate_group_signature
                 _calculate_group_similarity merge_transaction merge_threshold
                 groups)).
Proof.
  intros Hnd. unfold merge_similar_groups.
  destruct (length groups <? 2)%nat; [apply consistent_initial |].
  apply compare_pairs_consistent;
    [now apply groups_with_signatures_ids | apply consistent_initial].
Qed.

End MergePass.

Section MergeLog.
Import Merger.
Local Open Scope Z_scope.

Lemma survivors_participate (ms : list (Z * Z)) (id : Z) :
  In id (map fst ms) -> In id (participants ms).
Proof.
  induction ms as [| m ms IH]; cbn; [tauto |].
  intros [E | Hin]; [now left | right; right; now apply IH].
Qed.

Lemma deleted_participate (ms : list (Z * Z)) (id : Z) :
  In id (map snd ms) -> In id (participants ms).
Proof.
  induction ms as [| m ms IH]; cbn; [tauto |].
  intros [E | Hin]; [right; now left | right; right; now apply IH].
Qed.

Lemma survivor_never_deleted (ms : list (Z * Z)) :
  List.NoDup (participants ms) ->
  forall id, In id (map fst ms) -> ~ In id (map snd ms).
Proof.
  induction ms as [| [s d] ms IH]; intros Hnd id; [intros [] |].
  change (participants ((s, d) :: ms)) with (s :: d :: participants ms) in Hnd.
  apply List.NoDup_cons_iff in Hnd as [Hs Hnd].
  apply List.NoDup_cons_iff in Hnd as [Hd Hnd].
  cbn [map fst snd]. intros [<- | Hin] [E | Hin'].
  - apply Hs. now left.
  - apply Hs. right. now apply deleted_participate.
  - subst id. apply Hd. now apply survivors_participate.
  - exact (IH Hnd id Hin Hin').
Qed.

(** C8.  In one invocation of [merge_similar_groups] over groups with
    distinct ids, whatever the similarity scores and the outcome of the
    database transactions, no group id takes part in two merges and none is
    both a survivor and a deleted group; every id that took part is in
    [processed_group_ids], which the loop consults before each comparison;
    and [merged_pairs] counts exactly these merges. *)
Theorem merge_pass_single_participation
  (generate_group_signature : Grouping.GroupDict -> Scorer.GroupSignature)
  (_calculate_group_similarity
     : Scorer.GroupSignature -> Scorer.GroupSignature -> option Q)
  (merge_transaction : Z -> Z -> Transaction) (merge_threshold : Q)
  (groups : list Grouping.GroupDict) :
  List.NoDup (map Grouping.gd_group_id groups) ->
  let st := state_of (merge_similar_groups generate_group_signature
                        _calculate_group_similarity merge_transaction
                        merge_threshold groups) in
  List.NoDup (participants (merges st))
  /\ (forall id, In id (map fst (merges st)) -> ~ In id (map snd (merges st)))
  /\ (forall id, In id (participants (merges st)) ->
                 id ∈ processed_group_ids st)
  /\ merged_pairs_count st = length (merges st).
Proof.
  intros Hnd st.
  destruct (merge_similar_groups_consistent generate_group_signature
              _calculate_group_similarity merge_transaction merge_threshold
              groups Hnd) as (Hlog & Hmarked & Hcount).
  split; [exact Hlog |]. split; [| split; assumption].
  now apply survivor_never_deleted.
Qed.

(** Three groups that all resemble each other: one merge, the third group
    stays out of it. *)
Lemma merge_pass_single_participation_witness :
  merges (state_of (merge_similar_groups Scenario.bare_signature
                      (fun _ _ => Some 0.72%Q) (fun _ _ => Committed) 0.60%Q
                      [Scenario.small_group; Scenario.large_group;
                       Grouping.mkGroupDict 3 "Other" "" "" [30]]))
  = [(1, 2)]
  /\ List.NoDup
       (participants
          (merges (state_of (merge_similar_groups Scenario.bare_signature
                      (fun _ _ => Some 0.72%Q) (fun _ _ => Committed) 0.60%Q
                      [Scenario.small_group; Scenario.large_group;
                       Grouping.mkGroupDict 3 "Other" "" "" [30]])))).
Proof.
  split; [reflexivity |].
  apply (merge_pass_single_participation Scenario.bare_signature
           (fun _ _ => Some 0.72%Q) (fun _ _ => Committed) 0.60%Q
           [Scenario.small_group; Scenario.large_group;
            Grouping.mkGroupDict 3 "Other" "" "" [30]]).
  repeat constructor; cbn; intuition discriminate.
Defined.

(** C1, on the code.  The surviving group of a merge is always the first
    group of the pair: merging a group of one article with a later group of
    three keeps the group of one, where the rule of the specification
    (larger membership first) keeps the group of three. *)
Theorem merge_survivor_is_first_of_pair :
  (forall group_a group_b : Group,
      choose_survivor group_a group_b = (id_of group_a, id_of group_b))
  /\ merges (state_of (merge_similar_groups Scenario.bare_signature
                         (fun _ _ => Some 0.72%Q) (fun _ _ => Committed) 0.60%Q
                         [Scenario.small_group; Scenario.large_group]))
     = [(1, 2)]
  /\ (forall created_at : Z -> Z,
        survivor_by_rule created_at
                         Scenario.small_group Scenario.large_group = 2).
Proof.
  split; [reflexivity |]. split; reflexivity.
Qed.
End MergeLog.

(** ** Packing summaries into chunks *)

Section Packing.
Import Chunks.
Local Open Scope Z_scope.

Lemma dict_set_fresh {V} (k : string) (v : V) (d : list (string * V)) :
  ~ In k (map fst d) -> Py.dict_set k v d = d ++ [(k, v)].
Proof.
  induction d as [| [k' v'] d IH]; cbn [Py.dict_set map fst app In];
    intros Hfresh; [reflexivity |].
  destruct (String.eqb_spec k' k) as [E | _]; [tauto |].
  f_equal. apply IH. tauto.
Qed.

Lemma insert_by_len_perm (x : Item) (l : list Item) :
  Permutation (x :: l) (insert_by_len x l).
Proof.
  induction l as [| y l IH]; cbn [insert_by_len]; [reflexivity |].
  destruct (_ <? _)%nat; [reflexivity |].
  rewrite perm_swap. now apply perm_skip.
Qed.

Lemma sorted_items_perm (d : list Item) : Permutation d (sorted_items d).
Proof.
  unfold sorted_items.
  enough (H : forall acc, Permutation (acc ++ d)
                            (fold_left (fun acc x => insert_by_len x acc) d acc))
    by exact (H []).
  induction d as [| x d IH]; intros acc; cbn [fold_left].
  - now rewrite app_nil_r.
  - rewrite <- IH, <- insert_by_len_perm. cbn [app].
    symmetry. apply Permutation_middle.
Qed.

Lemma chunk_tokens_app (c1 c2 : list Item) :
  chunk_tokens (c1 ++ c2) = chunk_tokens c1 + chunk_tokens c2.
Proof.
  unfold chunk_tokens. induction c1 as [| x c1 IH]; cbn [app fold_right];
    [reflexivity | rewrite IH; lia].
Qed.

Lemma chunk_tokens_one (k v : string) :
  chunk_tokens [(k, v)] = Utils.approximate_tokens v.
Proof. unfold chunk_tokens. cbn [fold_right snd]. lia. Qed.

Lemma flush_ok (max : Z) (p : Packer) :
  packer_ok max p ->
  packer_ok max (flush p)
  /\ concat (yielded (flush p)) ++ current_chunk (flush p)
     = concat (yielded p) ++ current_chunk p
  /\ (current_tokens (flush p) = 0 \/ flush p = p).
Proof.
  intros (Hne & Hbud & Hsum & Hopen). unfold flush.
  destruct (current_chunk p) as [| x c] eqn:Hc; cbn [Py.nonempty].
  - split; [| split; [now rewrite ?Hc | now right]].
    unfold packer_ok. rewrite Hc. auto.
  - split; [| split; [| now left]].
    + unfold packer_ok. cbn [yielded current_chunk current_tokens].
      split; [| split; [| split]].
      * apply Forall_app. split; [exact Hne |].
        apply List.Forall_cons; [discriminate | apply List.Forall_nil].
      * apply Forall_app. split; [exact Hbud |].
        apply List.Forall_cons; [| apply List.Forall_nil].
        left. destruct Hopen as [E | Hle];
          [discriminate | now rewrite <- Hsum].
      * reflexivity.
      * now left.
    + cbn [yielded current_chunk]. rewrite concat_app. cbn [concat].
      now rewrite !app_nil_r.
Qed.

Lemma flush_chunk (p : Packer) :
  current_chunk (flush p) = [] \/ flush p = p.
Proof.
  unfold flush. destruct (current_chunk p) eqn:Hc; cbn [Py.nonempty];
    [now right | now left].
Qed.

Lemma flush_empties (max : Z) (p : Packer) :
  packer_ok max p ->
  current_chunk (flush p) = [] /\ current_tokens (flush p) = 0.
Proof.
  intros (_ & _ & Hsum & _). unfold flush.
  destruct (current_chunk p) eqn:Hc; cbn [Py.nonempty];
    [| now split].
  split; [exact Hc | now rewrite Hsum].
Qed.

(** One iteration on an item whose link is not in the open chunk. *)
Lemma pack_step_ok (max : Z) (p : Packer) (item : Item) :
  packer_ok max p ->
  ~ In (fst item) (map fst (current_chunk p)) ->
  packer_ok max (pack_step max p item)
  /\ concat (yielded (pack_step max p item))
     ++ current_chunk (pack_step max p item)
     = (concat (yielded p) ++ current_chunk p) ++ [item]
  /\ (forall k,
        In k (map fst (current_chunk (pack_step max p item))) ->
        In k (map fst (current_chunk p)) \/ k = fst item).
Proof.
  intros Hok Hfresh. unfold pack_step. cbv zeta.
  destruct (flush_ok max p Hok) as (Hfok & Hfcat & _).
  destruct (flush_empties max p Hok) as (Hempty & Hzero).
  destruct (Z.ltb_spec max (Utils.approximate_tokens (snd item)))
    as [Hbig | Hfit].
  - (* larger than the budget: yielded alone *)
    destruct Hfok as (Hne & Hbud & Hsum & Hopen).
    unfold packer_ok; cbn [yielded current_chunk current_tokens].
    split; [| split].
    + split; [| split; [| split]]; try assumption.
      * apply Forall_app. split; [exact Hne |].
        apply List.Forall_cons; [discriminate | apply List.Forall_nil].
      * apply Forall_app. split; [exact Hbud |].
        apply List.Forall_cons; [| apply List.Forall_nil].
        right. now exists item.
    + rewrite concat_app. cbn [concat].
      rewrite app_nil_r, <- Hfcat, Hempty, !app_nil_r. reflexivity.
    + rewrite Hempty. intros k [].
  - destruct (Z.ltb_spec max
                (current_tokens p + Utils.approximate_tokens (snd item)))
      as [Hfull | Hroom].
    + (* the open chunk is closed first *)
      destruct Hfok as (Hne & Hbud & Hsum & Hopen).
      unfold packer_ok; cbn [yielded current_chunk current_tokens].
      rewrite Hempty, Hzero. cbn [Py.dict_set].
      split; [| split].
      * split; [exact Hne |]. split; [exact Hbud |].
        rewrite chunk_tokens_one. split; [lia | right; lia].
      * rewrite <- Hfcat, Hempty, !app_nil_r. now destruct item.
      * intros k [E | []]. now right.
    + (* the item joins the open chunk *)
      destruct Hok as (Hne & Hbud & Hsum & Hopen).
      unfold packer_ok; cbn [yielded current_chunk current_tokens].
      rewrite (dict_set_fresh _ _ _ Hfresh).
      split; [| split].
      * split; [exact Hne |]. split; [exact Hbud |].
        rewrite chunk_tokens_app, Hsum, chunk_tokens_one.
        split; [lia | right; lia].
      * rewrite app_assoc. now destruct item.
      * intros k Hin. rewrite map_app in Hin.
        apply in_app_iff in Hin as [Hin | [E | []]]; [now left | now right].
Qed.

Lemma pack_all_ok (max : Z) (items : list Item) (p : Packer) :
  packer_ok max p ->
  List.NoDup (map fst items) ->
  (forall k, In k (map fst (current_chunk p)) -> ~ In k (map fst items)) ->
  packer_ok max (fold_left (pack_step max) items p)
  /\ concat (yielded (fold_left (pack_step max) items p))
     ++ current_chunk (fold_left (pack_step max) items p)
     = (concat (yielded p) ++ current_chunk p) ++ items.
Proof.
  revert p. induction items as [| item items IH]; intros p Hok Hnd Hdisj;
    cbn [fold_left].
  - split; [exact Hok | now rewrite app_nil_r].
  - cbn [map] in Hnd. apply List.NoDup_cons_iff in Hnd as [Hitem Hnd].
    assert (Hfresh : ~ In (fst item) (map fst (current_chunk p)))
      by (intros Hin; apply (Hdisj _ Hin); now left).
    destruct (pack_step_ok max p item Hok Hfresh) as (Hok' & Hcat' & Hkeys).
    destruct (IH (pack_step max p item) Hok' Hnd) as (Hok'' & Hcat'').
    + intros k Hin Hin'. apply Hkeys in Hin as [Hin | ->].
      * apply (Hdisj _ Hin). now right.
      * contradiction.
    + split; [exact Hok'' |].
      rewrite Hcat'', Hcat'. now rewrite <- !app_assoc.
Qed.

Lemma packer_ok_initial (max : Z) : packer_ok max (mkPacker [] [] 0).
Proof.
  unfold packer_ok. cbn [yielded current_chunk current_tokens].
  split; [apply List.Forall_nil |]. split; [apply List.Forall_nil |].
  split; [reflexivity | now left].
Qed.

(** The invariant and the content of the chunks for a whole run. *)
Lemma chunk_summaries_ok (d : list Item) (max : Z) :
  List.NoDup (map fst d) ->
  Forall (fun c => c <> []) (chunk_summaries d max)
  /\ Forall (within_budget max) (chunk_summaries d max)
  /\ concat (chunk_summaries d max) = sorted_items d.
Proof.
  intros Hnd. unfold chunk_summaries.
  assert (Hnd' : List.NoDup (map fst (sorted_items d))).
  { eapply Permutation_NoDup; [| exact Hnd].
    apply Permutation_map, sorted_items_perm. }
  destruct (pack_all_ok max (sorted_items d) (mkPacker [] [] 0)
              (packer_ok_initial max) Hnd') as (Hok & Hcat);
    [intros k [] |].
  set (p := fold_left (pack_step max) (sorted_items d) (mkPacker [] [] 0)) in *.
  destruct (flush_ok max p Hok) as ((Hne & Hbud & _ & _) & Hfcat & _).
  destruct (flush_empties max p Hok) as (Hempty & _).
  split; [exact Hne |]. split; [exact Hbud |].
  rewrite Hempty, app_nil_r in Hfcat. rewrite Hfcat, Hcat. reflexivity.
Qed.

(** X1.  On a dictionary (distinct links) the chunks, read one after the
    other, are exactly the items in shortest-summary-first order: every
    article is in one chunk, none is lost and none appears twice. *)
Theorem chunk_summaries_partition (d : list Item) (max : Z) :
  List.NoDup (map fst d) ->
  concat (chunk_summaries d max) = sorted_items d
  /\ Permutation d (concat (chunk_summaries d max)).
Proof.
  intros Hnd. destruct (chunk_summaries_ok d max Hnd) as (_ & _ & Hcat).
  split; [exact Hcat |]. rewrite Hcat. apply sorted_items_perm.
Qed.

Lemma chunk_summaries_partition_witness :
  concat (chunk_summaries sample_summaries 3) = sorted_items sample_summaries
  /\ concat (chunk_summaries sample_summaries 3)
     = [("https://b.example/2", "breach");
        ("https://c.example/3", "new exploit");
        ("https://a.example/1", "patch released today")]%string.
Proof.
  split; [| reflexivity].
  apply (chunk_summaries_partition sample_summaries 3).
  repeat constructor; cbn; intuition discriminate.
Defined.

(** X2.  On a dictionary no chunk is empty, and every chunk stays within
    the token budget, except a chunk made of a single article that exceeds
    the budget by itself. *)
Theorem chunk_summaries_within_budget (d : list Item) (max : Z) :
  List.NoDup (map fst d) ->
  Forall (fun c => c <> []) (chunk_summaries d max)
  /\ Forall (within_budget max) (chunk_summaries d max).
Proof.
  intros Hnd.
  destruct (chunk_summaries_ok d max Hnd) as (Hne & Hbud & _). now split.
Qed.

Lemma chunk_summaries_within_budget_witness :
  chunk_summaries sample_summaries 3
  = [[("https://b.example/2", "breach");
      ("https://c.example/3", "new exploit")];
     [("https://a.example/1", "patch released today")]]%string
  /\ Forall (within_budget 3) (chunk_summaries sample_summaries 3).
Proof.
  split; [reflexivity |].
  apply (chunk_summaries_within_budget sample_summaries 3).
  repeat constructor; cbn; intuition discriminate.
Defined.
End Packing.

(** ** Thresholds for arbitrary rules *)

Section AnyRules.
Local Open Scope Q_scope.
Import Grouping.

Lemma py_clamp_monotone (lo hi x y : Q) :
  lo <= hi -> x <= y ->
  Py.max lo (Py.min hi x) <= Py.max lo (Py.min hi y)
  /\ Py.max lo (Py.min hi y) - Py.max lo (Py.min hi x) <= y - x.
Proof.
  intros Hlh Hxy. unfold Py.max, Py.min.
  destruct (Qltb_cases x hi) as [[E1 H1] | [E1 H1]]; rewrite E1;
    destruct (Qltb_cases y hi) as [[E2 H2] | [E2 H2]]; rewrite E2;
    repeat match goal with
           | |- context [Py.Qltb ?a ?b] =>
               let E := fresh "E" in let H := fresh "H" in
               destruct (Qltb_cases a b) as [[E H] | [E H]]; rewrite E
           end; split; lra.
Qed.

(** The sum that is clamped: the base and the two optional adjustments. *)
Lemma dynamic_threshold_shape
  (group_dict : GroupDict) (rules : Rules) (base_threshold : Q) :
  _calculate_dynamic_threshold group_dict base_threshold rules
  == Py.max 0.1 (Py.min 0.9 (base_threshold
                             + Arbitration.threshold_shift group_dict rules)).
Proof.
  unfold _calculate_dynamic_threshold, Arbitration.threshold_shift. cbv zeta.
  rewrite !py_max_Qmax, !py_min_Qmin.
  apply Q.max_compat; [reflexivity |].
  apply Q.min_compat; [reflexivity |].
  destruct (category_adjust rules) as [table |];
    [destruct (Py.truthy (gd_main_topic group_dict)) |];
    (destruct (size_adjust rules) as [sa |];
     [destruct (_ =? _)%nat |]); ring.
Qed.

Lemma dynamic_threshold_monotone
  (group_dict : GroupDict) (rules : Rules) (b1 b2 : Q) :
  b1 <= b2 ->
  _calculate_dynamic_threshold group_dict b1 rules
  <= _calculate_dynamic_threshold group_dict b2 rules
  /\ _calculate_dynamic_threshold group_dict b2 rules
     - _calculate_dynamic_threshold group_dict b1 rules <= b2 - b1.
Proof.
  intros Hb. rewrite !dynamic_threshold_shape.
  set (shift := Arbitration.threshold_shift group_dict rules).
  destruct (py_clamp_monotone 0.1 0.9 (b1 + shift) (b2 + shift))
    as [Hmono Hlip]; [lra | lra |].
  split; [exact Hmono | lra].
Qed.

(** X3.  Whatever the rules and the group, the dynamic threshold lies
    between 0.1 and 0.9, it does not decrease when the base threshold is
    raised, and it rises by no more than the base does. *)
Theorem dynamic_threshold_clamped_and_monotone
  (group_dict : GroupDict) (rules : Rules) (b1 b2 : Q) :
  0.1 <= _calculate_dynamic_threshold group_dict b1 rules <= 0.9
  /\ (b1 <= b2 ->
      _calculate_dynamic_threshold group_dict b1 rules
      <= _calculate_dynamic_threshold group_dict b2 rules
      /\ _calculate_dynamic_threshold group_dict b2 rules
         - _calculate_dynamic_threshold group_dict b1 rules <= b2 - b1).
Proof.
  split; [| apply dynamic_threshold_monotone].
  unfold _calculate_dynamic_threshold. cbv zeta.
  apply py_clamp_bounds. lra.
Qed.

(** X4.  When the adjustment list is one longer than the breakpoint list,
    the index computed from the group size addresses an element of the
    adjustment list: [adjustments[adj_index]] cannot fail. *)
Theorem size_adjustment_index_in_range (sa : SizeAdjust) (group_size : nat) :
  length (adjustments sa) = (length (breakpoints sa) + 1)%nat ->
  (find_adj_index group_size (breakpoints sa) 0 0 < length (adjustments sa))%nat
  /\ exists adj,
       nth_error (adjustments sa)
                 (find_adj_index group_size (breakpoints sa) 0 0) = Some adj
       /\ nth (find_adj_index group_size (breakpoints sa) 0 0)
              (adjustments sa) 0 = adj.
Proof.
  intros Hlen.
  pose proof (find_adj_index_le group_size (breakpoints sa) 0 0 (le_n 0))
    as Hle.
  assert (Hlt : (find_adj_index group_size (breakpoints sa) 0 0
                 < length (adjustments sa))%nat) by lia.
  split; [exact Hlt |].
  destruct (nth_error (adjustments sa)
              (find_adj_index group_size (breakpoints sa) 0 0))
    as [adj |] eqn:E.
  - exists adj. split; [reflexivity |]. now apply nth_error_nth.
  - apply nth_error_None in E. lia.
Qed.

Lemma size_adjustment_index_in_range_witness :
  (find_adj_index 7 [1; 5; 10]%nat 0 0 < 4)%nat.
Proof.
  apply (size_adjustment_index_in_range
           (mkSizeAdjust [1; 5; 10]%nat [0.05; 0.0; - 0.03; - 0.05]) 7).
  reflexivity.
Defined.
End AnyRules.

(** ** The grouping decision *)

Section Decisions.
Local Open Scope Q_scope.
Import Scorer Grouping Arbitration.

Implicit Types (a : ArticleSignature)
               (existing : list (GroupDict * GroupSignature))
               (rules : Rules)
               (call_gpt_api : list GroupScore -> LlmAnswer).

Lemma sorted_desc_In {A} (key : A -> Q) (l : list A) (x : A) :
  In x (Py.sorted_desc key l) -> In x l.
Proof.
  intros Hin.
  assert (H : Forall (fun y => In y l) (Py.sorted_desc key l))
    by (apply sorted_desc_Forall, List.Forall_forall; auto).
  exact (proj1 (List.Forall_forall _ _) H x Hin).
Qed.

Lemma take_In {A} (n : nat) (l : list A) (x : A) : In x (take n l) -> In x l.
Proof.
  revert n. induction l as [| y l IH]; intros [| n]; cbn; try tauto.
  intros [E | Hin]; [now left | right; eauto].
Qed.

Lemma group_scores_of_In a existing rules (gs : GroupScore) :
  In gs (group_scores_of a existing rules) ->
  exists gd, In gd existing
             /\ gd_group_id (fst gd) = gs_group_id gs
             /\ article_ids (fst gd) <> [].
Proof.
  unfold group_scores_of. cbv zeta. intros Hin.
  apply in_flat_map in Hin as (gd & Hgd & Hin). exists gd.
  destruct (article_ids (fst gd)) eqn:Hids; cbn [Py.nonempty] in Hin;
    [destruct Hin |].
  destruct Hin as [<- | []]. now repeat split.
Qed.

Lemma ranked_In a existing rules (gs : GroupScore) :
  In gs (ranked a existing rules) ->
  exists gd, In gd existing
             /\ gd_group_id (fst gd) = gs_group_id gs
             /\ article_ids (fst gd) <> [].
Proof.
  intros Hin. apply sorted_desc_In in Hin. now apply group_scores_of_In in Hin.
Qed.

(** The decision when the candidates are known, by the three tests of the
    code. *)
Lemma decide_group_ranked call_gpt_api a existing rules
                          (best : GroupScore) (others : list GroupScore) :
  ranked a existing rules = best :: others ->
  let above := Py.Qleb (dynamic_threshold best) (score best) in
  let second := match others with [] => - 1.0 | g2 :: _ => score g2 end in
  let zone :=
    (Py.Qleb (dynamic_threshold best - AMBIGUITY_ZONE_BELOW_THRESHOLD)
             (score best)
     && Py.Qltb (score best)
                (dynamic_threshold best + AMBIGUITY_ZONE_ABOVE_THRESHOLD))
    || (above && Py.Qltb (score best - second) MAX_SCORE_GAP_FOR_AMBIGUITY) in
  let fallback :=
    if above then add_to_existing (gs_group_id best) else create_new in
  decide_group call_gpt_api a existing rules
  = if above && negb zone then (add_to_existing (gs_group_id best), false)
    else if zone then
      match call_gpt_api (take 3 (best :: others)) with
      | AnswerInt n =>
          if bool_decide (n ∈ map gs_group_id (take 3 (best :: others)))
          then (add_to_existing n, true) else (fallback, true)
      | AnswerNone => (create_new, true)
      | NoAnswer | AnswerUnparsable => (fallback, true)
      end
    else (create_new, false).
Proof.
  intros Hranked above second zone fallback.
  unfold decide_group. cbv zeta. fold (ranked a existing rules).
  rewrite Hranked. fold above. fold second. fold zone. fold fallback.
  destruct (above && negb zone); [reflexivity |].
  unfold ENABLE_LLM_MATCH_ASSESSMENT. cbn [andb].
  destruct zone; [| reflexivity].
  (* the details of the first candidate are always found *)
  assert (Hdetails :
    Py.nonempty
      (omap (fun gid => _get_group_details_for_prompt gid existing)
            (map gs_group_id (take 3 (best :: others)))) = true).
  { assert (Hin : In best (ranked a existing rules))
      by (rewrite Hranked; now left).
    apply ranked_In in Hin as (gd & Hgd & Hid & _).
    assert (Hfound : exists d,
               _get_group_details_for_prompt (gs_group_id best) existing
               = Some d).
    { unfold _get_group_details_for_prompt.
      destruct (List.find (fun gd0 => (gd_group_id (fst gd0)
                                       =? gs_group_id best)%Z) existing)
        as [found |] eqn:Hfind; [now eexists |].
      exfalso. apply (List.find_none _ _ Hfind) in Hgd.
      rewrite Hid, Z.eqb_refl in Hgd. discriminate. }
    destruct Hfound as [d Hd].
    cbn [take map omap list_omap]. now rewrite Hd. }
  rewrite Hdetails. reflexivity.
Qed.

(** X5.  Whatever the language model answers, an article is only ever
    attached to one of the three best-scoring groups, the candidates shown
    to the model, each of which is an existing group that has articles:
    either to the best-scoring group, whose score then reaches its
    threshold, or to the group the model named, which then is one of the
    candidates.  An id that the model returns and that is not among the
    candidates is never the group attached to. *)
Theorem decide_group_attaches_to_candidate
  call_gpt_api a existing rules (gid : Z) (llm_check_triggered : bool) :
  decide_group call_gpt_api a existing rules
  = (add_to_existing gid, llm_check_triggered) ->
  let candidates := take 3 (ranked a existing rules) in
  In gid (map gs_group_id candidates)
  /\ (exists gd, In gd existing
                 /\ gd_group_id (fst gd) = gid
                 /\ article_ids (fst gd) <> [])
  /\ ((exists best others,
         ranked a existing rules = best :: others
         /\ gid = gs_group_id best
         /\ Py.Qleb (dynamic_threshold best) (score best) = true)
      \/ (llm_check_triggered = true
          /\ call_gpt_api candidates = AnswerInt gid))
  /\ (forall n, call_gpt_api candidates = AnswerInt n ->
                ~ In n (map gs_group_id candidates) -> gid <> n).
Proof.
  intros Hdec candidates.
  assert (Hcore :
    In gid (map gs_group_id candidates)
    /\ ((exists best others,
           ranked a existing rules = best :: others
           /\ gid = gs_group_id best
           /\ Py.Qleb (dynamic_threshold best) (score best) = true)
        \/ (llm_check_triggered = true
            /\ call_gpt_api candidates = AnswerInt gid))).
  { subst candidates.
    destruct (ranked a existing rules) as [| best others] eqn:Hranked.
    - unfold decide_group in Hdec. cbv zeta in Hdec.
      fold (ranked a existing rules) in Hdec. rewrite Hranked in Hdec.
      discriminate.
    - assert (Hbest : In (gs_group_id best)
                         (map gs_group_id (take 3 (best :: others))))
        by (cbn; now left).
      rewrite (decide_group_ranked _ _ _ _ _ _ Hranked) in Hdec.
      cbv zeta in Hdec.
      destruct (Py.Qleb (dynamic_threshold best) (score best)) eqn:Habove;
        cbn [andb] in Hdec;
        repeat match type of Hdec with
               | context [if ?b then _ else _] => destruct b eqn:?
               | context [match call_gpt_api ?c with _ => _ end] =>
                   destruct (call_gpt_api c) eqn:?
               end;
        try discriminate;
        try (injection Hdec as <- _; split; [exact Hbest |]; left;
             exists best, others; now repeat split).
      all: injection Hdec as <- <-.
      all: match goal with
           | H : bool_decide (_ ∈ _) = true |- _ =>
               apply bool_decide_eq_true_1, list_elem_of_In in H
           end.
      all: split; [assumption | right; now split]. }
  destruct Hcore as [Hin Hwhy].
  split; [exact Hin |]. split; [| split; [exact Hwhy |]].
  - apply in_map_iff in Hin as (gs & <- & Hin).
    apply take_In in Hin. now apply (ranked_In a existing rules).
  - intros n _ Hout ->. contradiction.
Qed.

(** Two groups with the same signature score alike, so the model is asked;
    it names a group 99 that is no candidate, and the article goes to the
    best-scoring group, whose score reaches its threshold. *)
Lemma decide_group_attaches_to_candidate_witness :
  decide_group (fun _ => AnswerInt 99) Scenario.acme_article
    [(Scenario.acme_dict, Scenario.acme_group);
     (mkGroupDict 8 "Cybersecurity & Data Privacy" "Exploits" "More"
                  [102; 103]%Z,
      Scenario.acme_group)]
    DYNAMIC_THRESHOLD_RULES
  = (add_to_existing 7%Z, true)
  /\ In 7%Z
       (map gs_group_id
          (take 3 (ranked Scenario.acme_article
                     [(Scenario.acme_dict, Scenario.acme_group);
                      (mkGroupDict 8 "Cybersecurity & Data Privacy"
                                   "Exploits" "More" [102; 103]%Z,
                       Scenario.acme_group)]
                     DYNAMIC_THRESHOLD_RULES)))
  /\ 7%Z <> 99%Z.
Proof.
  assert (Hdec : decide_group (fun _ => AnswerInt 99) Scenario.acme_article
                   [(Scenario.acme_dict, Scenario.acme_group);
                    (mkGroupDict 8 "Cybersecurity & Data Privacy" "Exploits"
                                 "More" [102; 103]%Z,
                     Scenario.acme_group)]
                   DYNAMIC_THRESHOLD_RULES
                 = (add_to_existing 7%Z, true))
    by (vm_compute; reflexivity).
  pose proof (decide_group_attaches_to_candidate
                (fun _ => AnswerInt 99) Scenario.acme_article
                [(Scenario.acme_dict, Scenario.acme_group);
                 (mkGroupDict 8 "Cybersecurity & Data Privacy" "Exploits"
                              "More" [102; 103]%Z,
                  Scenario.acme_group)]
                DYNAMIC_THRESHOLD_RULES 7%Z true Hdec) as P.
  split; [exact Hdec |]. split; [exact (proj1 P) |].
  apply (proj2 (proj2 (proj2 P)) 99%Z); [reflexivity |].
  vm_compute. intros [H | [H | H]]; [discriminate | discriminate | exact H].
Defined.

Lemma decide_group_fallback call_gpt_api a existing rules :
  (forall candidates,
      no_verdict (call_gpt_api candidates) (map gs_group_id candidates)) ->
  fst (decide_group call_gpt_api a existing rules)
  = threshold_verdict (ranked a existing rules).
Proof.
  intros Hllm.
  destruct (ranked a existing rules) as [| best others] eqn:Hranked.
  - unfold decide_group. cbv zeta. fold (ranked a existing rules).
    now rewrite Hranked.
  - rewrite (decide_group_ranked _ _ _ _ _ _ Hranked). cbv zeta.
    cbn [threshold_verdict].
    specialize (Hllm (take 3 (best :: others))).
    destruct (Py.Qleb (dynamic_threshold best) (score best)) eqn:Habove;
      cbn [andb orb negb].
    + match goal with
      | |- context [if negb ?z then _ else _] => destruct z eqn:Hzone
      end; cbn [negb]; [| reflexivity].
      destruct (call_gpt_api _) as [| n | |]; cbn [no_verdict] in Hllm;
        try contradiction; try reflexivity.
      now rewrite (bool_decide_eq_false_2 _ Hllm).
    + rewrite orb_false_r.
      match goal with
      | |- context [if ?z then _ else _] => destruct z eqn:Hzone
      end; [| reflexivity].
      destruct (call_gpt_api _) as [| n | |]; cbn [no_verdict] in Hllm;
        try contradiction; try reflexivity.
      now rewrite (bool_decide_eq_false_2 _ Hllm).
Qed.

(** X6.  When the language model gives no usable answer (none, an
    unparsable one, or an id outside the candidates), the ambiguity zone has
    no effect on the outcome: the article is attached to the best-scoring
    group if its score reaches that group's threshold, and a new group is
    created otherwise. *)
Theorem decide_group_without_verdict call_gpt_api a existing rules :
  (forall candidates,
      no_verdict (call_gpt_api candidates) (map gs_group_id candidates)) ->
  fst (decide_group call_gpt_api a existing rules)
  = match ranked a existing rules with
    | [] => create_new
    | best :: _ =>
        if Py.Qleb (dynamic_threshold best) (score best)
        then add_to_existing (gs_group_id best)
        else create_new
    end.
Proof. exact (decide_group_fallback call_gpt_api a existing rules). Qed.

Lemma decide_group_without_verdict_witness :
  fst (decide_group (fun _ => AnswerUnparsable) Scenario.bare_article
                    [(Scenario.acme_dict, Scenario.acme_group)]
                    Scenario.low_rules)
  = add_to_existing 7.
Proof.
  apply (decide_group_without_verdict
           (fun _ => AnswerUnparsable) Scenario.bare_article
           [(Scenario.acme_dict, Scenario.acme_group)] Scenario.low_rules).
  intros candidates. exact I.
Defined.
Lemma dynamic_threshold_ignores_base
  (group_dict : GroupDict) (b b' : Q) rules :
  _calculate_dynamic_threshold group_dict b (with_base b' rules)
  = _calculate_dynamic_threshold group_dict b rules.
Proof. reflexivity. Qed.

Lemma group_scores_raised a existing rules (b1 b2 : Q) :
  b1 <= b2 ->
  Forall2 raised (group_scores_of a existing (with_base b1 rules))
                 (group_scores_of a existing (with_base b2 rules)).
Proof.
  intros Hb. unfold group_scores_of. cbv zeta.
  induction existing as [| gd existing IH]; cbn [flat_map];
    [constructor |].
  destruct (Py.nonempty (article_ids (fst gd))); [| exact IH].
  cbn [app]. constructor; [| exact IH].
  unfold raised. cbn [gs_group_id score dynamic_threshold base with_base].
  cbn [default from_option].
  split; [reflexivity |]. split; [reflexivity |].
  rewrite !dynamic_threshold_ignores_base.
  now apply dynamic_threshold_monotone.
Qed.

Lemma insert_desc_raised (x1 x2 : GroupScore) (l1 l2 : list GroupScore) :
  raised x1 x2 -> Forall2 raised l1 l2 ->
  Forall2 raised (Py.insert_desc score x1 l1) (Py.insert_desc score x2 l2).
Proof.
  intros Hx Hl. induction Hl as [| y1 y2 l1 l2 Hy Hl IH];
    cbn [Py.insert_desc].
  - constructor; [exact Hx | constructor].
  - assert (Hxs : score x1 = score x2) by apply Hx.
    assert (Hys : score y1 = score y2) by apply Hy.
    rewrite <- Hxs, <- Hys.
    destruct (Py.Qltb (score y1) (score x1)).
    + constructor; [exact Hx |].
      constructor; [exact Hy | exact Hl].
    + constructor; [exact Hy | apply IH].
Qed.

Lemma sorted_desc_raised (l1 l2 : list GroupScore) :
  Forall2 raised l1 l2 ->
  Forall2 raised (Py.sorted_desc score l1) (Py.sorted_desc score l2).
Proof.
  unfold Py.sorted_desc. intros Hl.
  assert (Hacc : Forall2 raised (@nil GroupScore) (@nil GroupScore))
    by constructor.
  revert Hacc. generalize (@nil GroupScore) at 1 3.
  generalize (@nil GroupScore).
  induction Hl as [| x1 x2 l1 l2 Hx Hl IH]; intros acc2 acc1 Hacc;
    cbn [fold_left]; [exact Hacc |].
  apply IH. now apply insert_desc_raised.
Qed.

(** X7.  Threshold monotonicity without arbitration: when the language
    model gives no usable answer, raising the base threshold of the rules
    either leaves the decision as it was or turns it into "create new"; it
    never turns "create new" into an attachment, nor changes the group an
    article is attached to. *)
Theorem raising_base_never_attaches
  (llm1 llm2 : list GroupScore -> LlmAnswer) a existing rules (b1 b2 : Q) :
  b1 <= b2 ->
  (forall candidates,
      no_verdict (llm1 candidates) (map gs_group_id candidates)) ->
  (forall candidates,
      no_verdict (llm2 candidates) (map gs_group_id candidates)) ->
  fst (decide_group llm2 a existing (with_base b2 rules)) = create_new
  \/ fst (decide_group llm2 a existing (with_base b2 rules))
     = fst (decide_group llm1 a existing (with_base b1 rules)).
Proof.
  intros Hb H1 H2.
  rewrite (decide_group_fallback llm1 _ _ _ H1),
    (decide_group_fallback llm2 _ _ _ H2).
  pose proof (sorted_desc_raised _ _ (group_scores_raised a existing rules
                                         b1 b2 Hb)) as Hranked.
  fold (ranked a existing (with_base b1 rules)) in Hranked.
  fold (ranked a existing (with_base b2 rules)) in Hranked.
  destruct Hranked as [| best1 best2 l1 l2 (Hid & Hscore & Hthr) _];
    cbn [threshold_verdict]; [now left |].
  destruct (Qleb_cases (dynamic_threshold best2) (score best2))
    as [[E2 Hle2] | [E2 _]]; rewrite E2; [right | now left].
  destruct (Qleb_cases (dynamic_threshold best1) (score best1))
    as [[E1 _] | [E1 Hlt1]]; rewrite E1.
  - now rewrite Hid.
  - rewrite Hscore in Hlt1. lra.
Qed.

Lemma raising_base_never_attaches_witness :
  fst (decide_group (fun _ => NoAnswer) Scenario.bare_article
                    [(Scenario.acme_dict, Scenario.acme_group)]
                    (with_base 0.40 Scenario.low_rules)) = create_new
  \/ fst (decide_group (fun _ => NoAnswer) Scenario.bare_article
                       [(Scenario.acme_dict, Scenario.acme_group)]
                       (with_base 0.40 Scenario.low_rules))
     = fst (decide_group (fun _ => NoAnswer) Scenario.bare_article
                         [(Scenario.acme_dict, Scenario.acme_group)]
                         (with_base 0.10 Scenario.low_rules)).
Proof.
  apply (raising_base_never_attaches
           (fun _ => NoAnswer) (fun _ => NoAnswer) Scenario.bare_article
           [(Scenario.acme_dict, Scenario.acme_group)] Scenario.low_rules
           0.10 0.40).
  - lra.
  - intros candidates. exact I.
  - intros candidates. exact I.
Defined.

Lemma insert_desc_descending {A} (key : A -> Q) (x : A) (l : list A) :
  descending key l -> descending key (Py.insert_desc key x l).
Proof.
  induction l as [| y t IH]; cbn [Py.insert_desc descending].
  - intros _. split; [constructor | exact I].
  - intros [Hy Ht].
    destruct (Qltb_cases (key y) (key x)) as [[E H] | [E H]]; rewrite E;
      cbn [descending].
    + split; [| now split].
      constructor; [lra |].
      eapply Forall_impl; [exact Hy |]. cbn beta. intros z Hz. lra.
    + split; [| now apply IH].
      now apply insert_desc_Forall.
Qed.

Lemma sorted_desc_descending {A} (key : A -> Q) (l : list A) :
  descending key (Py.sorted_desc key l).
Proof.
  unfold Py.sorted_desc.
  assert (Hacc : descending key (@nil A)) by exact I.
  revert Hacc. generalize (@nil A).
  induction l as [| x l IH]; intros acc Hacc; cbn [fold_left];
    [exact Hacc |].
  apply IH. now apply insert_desc_descending.
Qed.

(** X8.  An article is attached without consulting the language model only
    to the group with the highest score, and only when that score exceeds
    the group's threshold by at least 0.05 and every other candidate's
    score by at least 0.08. *)
Theorem attach_without_arbitration_is_clear
  call_gpt_api a existing rules (gid : Z) :
  decide_group call_gpt_api a existing rules = (add_to_existing gid, false) ->
  exists best others,
    ranked a existing rules = best :: others
    /\ gs_group_id best = gid
    /\ dynamic_threshold best + 0.05 <= score best
    /\ Forall (fun other => score other + 0.08 <= score best) others.
Proof.
  intros Hdec.
  destruct (ranked a existing rules) as [| best others] eqn:Hranked.
  - unfold decide_group in Hdec. cbv zeta in Hdec.
    fold (ranked a existing rules) in Hdec. rewrite Hranked in Hdec.
    discriminate.
  - pose proof (sorted_desc_descending score
                  (group_scores_of a existing rules)) as Hdesc.
    fold (ranked a existing rules) in Hdesc. rewrite Hranked in Hdesc.
    rewrite (decide_group_ranked _ _ _ _ _ _ Hranked) in Hdec.
    cbv zeta in Hdec.
    exists best, others. split; [reflexivity |].
    destruct (Qleb_cases (dynamic_threshold best) (score best))
      as [[Ea Ha] | [Ea _]]; rewrite Ea in Hdec; cbn [andb] in Hdec.
    2: { match type of Hdec with
         | context [if ?z then _ else _] => destruct z
         end; [| discriminate].
         destruct (call_gpt_api _);
           repeat match type of Hdec with
                  | context [if ?b then _ else _] => destruct b
                  end; discriminate. }
    match type of Hdec with
    | context [if negb ?z then _ else _] => destruct z eqn:Hzone
    end; cbn [negb] in Hdec.
    { destruct (call_gpt_api _);
        repeat match type of Hdec with
               | context [if ?b then _ else _] => destruct b
               end; discriminate. }
    injection Hdec as Hgid. split; [exact Hgid |].
    apply orb_false_iff in Hzone as [Hz1 Hz2].
    unfold AMBIGUITY_ZONE_BELOW_THRESHOLD, AMBIGUITY_ZONE_ABOVE_THRESHOLD,
      MAX_SCORE_GAP_FOR_AMBIGUITY in *.
    destruct (Qleb_cases (dynamic_threshold best - 0.10) (score best))
      as [[E1 _] | [_ H1]]; [| lra].
    rewrite E1 in Hz1. cbn [andb] in Hz1.
    destruct (Qltb_cases (score best) (dynamic_threshold best + 0.05))
      as [[E2 _] | [_ H2]]; [congruence |].
    split; [exact H2 |].
    destruct others as [| second rest]; [constructor |].
    destruct (Qltb_cases (score best - score second) 0.08)
      as [[E3 _] | [_ H3]]; [congruence |].
    destruct Hdesc as [_ [Hsecond _]].
    constructor; [lra |].
    eapply Forall_impl; [exact Hsecond |]. cbn beta. intros z Hz. lra.
Qed.

Lemma attach_without_arbitration_is_clear_witness :
  exists best others,
    ranked Scenario.acme_article [(Scenario.acme_dict, Scenario.acme_group)]
           DYNAMIC_THRESHOLD_RULES = best :: others
    /\ gs_group_id best = 7%Z
    /\ dynamic_threshold best + 0.05 <= score best
    /\ Forall (fun other => score other + 0.08 <= score best) others.
Proof.
  apply (attach_without_arbitration_is_clear
           (fun _ => AnswerNone) Scenario.acme_article
           [(Scenario.acme_dict, Scenario.acme_group)]
           DYNAMIC_THRESHOLD_RULES 7%Z).
  reflexivity.
Defined.
End Decisions.

(** ** Group-to-group similarity *)

Section GroupScores.
Local Open Scope Q_scope.
Import Scorer GroupSimilarity.

Implicit Types (g ga gb : GroupSignature)
               (llm_score : GroupSignature -> GroupSignature -> option Q).

Lemma composite_in_unit_interval (a : ArticleSignature) g :
  0 <= composite_score (calculate_article_to_group_similarity a g) <= 1.
Proof.
  unfold calculate_article_to_group_similarity. cbn [composite_score].
  apply py_clamp_bounds. lra.
Qed.

Lemma as_article_None g : as_article g = None <-> has_company_or_cve g.
Proof.
  unfold as_article, has_company_or_cve.
  destruct (g_companies g), (g_cves g); cbn [Py.nonempty orb];
    split; try discriminate; try (now intros [H | H]); intros _;
    first [now left | now right].
Qed.

Lemma group_similarity_raises_on_companies_iff
  (api_key : bool) llm_score ga gb :
  _calculate_group_similarity api_key llm_score ga gb = None
  <-> has_company_or_cve ga \/ has_company_or_cve gb.
Proof.
  unfold _calculate_group_similarity. rewrite <- !as_article_None.
  destruct (as_article ga), (as_article gb); split;
    try discriminate; try tauto; intros [H | H]; discriminate.
Qed.

Lemma py_set_names (names : list string) :
  py_set (map Name names) = Some names.
Proof.
  unfold py_set.
  assert (Hall : forallb hashable (map Name names) = true)
    by (induction names as [| n names IH]; cbn; [reflexivity | exact IH]).
  rewrite Hall. f_equal.
  induction names as [| n names IH]; cbn; [reflexivity |].
  cbn in IH. now rewrite IH.
Qed.

Lemma py_set_dictionaries (items : list Counted) :
  py_set (map Dictionary items)
  = match items with [] => Some [] | _ :: _ => None end.
Proof. now destruct items. Qed.

(** X9.  [set(...)] over the companies or the CVEs of a signature raises
    TypeError when an element is a dictionary.  On an article signature,
    whose companies and CVEs are names, the scorer therefore never raises;
    on a group signature read in the article's place, whose companies and
    CVEs are dictionaries, it raises exactly when one of the two lists is
    not empty, and else it computes what it computes on the signature that
    [as_article] gives.  Hence comparing two group signatures raises
    exactly when one of them carries a company or a CVE entry. *)
Theorem group_similarity_raises_on_companies
  (api_key : bool) llm_score ga gb :
  (forall a g,
      calculate_raw (of_article a) g
      = Some (calculate_article_to_group_similarity a g))
  /\ (calculate_raw (of_group ga) gb = None <-> has_company_or_cve ga)
  /\ calculate_raw (of_group ga) gb
     = (fun a => calculate_article_to_group_similarity a gb)
         <$> as_article ga
  /\ (_calculate_group_similarity api_key llm_score ga gb = None
      <-> has_company_or_cve ga \/ has_company_or_cve gb).
Proof.
  split; [| split; [| split]].
  - intros a g. unfold calculate_raw, of_article.
    cbn [raw_companies raw_cves raw_id raw_published_date raw_source
         raw_primary_entities raw_events].
    rewrite !py_set_names. now destruct a.
  - unfold calculate_raw, of_group, has_company_or_cve.
    cbn [raw_companies raw_cves]. rewrite !py_set_dictionaries.
    destruct (g_companies ga), (g_cves ga); split;
      try discriminate; try reflexivity;
      try (intros [H | H]; congruence);
      intros _; first [now left | now right].
  - unfold calculate_raw, of_group, as_article.
    cbn [raw_companies raw_cves raw_id raw_published_date raw_source
         raw_primary_entities raw_events].
    rewrite !py_set_dictionaries.
    destruct (g_companies ga), (g_cves ga); reflexivity.
  - apply group_similarity_raises_on_companies_iff.
Qed.

(** X10.  When it does not raise, the group similarity is at least 0; it is
    at most 0.7 when the language model is not asked or its answer cannot be
    read, and at most 1 when its rating is at most 1. *)
Theorem group_similarity_bounds (api_key : bool) llm_score ga gb (sim : Q) :
  _calculate_group_similarity api_key llm_score ga gb = Some sim ->
  let rating := label_desc_similarity api_key llm_score ga gb in
  (0 <= rating -> 0 <= sim)
  /\ sim <= 0.7 + 0.3 * rating
  /\ (llm_score ga gb = None -> 0 <= sim <= 0.7)
  /\ (api_key = false -> 0 <= sim <= 0.7).
Proof.
  unfold _calculate_group_similarity.
  destruct (as_article ga) as [aa |], (as_article gb) as [ab |];
    try discriminate.
  intros Hsim. apply (inj Some) in Hsim. subst sim.
  set (rating := label_desc_similarity api_key llm_score ga gb).
  pose proof (composite_in_unit_interval aa gb) as [Ha0 Ha1].
  pose proof (composite_in_unit_interval ab ga) as [Hb0 Hb1].
  set (sab := composite_score (calculate_article_to_group_similarity aa gb))
    in *.
  set (sba := composite_score (calculate_article_to_group_similarity ab ga))
    in *.
  unfold Qdiv. change (/ 2.0) with (10 # 20).
  assert (Hnone : llm_score ga gb = None -> rating == 0).
  { intros E. unfold rating, label_desc_similarity. rewrite E.
    now destruct (_ && _). }
  assert (Hkey : api_key = false -> rating == 0).
  { intros E. unfold rating, label_desc_similarity. now rewrite E. }
  split; [intros Hr; lra |]. split; [lra |].
  split; intros E; [specialize (Hnone E) | specialize (Hkey E)]; split; lra.
Qed.

Lemma group_similarity_bounds_witness :
  0 <= default 0 (_calculate_group_similarity false (fun _ _ => None)
                                              launch_a launch_b) <= 0.7.
Proof.
  destruct (_calculate_group_similarity false (fun _ _ => None)
                                        launch_a launch_b) as [sim |] eqn:E;
    cbn [default from_option]; [| lra].
  now apply (group_similarity_bounds false (fun _ _ => None)
               launch_a launch_b sim E).
Defined.

(** X11.  The group similarity does not depend on the order of the two
    groups when the rating of the language model does not. *)
Theorem group_similarity_symmetric
  (api_key : bool) llm_score ga gb (sim_ab sim_ba : Q) :
  llm_score ga gb = llm_score gb ga ->
  _calculate_group_similarity api_key llm_score ga gb = Some sim_ab ->
  _calculate_group_similarity api_key llm_score gb ga = Some sim_ba ->
  sim_ab == sim_ba.
Proof.
  unfold _calculate_group_similarity, label_desc_similarity. intros Hllm.
  destruct (as_article ga) as [aa |], (as_article gb) as [ab |];
    try discriminate.
  intros Hab Hba. apply (inj Some) in Hab, Hba. subst sim_ab sim_ba.
  rewrite Hllm.
  generalize (composite_score (calculate_article_to_group_similarity aa gb)),
    (composite_score (calculate_article_to_group_similarity ab ga)),
    (default 0.0 (llm_score gb ga)).
  intros sab sba rating.
  destruct api_key, (Py.truthy (description ga)),
    (Py.truthy (description gb)); cbn [andb]; unfold Qdiv; ring.
Qed.

Lemma group_similarity_symmetric_witness :
  default 0 (_calculate_group_similarity false (fun _ _ => None)
                                         launch_a launch_b)
  == default 0 (_calculate_group_similarity false (fun _ _ => None)
                                            launch_b launch_a).
Proof.
  destruct (_calculate_group_similarity false (fun _ _ => None)
                                        launch_a launch_b) as [x |] eqn:Eab;
    [| vm_compute in Eab; discriminate].
  destruct (_calculate_group_similarity false (fun _ _ => None)
                                        launch_b launch_a) as [y |] eqn:Eba;
    [| vm_compute in Eba; discriminate].
  cbn [default from_option].
  now apply (group_similarity_symmetric false (fun _ _ => None)
               launch_a launch_b x y eq_refl Eab Eba).
Defined.
End GroupScores.

(** ** The merge pass over scored groups *)

Section MergeWork.
Import Merger.
Local Open Scope Z_scope.

Variable generate_group_signature : Grouping.GroupDict -> Scorer.GroupSignature.
Variable similarity : Scorer.GroupSignature -> Scorer.GroupSignature -> option Q.
Variable merge_transaction : Z -> Z -> Transaction.
Variable merge_threshold : Q.

Lemma groups_with_signatures_length (groups : list Grouping.GroupDict) :
  (length (groups_with_signatures generate_group_signature groups)
   <= length groups)%nat.
Proof.
  unfold groups_with_signatures. rewrite length_map. apply List.filter_length_le.
Qed.

(** Each run of the inner loop makes at most one attempt to merge. *)
Lemma compare_with_attempts (group_a : Group) (rest : list Group) (st : State) :
  (merged_pairs_count
     (state_of (compare_with similarity merge_transaction merge_threshold
                             group_a rest st))
   + errors (state_of (compare_with similarity merge_transaction merge_threshold
                                    group_a rest st))
   <= merged_pairs_count st + errors st + 1)%nat.
Proof.
  induction rest as [| group_b rest IH]; cbn [compare_with state_of]; [lia |].
  cbv zeta. destruct (bool_decide _ || bool_decide _); [exact IH |].
  destruct (similarity _ _) as [sim |]; cbn [state_of]; [| lia].
  destruct (Py.Qleb merge_threshold sim); [| exact IH].
  unfold choose_survivor. cbv zeta.
  destruct (merge_transaction _ _);
    cbn [state_of merged_pairs_count errors]; lia.
Qed.

Lemma compare_pairs_attempts (groups : list Group) (st : State) :
  (merged_pairs_count
     (state_of (compare_pairs similarity merge_transaction merge_threshold
                              groups st))
   + errors (state_of (compare_pairs similarity merge_transaction merge_threshold
                                     groups st))
   <= merged_pairs_count st + errors st + length groups)%nat.
Proof.
  revert st. induction groups as [| group_a rest IH]; intros st;
    cbn [compare_pairs state_of length]; [lia |].
  pose proof (compare_with_attempts group_a rest st) as Hstep.
  destruct (compare_with _ _ _ group_a rest st) as [st' | st'];
    cbn [state_of] in *; [| lia].
  specialize (IH st'). lia.
Qed.

(** The ids in the log are ids of the groups compared. *)
Lemma compare_with_participants (ids : list Z) (group_a : Group)
                                (rest : list Group) (st : State) :
  In (id_of group_a) ids ->
  (forall b, In b rest -> In (id_of b) ids) ->
  (forall x, In x (participants (merges st)) -> In x ids) ->
  forall x,
    In x (participants
            (merges (state_of (compare_with similarity merge_transaction
                                 merge_threshold group_a rest st)))) ->
    In x ids.
Proof.
  intros Ha Hrest Hst.
  induction rest as [| group_b rest IH]; cbn [compare_with state_of];
    [exact Hst |].
  assert (Hrest' : forall b, In b rest -> In (id_of b) ids)
    by (intros b Hb; apply Hrest; now right).
  cbv zeta. destruct (bool_decide _ || bool_decide _); [now apply IH |].
  destruct (similarity _ _) as [sim |]; cbn [state_of]; [| exact Hst].
  destruct (Py.Qleb merge_threshold sim); [| now apply IH].
  unfold choose_survivor. cbv zeta.
  destruct (merge_transaction _ _); cbn [state_of merges];
    [| exact Hst | exact Hst].
  intros x Hx. unfold participants in Hx. rewrite flat_map_app in Hx.
  apply in_app_iff in Hx as [Hx | Hx]; [now apply Hst |].
  cbn [flat_map fst snd app] in Hx.
  destruct Hx as [<- | [<- | []]]; [exact Ha | apply Hrest; now left].
Qed.

Lemma compare_pairs_participants (ids : list Z) (groups : list Group)
                                 (st : State) :
  (forall g, In g groups -> In (id_of g) ids) ->
  (forall x, In x (participants (merges st)) -> In x ids) ->
  forall x,
    In x (participants
            (merges (state_of (compare_pairs similarity merge_transaction
                                 merge_threshold groups st)))) ->
    In x ids.
Proof.
  revert st. induction groups as [| group_a rest IH]; intros st Hgroups Hst;
    cbn [compare_pairs state_of]; [exact Hst |].
  pose proof (compare_with_participants ids group_a rest st
                (Hgroups _ (or_introl eq_refl))
                (fun b Hb => Hgroups b (or_intror Hb)) Hst) as Hstep.
  destruct (compare_with _ _ _ group_a rest st) as [st' | st'];
    cbn [state_of] in *; [| exact Hstep].
  apply IH; [| exact Hstep]. intros g Hg. apply Hgroups. now right.
Qed.

Lemma participants_length (ms : list (Z * Z)) :
  length (participants ms) = (2 * length ms)%nat.
Proof.
  induction ms as [| m ms IH]; cbn [participants flat_map length app];
    [reflexivity |].
  change (flat_map (fun m0 => [fst m0; snd m0]) ms) with (participants ms).
  lia.
Qed.


End MergeWork.

Section MergeOutcome.
Import Merger GroupSimilarity.
Local Open Scope Z_scope.

(** X12.  One pass makes at most one merge attempt per group with
    articles, committed or failed; and since a merge takes two groups that
    took part in no other, it merges at most half of them. *)
Theorem merge_pass_work_bound
  (generate_group_signature : Grouping.GroupDict -> Scorer.GroupSignature)
  (similarity : Scorer.GroupSignature -> Scorer.GroupSignature -> option Q)
  (merge_transaction : Z -> Z -> Transaction) (merge_threshold : Q)
  (groups : list Grouping.GroupDict) :
  List.NoDup (map Grouping.gd_group_id groups) ->
  let st := state_of (merge_similar_groups generate_group_signature
                        similarity merge_transaction merge_threshold groups) in
  let with_articles :=
    List.filter (fun g => Py.nonempty (Grouping.article_ids g)) groups in
  (merged_pairs_count st + errors st <= length with_articles)%nat
  /\ (2 * merged_pairs_count st <= length with_articles)%nat.
Proof.
  intros Hnd st with_articles.
  assert (Hlen : length (groups_with_signatures generate_group_signature groups)
                 = length with_articles)
    by (unfold groups_with_signatures; apply length_map).
  destruct (merge_similar_groups_consistent generate_group_signature
              similarity merge_transaction merge_threshold groups Hnd)
    as (Hlog & _ & Hcount).
  fold st in Hlog, Hcount.
  split.
  - subst st. unfold merge_similar_groups.
    destruct (length groups <? 2)%nat; [cbn; lia |].
    pose proof (compare_pairs_attempts similarity merge_transaction merge_threshold
                  (groups_with_signatures generate_group_signature groups)
                  initial) as H.
    cbn [initial merged_pairs_count errors] in H. lia.
  - rewrite Hcount, <- participants_length, <- Hlen.
    rewrite <- (length_map id_of).
    apply List.NoDup_incl_length; [exact Hlog |].
    intros x Hx. subst st. unfold merge_similar_groups in Hx.
    destruct (length groups <? 2)%nat; [destruct Hx |].
    revert x Hx. apply compare_pairs_participants.
    + intros g Hg. now apply in_map.
    + intros x [].
Qed.

Lemma merge_pass_work_bound_witness :
  (2 * merged_pairs_count
         (state_of (merge_similar_groups Scenario.bare_signature
                      (fun _ _ => Some 0.72%Q) (fun _ _ => Committed) 0.60%Q
                      [Scenario.small_group; Scenario.large_group;
                       Grouping.mkGroupDict 3%Z "Other" "" "" [30%Z]]))
   <= 3)%nat.
Proof.
  apply (merge_pass_work_bound Scenario.bare_signature
           (fun _ _ => Some 0.72%Q) (fun _ _ => Committed) 0.60%Q
           [Scenario.small_group; Scenario.large_group;
            Grouping.mkGroupDict 3%Z "Other" "" "" [30%Z]]).
  repeat constructor; cbn; intuition discriminate.
Defined.

(** X13.  With the similarity of the code, a pass over at least two groups
    with articles stops with an exception before any merge when the
    signature of the first or of the second of them carries a company or a
    CVE entry. *)
Theorem merge_pass_raises_on_companies
  (generate_group_signature : Grouping.GroupDict -> Scorer.GroupSignature)
  (api_key : bool)
  (llm_score : Scorer.GroupSignature -> Scorer.GroupSignature -> option Q)
  (merge_transaction : Z -> Z -> Transaction) (merge_threshold : Q)
  (groups : list Grouping.GroupDict) (g1 g2 : Group) (rest : list Group) :
  groups_with_signatures generate_group_signature groups = g1 :: g2 :: rest ->
  has_company_or_cve (snd g1) \/ has_company_or_cve (snd g2) ->
  merge_similar_groups generate_group_signature
    (_calculate_group_similarity api_key llm_score)
    merge_transaction merge_threshold groups
  = Raised initial.
Proof.
  intros Hgroups Hcompany. unfold merge_similar_groups.
  pose proof (groups_with_signatures_length generate_group_signature groups)
    as Hlen.
  rewrite Hgroups in *. cbn [length] in Hlen.
  destruct (Nat.ltb_spec (length groups) 2) as [Hlt | _]; [lia |].
  cbn [compare_pairs compare_with]. cbv zeta.
  cbn [initial processed_group_ids].
  rewrite !bool_decide_eq_false_2 by set_solver. cbn [orb].
  now rewrite (proj2 (group_similarity_raises_on_companies_iff
                        api_key llm_score (snd g1) (snd g2)) Hcompany).
Qed.
Lemma merge_pass_raises_on_companies_witness :
  merge_similar_groups (fun _ => Scenario.acme_group)
    (_calculate_group_similarity false (fun _ _ => None))
    (fun _ _ => Committed) 0.60%Q [Scenario.small_group; Scenario.large_group]
  = Raised initial.
Proof.
  apply (merge_pass_raises_on_companies (fun _ => Scenario.acme_group)
           false (fun _ _ => None) (fun _ _ => Committed) 0.60%Q
           [Scenario.small_group; Scenario.large_group]
           (Scenario.small_group, Scenario.acme_group)
           (Scenario.large_group, Scenario.acme_group) []).
  - reflexivity.
  - left. left. discriminate.
Defined.



End MergeOutcome.

(** ** Link tables *)

Section LinkTables.
Import Links.
Local Open Scope Z_scope.




















End LinkTables.

(** ** Entity table invariants *)

Section EntityTableInvariant.
Import Entities EntityTable.
Local Open Scope Z_scope.




Lemma select_entity_named (name type : option string) (db : Db)
                          (r : EntityProfile) :
  select_entity name type db = Some r ->
  name = Some (entity_name r) /\ type = Some (entity_type r)
  /\ In r (entity_profiles db).
Proof.
  unfold select_entity. destruct name as [n |], type as [t |];
    try discriminate.
  intros H. apply List.find_some in H as [Hin H].
  apply andb_true_iff in H as [Hn Ht].
  apply String.eqb_eq in Hn, Ht. subst. now repeat split.
Qed.







End EntityTableInvariant.

(** ** Founding a group *)

Section Founding.
Import Store NewGroup.
Local Open Scope Z_scope.

Lemma fold_max_bounds (seq : Z) (ids : list Z) :
  seq <= fold_right Z.max seq ids
  /\ List.Forall (fun id => id <= fold_right Z.max seq ids) ids.
Proof.
  induction ids as [| id ids [IHseq IHids]]; cbn [fold_right].
  - split; [lia | apply List.Forall_nil].
  - split; [lia |]. apply List.Forall_cons; [lia |].
    apply (List.Forall_impl _ (P := fun id' => id' <= fold_right Z.max seq ids));
      [intros id' Hle; lia | exact IHids].
Qed.

(** AUTOINCREMENT never reuses an id. *)
Lemma next_rowid_fresh (db : Db) :
  sqlite_sequence db < next_rowid db
  /\ (forall r, In r (two_phase_article_groups db) ->
                r_group_id r < next_rowid db).
Proof.
  unfold next_rowid.
  destruct (fold_max_bounds (sqlite_sequence db)
              (map r_group_id (two_phase_article_groups db))) as [Hseq Hids].
  split; [lia |]. intros r Hin.
  apply (in_map r_group_id) in Hin.
  pose proof (proj1 (List.Forall_forall _ _) Hids _ Hin) as Hle.
  cbn beta in Hle. lia.
Qed.

Lemma normalise_topic_predefined (v : Json) :
  In (normalise_topic v) PREDEFINED_CATEGORIES.
Proof.
  assert (Hother : In "Other"%string PREDEFINED_CATEGORIES)
    by (unfold PREDEFINED_CATEGORIES; cbn; tauto).
  destruct v; cbn [normalise_topic]; try exact Hother.
  destruct (existsb (String.eqb s) PREDEFINED_CATEGORIES) eqn:E;
    [| exact Hother].
  apply existsb_exists in E as (c & Hin & Heq).
  apply String.eqb_eq in Heq. now subst.
Qed.

Lemma group_info_of_predefined (article_id : Z) (article_title : string)
                               (parsed : Parsed) (info : GroupInfo) :
  group_info_of article_id article_title parsed = Returned info ->
  In (gi_main_topic info) PREDEFINED_CATEGORIES.
Proof.
  unfold group_info_of. destruct parsed as [| v].
  - intros [= <-]. cbn. tauto.
  - destruct v; try discriminate. intros [= <-].
    apply normalise_topic_predefined.
Qed.

Lemma insert_group_lastrowid (info : GroupInfo) (db db1 : Db) (id : Z) :
  insert_group info db = lastrowid id db1 ->
  id = next_rowid db
  /\ db1 = mkDb (two_phase_article_groups db
                 ++ [mkGroupRow id (gi_main_topic info) ""
                                (gi_group_label info) (gi_description info)
                                0.7%Q])
                id (memberships db)
  /\ gi_group_label info <> JNull.
Proof.
  unfold insert_group.
  destruct (bind_parameter (gi_group_label info)); try discriminate.
  destruct (bind_parameter (gi_description info)); try discriminate.
  destruct (gi_group_label info) eqn:El; try discriminate;
    intros [= <- <-]; (split; [reflexivity |]; split; [reflexivity |]);
    discriminate.
Qed.

(** What [add_article_to_group] leaves for the article and for the others,
    on a table where no article has two rows. *)
Lemma add_article_to_group_rows (own : bool) (a g : Z) (c : Cursor) :
  at_most_one_group (table c) ->
  fst (add_article_to_group own a g c) = true
  /\ memberships_of a (table (snd (add_article_to_group own a g c)))
     = [(a, g)]
  /\ (forall b, b <> a ->
        memberships_of b (table (snd (add_article_to_group own a g c)))
        = memberships_of b (table c)).
Proof.
  intros Hinv. rewrite add_article_to_group_cases.
  pose proof (Hinv a) as Hone.
  destruct (memberships_of a (table c)) as [| r ms] eqn:Hms; cbn [head].
  - cbn [fst snd table]. split; [reflexivity |]. split.
    + rewrite memberships_of_app, Hms, memberships_of_row, Z.eqb_refl.
      reflexivity.
    + intros b Hb. rewrite memberships_of_app, memberships_of_row.
      destruct (Z.eqb_spec a b); [congruence | apply app_nil_r].
  - assert (Hr : fst r = a)
      by (apply (memberships_of_fst a (table c)); rewrite Hms; now left).
    destruct (Z.eqb_spec (snd r) g) as [Hg | Hg]; cbn [fst snd table].
    + split; [reflexivity |]. split; [| reflexivity].
      rewrite Hms. destruct ms; [| cbn [length] in Hone; lia].
      destruct r as [a' g']. cbn [fst snd] in *. now subst.
    + split; [reflexivity |]. split.
      * rewrite memberships_of_app, memberships_of_without_same,
          memberships_of_row, Z.eqb_refl. reflexivity.
      * intros b Hb. rewrite memberships_of_app, memberships_of_row.
        destruct (Z.eqb_spec a b); [congruence |].
        rewrite app_nil_r. now apply memberships_of_without_other.
Qed.


Lemma create_new_group_spec
  (article_id : Z) (article_title : string)
  (closest_groups_info : list NearMiss) (response : option string)
  (json_loads : string -> Parsed) (db : Db) :
  at_most_one_group (memberships db) ->
  let res := create_new_group_for_single_article
               article_id article_title closest_groups_info response
               json_loads db in
  match fst res with
  | Returned (Some g) =>
      In (ng_main_topic g) PREDEFINED_CATEGORIES
      /\ ng_article_ids g = [article_id]
      /\ sqlite_sequence db < ng_group_id g
      /\ (forall r, In r (two_phase_article_groups db) ->
                    r_group_id r < ng_group_id g)
      /\ (exists row,
            two_phase_article_groups (snd res)
            = two_phase_article_groups db ++ [row]
            /\ r_group_id row = ng_group_id g
            /\ r_main_topic row = ng_main_topic g
            /\ r_group_label row = ng_group_label g
            /\ r_group_label row <> JNull)
      /\ sqlite_sequence (snd res) = ng_group_id g
      /\ memberships_of article_id (memberships (snd res))
         = [(article_id, ng_group_id g)]
      /\ (forall b, b <> article_id ->
            memberships_of b (memberships (snd res))
            = memberships_of b (memberships db))
      /\ at_most_one_group (memberships (snd res))
  | Returned None | Raised _ => snd res = db
  end.
Proof.
  intros Hinv res. subst res. unfold create_new_group_for_single_article.
  destruct (prompt_context closest_groups_info); [| reflexivity].
  destruct response as [text |]; [| reflexivity].
  destruct (negb (Py.truthy text)); [reflexivity |].
  destruct (group_info_of article_id article_title (json_loads text))
    as [info | e] eqn:Hinfo; [| reflexivity].
  destruct (insert_group info db) as [id db1 | |] eqn:Hins;
    [| reflexivity | reflexivity].
  apply insert_group_lastrowid in Hins as (Hid & Hdb1 & Hlabel).
  assert (Hinv1 : at_most_one_group
                    (table (mkCursor (memberships db1) [])))
    by (subst db1; exact Hinv).
  destruct (add_article_to_group_rows false article_id id _ Hinv1)
    as (Hok & Hown & Hothers).
  pose proof (add_article_to_group_preserves false article_id id _ Hinv1)
    as Hkeep.
  rewrite Hok. cbn [fst snd ng_main_topic ng_article_ids ng_group_id
                    ng_group_label two_phase_article_groups sqlite_sequence
                    memberships].
  destruct (next_rowid_fresh db) as [Hseq Hids].
  split; [exact (group_info_of_predefined _ _ _ _ Hinfo) |].
  split; [reflexivity |].
  split; [now rewrite Hid |].
  split; [intros r Hin; rewrite Hid; now apply Hids |].
  split.
  { eexists. rewrite Hdb1 at 1. cbn [two_phase_article_groups].
    split; [reflexivity |]. split; [reflexivity |].
    split; [reflexivity |]. split; [reflexivity | exact Hlabel]. }
  split; [now rewrite Hdb1 |].
  split; [exact Hown |].
  split; [| exact Hkeep].
  intros b Hb. rewrite (Hothers b Hb). now rewrite Hdb1.
Qed.

(** X18.  [create_new_group_for_single_article] on a database where no
    article has two membership rows.  When it returns a group, the group's
    main topic is one of PREDEFINED_CATEGORIES whatever the model answered,
    its article list is the article alone, its id is new (above the
    AUTOINCREMENT counter and above every stored group id), the groups
    table has gained exactly the row of that id, topic and label, with a
    label that is not NULL, the article's only membership row is the one in
    the new group (a membership it had elsewhere is gone), the rows of the
    other articles are as before and still no article has two rows.  When
    it returns None or raises, nothing was written. *)
Theorem create_new_group_postcondition
  (article_id : Z) (article_title : string)
  (closest_groups_info : list NearMiss) (response : option string)
  (json_loads : string -> Parsed) (db : Db) :
  at_most_one_group (memberships db) ->
  let res := create_new_group_for_single_article
               article_id article_title closest_groups_info response
               json_loads db in
  match fst res with
  | Returned (Some g) =>
      In (ng_main_topic g) PREDEFINED_CATEGORIES
      /\ ng_article_ids g = [article_id]
      /\ sqlite_sequence db < ng_group_id g
      /\ (forall r, In r (two_phase_article_groups db) ->
                    r_group_id r < ng_group_id g)
      /\ (exists row,
            two_phase_article_groups (snd res)
            = two_phase_article_groups db ++ [row]
            /\ r_group_id row = ng_group_id g
            /\ r_main_topic row = ng_main_topic g
            /\ r_group_label row = ng_group_label g
            /\ r_group_label row <> JNull)
      /\ sqlite_sequence (snd res) = ng_group_id g
      /\ memberships_of article_id (memberships (snd res))
         = [(article_id, ng_group_id g)]
      /\ (forall b, b <> article_id ->
            memberships_of b (memberships (snd res))
            = memberships_of b (memberships db))
      /\ at_most_one_group (memberships (snd res))
  | Returned None | Raised _ => snd res = db
  end.
Proof. apply create_new_group_spec. Qed.

Lemma create_new_group_postcondition_witness :
  memberships_of 10
    (memberships
       (snd (create_new_group_for_single_article
               10 "Title" [] (Some "{}"%string) sample_loads sample_db)))
  = [(10, 2)].
Proof.
  assert (Hinv : at_most_one_group (memberships sample_db)).
  { intros b. unfold sample_db, memberships_of.
    cbn [memberships List.filter fst].
    destruct (10 =? b) eqn:E1, (11 =? b) eqn:E2; cbn [length]; lia. }
  pose proof (create_new_group_postcondition
                10 "Title" [] (Some "{}"%string) sample_loads sample_db Hinv)
    as P.
  exact (proj1 (proj2 (proj2 (proj2 (proj2 (proj2 (proj2 P))))))).
Defined.

(** *** Building the prompt *)


Lemma build_context_type_error (shown : list NearMiss) :
  (forall group_info, In group_info shown ->
                      slice_desc (desc group_info) <> Some DictSliceError) ->
  (exists group_info, In group_info shown
                      /\ slice_desc (desc group_info) <> None) ->
  build_context shown = Raised TypeError.
Proof.
  induction shown as [| g shown IH]; intros Hdict (bad & Hin & Hbad);
    [destruct Hin |].
  cbn [build_context].
  pose proof (Hdict g (or_introl eq_refl)) as Hg.
  destruct (slice_desc (desc g)) as [e |] eqn:E.
  - destruct (desc g); cbn [slice_desc] in E; try discriminate;
      injection E as <-; try reflexivity; congruence.
  - apply IH; [intros g' Hg'; apply Hdict; now right |].
    destruct Hin as [<- | Hin]; [congruence |]. now exists bad.
Qed.

Lemma prompt_context_raised (closest_groups_info : list NearMiss)
                            (e : Exception) :
  prompt_context closest_groups_info = Raised e ->
  e = TypeError \/ e = DictSliceError.
Proof.
  unfold prompt_context. generalize (firstn 2 closest_groups_info).
  intros shown. induction shown as [| g shown IH]; cbn [build_context];
    [discriminate |].
  destruct (desc g); cbn [slice_desc]; try exact IH;
    intros [= <-]; auto.
Qed.





End Founding.

(** ** Group signatures *)

Section GroupSignatures.
Import Py Scorer Stated GroupSig.
Local Open Scope Q_scope.

(** *** The counting dictionaries *)

Lemma incr_get_same (k : string) (d : list (string * nat)) :
  dict_get k (incr k d) = Some (S (default 0%nat (dict_get k d))).
Proof.
  induction d as [| [k0 n] t IH]; cbn [incr dict_get].
  - now rewrite String.eqb_refl.
  - destruct (String.eqb k0 k) eqn:E; cbn [dict_get]; rewrite E;
      [reflexivity | exact IH].
Qed.

Lemma incr_get_other (k k' : string) (d : list (string * nat)) :
  k' <> k -> dict_get k' (incr k d) = dict_get k' d.
Proof.
  intros Hne. induction d as [| [k0 n] t IH]; cbn [incr dict_get].
  - destruct (String.eqb_spec k k'); [congruence | reflexivity].
  - destruct (String.eqb_spec k0 k) as [-> | Hk0]; cbn [dict_get].
    + destruct (String.eqb_spec k k'); [congruence | reflexivity].
    + destruct (String.eqb k0 k'); [reflexivity | exact IH].
Qed.

Lemma incr_keys (k k' : string) (d : list (string * nat)) :
  In k' (map fst (incr k d)) -> k' = k \/ In k' (map fst d).
Proof.
  induction d as [| [k0 n] t IH]; cbn [incr map fst In].
  - intros [<- | []]. now left.
  - destruct (String.eqb k0 k); cbn [map fst In]; [tauto |].
    intros [<- | Hin]; [tauto |]. destruct (IH Hin); tauto.
Qed.

Lemma incr_keys_NoDup (k : string) (d : list (string * nat)) :
  List.NoDup (map fst d) -> List.NoDup (map fst (incr k d)).
Proof.
  induction d as [| [k0 n] t IH]; cbn [incr map fst]; intros Hnd.
  - constructor; [intros [] | constructor].
  - apply List.NoDup_cons_iff in Hnd as [Hfresh Hnd].
    destruct (String.eqb_spec k0 k) as [-> | Hk0]; cbn [map fst].
    + constructor; assumption.
    + constructor; [| now apply IH].
      intros Hin. apply incr_keys in Hin as [-> | Hin]; [congruence |].
      contradiction.
Qed.

Lemma incr_positive (k : string) (d : list (string * nat)) :
  List.Forall (fun item => (0 < snd item)%nat) d ->
  List.Forall (fun item => (0 < snd item)%nat) (incr k d).
Proof.
  induction d as [| [k0 n] t IH]; cbn [incr]; intros Hd.
  - apply List.Forall_cons; [cbn; lia | apply List.Forall_nil].
  - apply List.Forall_cons_iff in Hd as [Hn Ht].
    destruct (String.eqb k0 k); apply List.Forall_cons; cbn [snd] in *;
      auto; lia.
Qed.

Lemma dict_get_In (k : string) (c : nat) (d : list (string * nat)) :
  List.NoDup (map fst d) -> In (k, c) d -> dict_get k d = Some c.
Proof.
  induction d as [| [k0 n] t IH]; cbn [map fst dict_get]; intros Hnd Hin;
    [destruct Hin |].
  apply List.NoDup_cons_iff in Hnd as [Hfresh Hnd].
  destruct Hin as [[= -> ->] | Hin]; [now rewrite String.eqb_refl |].
  destruct (String.eqb_spec k0 k) as [-> | _]; [| now apply IH].
  exfalso. apply Hfresh. exact (in_map fst t (k, c) Hin).
Qed.

Lemma occurrences_cons (k x : string) (names : list string) :
  occurrences k (x :: names)
  = ((if String.eqb k x then 1 else 0) + occurrences k names)%nat.
Proof.
  unfold occurrences. cbn [List.filter].
  now destruct (String.eqb k x).
Qed.

Lemma count_fold (k : string) (names : list string)
                 (d : list (string * nat)) :
  default 0%nat (dict_get k (fold_left (fun d k => incr k d) names d))
  = (default 0%nat (dict_get k d) + occurrences k names)%nat.
Proof.
  revert d. induction names as [| x names IH]; intros d; cbn [fold_left].
  - unfold occurrences. cbn. lia.
  - rewrite IH, occurrences_cons.
    destruct (String.eqb_spec k x) as [<- | Hne].
    + rewrite incr_get_same. cbn. lia.
    + rewrite incr_get_other by exact Hne. cbn. lia.
Qed.

Lemma count_fold_invariant (names : list string) (d : list (string * nat)) :
  List.NoDup (map fst d) ->
  List.Forall (fun item => (0 < snd item)%nat) d ->
  List.NoDup (map fst (fold_left (fun d k => incr k d) names d))
  /\ List.Forall (fun item => (0 < snd item)%nat)
                 (fold_left (fun d k => incr k d) names d).
Proof.
  revert d. induction names as [| x names IH]; intros d Hnd Hpos;
    cbn [fold_left]; [now split |].
  apply IH; [now apply incr_keys_NoDup | now apply incr_positive].
Qed.

(** Every item of a counting dictionary carries the number of occurrences
    of its key, which is not zero. *)
Lemma count_all_spec (names : list string) (k : string) (c : nat) :
  In (k, c) (count_all names) ->
  c = occurrences k names /\ (0 < c)%nat.
Proof.
  intros Hin. unfold count_all in *.
  destruct (count_fold_invariant names [])
    as [Hnd Hpos]; [constructor | constructor |].
  split.
  - pose proof (count_fold k names []) as Hc.
    rewrite (dict_get_In k c _ Hnd Hin) in Hc. cbn in Hc. exact Hc.
  - exact (proj1 (List.Forall_forall _ _) Hpos (k, c) Hin).
Qed.

Lemma filter_flat_map_length {A B} (f : A -> list B) (p : B -> bool)
                             (l : list A) :
  (forall x, In x l -> (length (List.filter p (f x)) <= 1)%nat) ->
  (length (List.filter p (flat_map f l)) <= length l)%nat.
Proof.
  induction l as [| x l IH]; cbn [flat_map length]; intros H; [cbn; lia |].
  rewrite List.filter_app, length_app.
  pose proof (H x (or_introl eq_refl)).
  assert ((length (List.filter p (flat_map f l)) <= length l)%nat)
    by (apply IH; intros y Hy; apply H; now right).
  lia.
Qed.

Lemma NoDup_occurrences (k : string) (names : list string) :
  List.NoDup names -> (occurrences k names <= 1)%nat.
Proof.
  unfold occurrences. induction names as [| x names IH]; intros Hnd;
    cbn [List.filter]; [cbn; lia |].
  apply List.NoDup_cons_iff in Hnd as [Hfresh Hnd].
  destruct (String.eqb_spec k x) as [<- | _]; [| now apply IH].
  cbn [length].
  assert (Hnone : List.filter (String.eqb k) names = []).
  { clear IH Hnd. induction names as [| y names IH]; cbn [List.filter];
      [reflexivity |].
    destruct (String.eqb_spec k y) as [<- | _].
    - exfalso. apply Hfresh. now left.
    - apply IH. intros Hin. apply Hfresh. now right. }
  rewrite Hnone. cbn. lia.
Qed.

Lemma NoDup_mentions (id : Z) (es : list ArticleEntity) :
  List.NoDup (map ae_entity_id es) -> (mentions id es <= 1)%nat.
Proof.
  unfold mentions. induction es as [| e es IH]; intros Hnd;
    cbn [List.filter map] in *; [cbn; lia |].
  apply List.NoDup_cons_iff in Hnd as [Hfresh Hnd].
  destruct (Z.eqb_spec (ae_entity_id e) id) as [He | _]; [| now apply IH].
  cbn [length].
  assert (Hnone : List.filter (fun e => (ae_entity_id e =? id)%Z) es = []).
  { clear IH Hnd. induction es as [| y es IH]; cbn [List.filter];
      [reflexivity |].
    destruct (Z.eqb_spec (ae_entity_id y) id) as [Hy | _].
    - exfalso. apply Hfresh. left. congruence.
    - apply IH. intros Hin. apply Hfresh. now right. }
  rewrite Hnone. cbn. lia.
Qed.

Lemma count_entity_fold (id : Z) (es : list ArticleEntity) (m : gmap Z nat) :
  default 0%nat (fold_left count_entity es m !! id)
  = (default 0%nat (m !! id) + mentions id es)%nat.
Proof.
  revert m. induction es as [| e es IH]; intros m; cbn [fold_left].
  - unfold mentions. cbn. lia.
  - rewrite IH. unfold mentions at 2. cbn [List.filter].
    fold (mentions id es). unfold count_entity.
    destruct (Z.eqb_spec (ae_entity_id e) id) as [<- | Hne].
    + rewrite lookup_insert_eq. cbn. unfold mentions. lia.
    + rewrite lookup_insert_ne by exact Hne. cbn. unfold mentions. lia.
Qed.

Lemma note_relevance_fold (id : Z) (es : list ArticleEntity)
                          (m : gmap Z (list Q)) :
  List.Forall (fun e => in_range (ae_relevance_score e)) es ->
  List.Forall unit_interval (default [] (m !! id)) ->
  List.Forall unit_interval
    (default [] (fold_left note_relevance es m !! id)).
Proof.
  revert m. induction es as [| e es IH]; intros m Hes Hm; cbn [fold_left];
    [exact Hm |].
  apply List.Forall_cons_iff in Hes as [He Hes].
  apply IH; [exact Hes |]. unfold note_relevance.
  destruct (Z.eq_dec (ae_entity_id e) id) as [<- | Hne].
  - rewrite lookup_insert_eq. cbn [default].
    apply List.Forall_app. split; [exact Hm |].
    apply List.Forall_cons; [| apply List.Forall_nil].
    destruct (ae_relevance_score e) as [q |]; cbn [default];
      [exact He | split; lra].
  - now rewrite lookup_insert_ne by exact Hne.
Qed.

(** *** Averages and frequencies *)

Lemma of_nat_S (n : nat) : of_nat (S n) == of_nat n + 1.
Proof.
  unfold of_nat. rewrite Nat2Z.inj_succ. unfold Z.succ.
  rewrite inject_Z_plus. reflexivity.
Qed.

Lemma sum_bounds (l : list Q) (a : Q) :
  List.Forall unit_interval l -> 0 <= a ->
  0 <= fold_left Qplus l a /\ fold_left Qplus l a <= a + of_nat (length l).
Proof.
  revert a. induction l as [| x l IH]; intros a Hl Ha;
    cbn [fold_left length].
  - change (of_nat 0) with (0 # 1). split; lra.
  - apply List.Forall_cons_iff in Hl as [[Hx0 Hx1] Hl].
    destruct (IH (a + x) Hl ltac:(lra)) as [H0 H1].
    split; [exact H0 |]. rewrite of_nat_S. lra.
Qed.

Lemma avg_relevance_in_range (relevances : list Q) :
  List.Forall unit_interval relevances ->
  unit_interval (if nonempty relevances
                 then sum relevances / of_nat (length relevances)
                 else 0.0).
Proof.
  intros H. destruct relevances as [| x l]; cbn [nonempty];
    [split; lra |].
  destruct (sum_bounds (x :: l) 0 H ltac:(lra)) as [H0 H1].
  apply ratio_in_unit_interval;
    [exact H0 | unfold sum; lra | apply of_nat_pos; cbn; lia].
Qed.

Lemma frequency_in_range (cnt n : nat) :
  (cnt <= n)%nat -> (0 < n)%nat -> unit_interval (of_nat cnt / of_nat n).
Proof.
  intros Hle Hn. apply ratio_in_unit_interval.
  - change 0 with (of_nat 0). apply of_nat_le. lia.
  - now apply of_nat_le.
  - now apply of_nat_pos.
Qed.

Lemma insert_desc_by_Forall {A} (key : A -> Q * Q) (P : A -> Prop)
                            (x : A) (l : list A) :
  P x -> List.Forall P l -> List.Forall P (insert_desc_by key x l).
Proof.
  intros Hx Hl. induction Hl as [| y l Hy Hl IH]; cbn [insert_desc_by].
  - apply List.Forall_cons; [exact Hx | apply List.Forall_nil].
  - destruct (pair_ltb (key y) (key x)).
    + apply List.Forall_cons; [exact Hx |].
      apply List.Forall_cons; [exact Hy | exact Hl].
    + apply List.Forall_cons; [exact Hy | exact IH].
Qed.

Lemma sorted_desc_by_Forall {A} (key : A -> Q * Q) (P : A -> Prop)
                            (l : list A) :
  List.Forall P l -> List.Forall P (sorted_desc_by key l).
Proof.
  unfold sorted_desc_by. intros Hl.
  assert (Hacc : List.Forall P (@nil A)) by apply List.Forall_nil.
  revert Hacc. generalize (@nil A).
  induction Hl as [| x l Hx _ IH]; intros acc Hacc; cbn [fold_left];
    [exact Hacc |].
  apply IH. now apply insert_desc_by_Forall.
Qed.

Lemma omap_In {A B} (f : A -> option B) (l : list A) (y : B) :
  In y (omap f l) -> exists x, In x l /\ f x = Some y.
Proof.
  induction l as [| x l IH]; cbn; [intros [] |].
  destruct (f x) as [y' |] eqn:E.
  - intros [<- | Hin]; [exists x; split; [now left | exact E] |].
    destruct (IH Hin) as (x' & Hx' & Hf). exists x'. split;
      [now right | exact Hf].
  - intros Hin. destruct (IH Hin) as (x' & Hx' & Hf). exists x'. split;
      [now right | exact Hf].
Qed.

Lemma generate_group_signature_ranges
  (generate_article_signature : Z -> option ArticleSignature)
  (entity_profiles : list Entities.EntityProfile) (db_error : bool)
  (group : Grouping.GroupDict) :
  (forall id sig, In id (Grouping.article_ids group) ->
                  generate_article_signature id = Some sig ->
                  article_ok sig) ->
  let g := generate_group_signature generate_article_signature
                                    entity_profiles db_error group in
  entities_in_range g /\ events_in_range g.
Proof.
  intros Hok g. subst g. unfold generate_group_signature.
  destruct (negb (nonempty (Grouping.article_ids group)));
    [split; apply List.Forall_nil |].
  cbv zeta.
  set (sigs := omap generate_article_signature (Grouping.article_ids group)).
  assert (Hsigs : forall sig, In sig sigs -> article_ok sig).
  { intros sig Hin. apply omap_In in Hin as (id & Hid & Hsig). eauto. }
  destruct (nonempty sigs) eqn:Hne; cbn [negb];
    [| split; apply List.Forall_nil].
  assert (Hn : (0 < length sigs)%nat)
    by (destruct sigs; [discriminate | cbn; lia]).
  unfold entities_in_range, events_in_range.
  cbn [g_primary_entities g_events].
  split.
  - apply sorted_desc_by_Forall.
    destruct db_error; [apply List.Forall_nil |].
    apply List.Forall_forall. intros e Hin.
    apply in_map_iff in Hin as (row & <- & _).
    unfold entity_detail. cbn [ge_frequency ge_avg_relevance in_range].
    split.
    + apply frequency_in_range; [| exact Hn].
      rewrite count_entity_fold, lookup_empty. cbn [default Nat.add].
      apply filter_flat_map_length. intros sig Hsig.
      apply NoDup_mentions. now apply Hsigs.
    + apply avg_relevance_in_range.
      apply note_relevance_fold;
        [| rewrite lookup_empty; apply List.Forall_nil].
      apply Forall_flat_map, List.Forall_forall.
      intros sig Hsig. now apply Hsigs.
  - apply sorted_desc_Forall.
    apply List.Forall_forall. intros e Hin.
    apply in_map_iff in Hin as ([k c] & <- & Hin).
    unfold counted. cbn [c_frequency fst snd in_range].
    apply count_all_spec in Hin as [-> _].
    apply frequency_in_range; [| exact Hn].
    apply filter_flat_map_length. intros sig Hsig.
    apply NoDup_occurrences. now apply Hsigs.
Qed.

(** X21.  [generate_group_signature] over articles whose signatures have
    one entry per entity, relevances in the unit interval and no event name
    twice: every entity of the group signature has a frequency and an
    average relevance in [0, 1], and every event a frequency in [0, 1],
    whichever articles yield a signature, whatever the entity table holds
    and whether or not the entity details could be read. *)
Theorem generate_group_signature_in_range
  (generate_article_signature : Z -> option ArticleSignature)
  (entity_profiles : list Entities.EntityProfile) (db_error : bool)
  (group : Grouping.GroupDict) :
  (forall id sig, In id (Grouping.article_ids group) ->
                  generate_article_signature id = Some sig ->
                  article_ok sig) ->
  let g := generate_group_signature generate_article_signature
                                    entity_profiles db_error group in
  entities_in_range g /\ events_in_range g.
Proof. apply generate_group_signature_ranges. Qed.

Lemma generate_group_signature_in_range_witness :
  entities_in_range
    (generate_group_signature sample_signature_of
                              (Entities.entity_profiles Scenario.entity_db)
                              false sample_group)
  /\ events_in_range
       (generate_group_signature sample_signature_of
                                 (Entities.entity_profiles Scenario.entity_db)
                                 false sample_group).
Proof.
  apply (generate_group_signature_in_range
           sample_signature_of (Entities.entity_profiles Scenario.entity_db)
           false sample_group).
  intros id sig _. unfold sample_signature_of.
  destruct (id =? 1)%Z; [| discriminate]. intros [= <-].
  unfold article_ok, relevances_in_range. cbn.
  split; [| split].
  - apply List.NoDup_cons; [intros [] | apply List.NoDup_nil].
  - apply List.Forall_cons; [cbn; split; lra | apply List.Forall_nil].
  - apply List.NoDup_cons; [intros [] | apply List.NoDup_nil].
Defined.

(** X22.  The scorer applied to a group signature that
    [generate_group_signature] built from articles of that kind: for every
    article signature with relevances in the unit interval the entity,
    company, CVE and event similarities and the composite score lie in
    [0, 1]; what the scorer needs of the group follows from the data of the
    member articles. *)
Theorem scores_against_generated_signature
  (a : ArticleSignature)
  (generate_article_signature : Z -> option ArticleSignature)
  (entity_profiles : list Entities.EntityProfile) (db_error : bool)
  (group : Grouping.GroupDict) :
  relevances_in_range a ->
  (forall id sig, In id (Grouping.article_ids group) ->
                  generate_article_signature id = Some sig ->
                  article_ok sig) ->
  let s := calculate_article_to_group_similarity
             a (generate_group_signature generate_article_signature
                                         entity_profiles db_error group) in
  unit_interval (entity_similarity s)
  /\ unit_interval (company_similarity s)
  /\ unit_interval (cve_similarity s)
  /\ unit_interval (event_similarity s)
  /\ unit_interval (composite_score s).
Proof.
  intros Ha Hok s. subst s.
  destruct (generate_group_signature_ranges
              generate_article_signature entity_profiles db_error group Hok)
    as [Hg He].
  unfold calculate_article_to_group_similarity.
  cbn [entity_similarity company_similarity cve_similarity
       event_similarity composite_score].
  split; [now apply entity_similarity_in_range |].
  split; [apply jaccard_in_range |].
  split; [apply jaccard_in_range |].
  split; [now apply event_similarity_in_range |].
  apply py_clamp_bounds; lra.
Qed.

Lemma scores_against_generated_signature_witness :
  unit_interval
    (entity_similarity
       (calculate_article_to_group_similarity
          Scenario.acme_article
          (generate_group_signature
             sample_signature_of
             (Entities.entity_profiles Scenario.entity_db)
             false sample_group))).
Proof.
  apply (scores_against_generated_signature
           Scenario.acme_article sample_signature_of
           (Entities.entity_profiles Scenario.entity_db) false sample_group).
  - apply List.Forall_cons; [cbn; split; lra | apply List.Forall_nil].
  - intros id sig _. unfold sample_signature_of.
    destruct (id =? 1)%Z; [| discriminate]. intros [= <-].
    unfold article_ok, relevances_in_range. cbn.
    split; [| split].
    + apply List.NoDup_cons; [intros [] | apply List.NoDup_nil].
    + apply List.Forall_cons; [cbn; split; lra | apply List.Forall_nil].
    + apply List.NoDup_cons; [intros [] | apply List.NoDup_nil].
Defined.

(** *** Latest date and sources *)

Lemma later_Some (a : Q) (sig : ArticleSignature) :
  exists b,
    later (Some a) sig = Some b /\ a <= b
    /\ (forall d, published_date sig = Some d -> d <= b)
    /\ (b = a \/ published_date sig = Some b).
Proof.
  unfold later. destruct (published_date sig) as [d |].
  - destruct (Qltb_cases a d) as [[E Hlt] | [E Hle]]; rewrite E.
    + exists d. split; [reflexivity |]. split; [lra |].
      split; [intros d' [= <-]; lra | now right].
    + exists a. split; [reflexivity |]. split; [lra |].
      split; [intros d' [= <-]; exact Hle | now left].
  - exists a. split; [reflexivity |]. split; [lra |].
    split; [discriminate | now left].
Qed.

Lemma later_None (sig : ArticleSignature) :
  later None sig = published_date sig.
Proof. unfold later. now destruct (published_date sig). Qed.

Lemma later_fold (sigs : list ArticleSignature) (acc : option Q) :
  (forall a, acc = Some a ->
     exists l, fold_left later sigs acc = Some l /\ a <= l)
  /\ (forall sig d, In sig sigs -> published_date sig = Some d ->
        exists l, fold_left later sigs acc = Some l /\ d <= l)
  /\ (forall l, fold_left later sigs acc = Some l ->
        acc = Some l
        \/ exists sig, In sig sigs /\ published_date sig = Some l).
Proof.
  revert acc. induction sigs as [| sig sigs IH]; intros acc;
    cbn [fold_left].
  - split; [| split].
    + intros a ->. exists a. split; [reflexivity | lra].
    + intros sig d [].
    + intros l ->. now left.
  - destruct (IH (later acc sig)) as (IHacc & IHin & IHout).
    split; [| split].
    + intros a ->.
      destruct (later_Some a sig) as (b & Hb & Hab & _).
      destruct (IHacc b Hb) as (l & Hl & Hbl).
      exists l. split; [exact Hl | lra].
    + intros sig' d [<- | Hin] Hd; [| now apply (IHin sig')].
      destruct acc as [a |].
      * destruct (later_Some a sig) as (b & Hb & _ & Hdb & _).
        destruct (IHacc b Hb) as (l & Hl & Hbl).
        exists l. split; [exact Hl |]. specialize (Hdb d Hd). lra.
      * apply IHacc. now rewrite later_None.
    + intros l Hl. destruct (IHout l Hl) as [Hstep | (sig' & Hin & Hd)];
        [| right; exists sig'; split; [now right | exact Hd]].
      destruct acc as [a |].
      * destruct (later_Some a sig) as (b & Hb & _ & _ & Hor).
        rewrite Hb in Hstep. injection Hstep as ->.
        destruct Hor as [-> | Hd]; [now left |].
        right. exists sig. split; [now left | exact Hd].
      * rewrite later_None in Hstep.
        right. exists sig. split; [now left | exact Hstep].
Qed.

Lemma insert_sorted_perm (s : string) (l : list string) :
  Permutation (s :: l) (insert_sorted s l).
Proof.
  induction l as [| x l IH]; cbn [insert_sorted]; [reflexivity |].
  destruct (String.ltb s x); [reflexivity |].
  rewrite perm_swap. now apply perm_skip.
Qed.

Lemma sorted_perm (l : list string) : Permutation l (sorted l).
Proof.
  unfold sorted.
  enough (H : forall acc, Permutation (acc ++ l)
                            (fold_left (fun acc s => insert_sorted s acc)
                                       l acc))
    by exact (H []).
  induction l as [| x l IH]; intros acc; cbn [fold_left].
  - now rewrite app_nil_r.
  - rewrite <- IH. rewrite <- insert_sorted_perm.
    symmetry. apply Permutation_middle.
Qed.

Lemma sorted_In (s : string) (l : list string) :
  In s (sorted l) <-> In s l.
Proof.
  split; apply Permutation_in;
    [symmetry; apply sorted_perm | apply sorted_perm].
Qed.

(** X23.  The date and the sources of a group signature: the latest
    published date is the date of one of the member articles that yielded a
    signature with a readable date, and none of these is later; the member
    sources are exactly the non-empty sources of these articles, each
    listed once. *)
Theorem generate_group_signature_date_and_sources
  (generate_article_signature : Z -> option ArticleSignature)
  (entity_profiles : list Entities.EntityProfile) (db_error : bool)
  (group : Grouping.GroupDict) :
  let sigs := omap generate_article_signature (Grouping.article_ids group) in
  let g := generate_group_signature generate_article_signature
                                    entity_profiles db_error group in
  (forall sig d, In sig sigs -> published_date sig = Some d ->
     exists l, latest_published_date g = Some l /\ d <= l)
  /\ (forall l, latest_published_date g = Some l ->
        exists sig, In sig sigs /\ published_date sig = Some l)
  /\ (forall s, In s (member_sources g)
                 <-> s <> ""%string
                     /\ exists sig, In sig sigs /\ source sig = s)
  /\ List.NoDup (member_sources g).
Proof.
  intros sigs g. subst g. unfold generate_group_signature.
  destruct (Grouping.article_ids group) as [| id ids] eqn:Hids;
    cbn [nonempty negb].
  { subst sigs. cbn.
    split; [intros sig d [] |]. split; [discriminate |].
    split; [| apply List.NoDup_nil].
    intros s. split; [intros [] | intros (_ & sig & [] & _)]. }
  cbv zeta. fold sigs.
  destruct sigs as [| sig0 rest] eqn:Hsigs; cbn [nonempty negb].
  { cbn. split; [intros sig d [] |]. split; [discriminate |].
    split; [| apply List.NoDup_nil].
    intros s. split; [intros [] | intros (_ & sig & [] & _)]. }
  rewrite <- Hsigs. clear Hsigs.
  cbn [latest_published_date member_sources].
  destruct (later_fold sigs None) as (_ & Hin & Hout).
  split; [exact Hin |].
  split.
  { intros l Hl. destruct (Hout l Hl) as [? | ?]; [discriminate | assumption]. }
  split.
  - intros s.
    rewrite sorted_In.
    rewrite <- list_elem_of_In, elem_of_elements, elem_of_list_to_set,
      list_elem_of_In, List.filter_In, in_map_iff.
    unfold truthy. split.
    + intros [(sig & Hs & Hsig) Ht]. split; [| now exists sig].
      intros ->. discriminate.
    + intros [Hne (sig & Hsig & Hs)]. split; [now exists sig |].
      destruct (String.eqb_spec s ""); [contradiction | reflexivity].
  - eapply Permutation_NoDup; [apply sorted_perm |].
    apply NoDup_ListNoDup, NoDup_elements.
Qed.

(** *** Companies and CVEs *)

Lemma incr_nonempty (k : string) (d : list (string * nat)) : incr k d <> [].
Proof. destruct d as [| [k0 n] t]; cbn [incr]; [discriminate |].
  destruct (String.eqb k0 k); discriminate.
Qed.

Lemma count_all_nonempty (names : list string) :
  count_all names = [] <-> names = [].
Proof.
  unfold count_all. split; [| now intros ->].
  destruct names as [| x names]; [reflexivity |]. cbn [fold_left].
  intros H. exfalso. revert H.
  generalize (incr_nonempty x []). generalize (incr x []).
  induction names as [| y names IH]; intros d Hd; cbn [fold_left];
    [exact Hd |].
  apply IH, incr_nonempty.
Qed.

Lemma insert_desc_nonempty {A} (key : A -> Q) (x : A) (l : list A) :
  insert_desc key x l <> [].
Proof.
  destruct l as [| y t]; cbn [insert_desc]; [discriminate |].
  destruct (Qltb (key y) (key x)); discriminate.
Qed.

Lemma sorted_desc_nonempty {A} (key : A -> Q) (l : list A) :
  sorted_desc key l = [] <-> l = [].
Proof.
  unfold sorted_desc. split; [| now intros ->].
  destruct l as [| x l]; [reflexivity |]. cbn [fold_left].
  intros H. exfalso. revert H.
  generalize (insert_desc_nonempty key x []). generalize (insert_desc key x []).
  induction l as [| y l IH]; intros acc Hacc; cbn [fold_left];
    [exact Hacc |].
  apply IH, insert_desc_nonempty.
Qed.

Lemma flat_map_nonempty {A B} (f : A -> list B) (l : list A) :
  flat_map f l <> [] <-> exists x, In x l /\ f x <> [].
Proof.
  induction l as [| x l IH]; cbn [flat_map].
  - split; [congruence | intros (x & [] & _)].
  - split.
    + intros H. destruct (f x) as [| y t] eqn:E.
      * cbn [app] in H. apply IH in H as (x' & Hin & Hx').
        exists x'. split; [now right | exact Hx'].
      * exists x. split; [now left | rewrite E; discriminate].
    + intros (x' & [<- | Hin] & Hx').
      * destruct (f x); [congruence | discriminate].
      * intros H. apply app_eq_nil in H as [_ H].
        revert H. apply IH. now exists x'.
Qed.

Lemma In_omap {A B} (f : A -> option B) (l : list A) (x : A) (y : B) :
  In x l -> f x = Some y -> In y (omap f l).
Proof.
  induction l as [| x' l IH]; cbn; [intros [] |].
  intros [-> | Hin] Hf.
  - rewrite Hf. now left.
  - destruct (f x'); [right |]; now apply IH.
Qed.

Lemma counted_list_nonempty (n : nat) (names : list string) :
  sorted_desc (fun x => default 0 (c_frequency x))
              (map (counted n) (count_all names)) <> []
  <-> names <> [].
Proof.
  rewrite sorted_desc_nonempty. rewrite <- count_all_nonempty.
  destruct (count_all names); cbn [map]; split; intros H; congruence.
Qed.

Lemma generated_signature_companies
  (generate_article_signature : Z -> option ArticleSignature)
  (entity_profiles : list Entities.EntityProfile) (db_error : bool)
  (group : Grouping.GroupDict) :
  GroupSimilarity.has_company_or_cve
    (generate_group_signature generate_article_signature entity_profiles
                              db_error group)
  <-> mentions_company_or_cve generate_article_signature group.
Proof.
  unfold GroupSimilarity.has_company_or_cve, mentions_company_or_cve,
    generate_group_signature.
  set (sigs := omap generate_article_signature (Grouping.article_ids group)).
  assert (Hmem : forall P : ArticleSignature -> Prop,
             (exists sig, In sig sigs /\ P sig)
             <-> exists id sig, In id (Grouping.article_ids group)
                                /\ generate_article_signature id = Some sig
                                /\ P sig).
  { intros P. split.
    - intros (sig & Hin & HP). apply omap_In in Hin as (id & Hid & Hsig).
      now exists id, sig.
    - intros (id & sig & Hid & Hsig & HP). exists sig. split; [| exact HP].
      now apply (In_omap _ _ id). }
  rewrite <- (Hmem (fun sig => companies sig <> [] \/ cves sig <> [])).
  destruct (Grouping.article_ids group) as [| id ids] eqn:Hids;
    cbn [nonempty negb].
  { subst sigs. cbn. split; [intros [H | H]; congruence |].
    intros (sig & [] & _). }
  cbv zeta. fold sigs.
  destruct sigs as [| sig0 rest] eqn:Hsigs; cbn [nonempty negb].
  { cbn. split; [intros [H | H]; congruence |]. intros (sig & [] & _). }
  rewrite <- Hsigs. clear Hsigs.
  cbn [g_companies g_cves].
  rewrite !counted_list_nonempty, !flat_map_nonempty.
  split.
  - intros [(sig & Hin & H) | (sig & Hin & H)]; exists sig; tauto.
  - intros (sig & Hin & [H | H]); [left | right]; now exists sig.
Qed.

(** X24.  Comparing the signatures of two groups in the merge pass raises
    exactly when a member article of one of them yields a signature with a
    company or a CVE: [generate_group_signature] then lists companies or
    CVEs, as dictionaries, and the scorer cannot build a set from them. *)
Theorem group_similarity_raises_for_company_articles
  (api_key : bool)
  (llm_score : GroupSignature -> GroupSignature -> option Q)
  (generate_article_signature : Z -> option ArticleSignature)
  (entity_profiles : list Entities.EntityProfile) (db_error : bool)
  (group_a group_b : Grouping.GroupDict) :
  GroupSimilarity._calculate_group_similarity
    api_key llm_score
    (generate_group_signature generate_article_signature entity_profiles
                              db_error group_a)
    (generate_group_signature generate_article_signature entity_profiles
                              db_error group_b)
  = None
  <-> mentions_company_or_cve generate_article_signature group_a
      \/ mentions_company_or_cve generate_article_signature group_b.
Proof.
  rewrite group_similarity_raises_on_companies_iff.
  now rewrite !generated_signature_companies.
Qed.
End GroupSignatures.

(** ** Primary entities of an article *)

Section PrimaryEntities.
Import ArticleSig.
Local Open Scope Q_scope.

Lemma insert_desc_perm {A} (key : A -> Q) (x : A) (l : list A) :
  Permutation (x :: l) (Py.insert_desc key x l).
Proof.
  induction l as [| y l IH]; cbn [Py.insert_desc]; [reflexivity |].
  destruct (Py.Qltb (key y) (key x)); [reflexivity |].
  rewrite perm_swap. now apply perm_skip.
Qed.

Lemma sorted_desc_perm {A} (key : A -> Q) (l : list A) :
  Permutation l (Py.sorted_desc key l).
Proof.
  unfold Py.sorted_desc.
  enough (H : forall acc, Permutation (acc ++ l)
                            (fold_left (fun acc x => Py.insert_desc key x acc)
                                       l acc))
    by exact (H []).
  induction l as [| x l IH]; intros acc; cbn [fold_left].
  - now rewrite app_nil_r.
  - rewrite <- IH. rewrite <- insert_desc_perm.
    symmetry. apply Permutation_middle.
Qed.

(** Under the primary key of [entity_profiles] a link joins at most one
    profile, and every joined row carries the link's entity id and
    relevance. *)
Lemma joined_with_ids (profiles : list Entities.EntityProfile)
                      (row : Links.ArticleEntityRow) (e : Scorer.ArticleEntity) :
  In e (joined_with profiles row) ->
  Scorer.ae_entity_id e = Links.ae_entity_id row
  /\ Scorer.ae_relevance_score e = Links.ae_relevance_score row
  /\ exists p, In p profiles
               /\ Entities.entity_id p = Links.ae_entity_id row
               /\ Scorer.ae_entity_name e = Entities.entity_name p
               /\ Scorer.ae_entity_type e = Entities.entity_type p.
Proof.
  unfold joined_with. intros Hin.
  apply in_map_iff in Hin as (p & <- & Hp).
  apply List.filter_In in Hp as [Hp Hid]. apply Z.eqb_eq in Hid.
  cbn. split; [exact Hid |]. split; [reflexivity |].
  exists p. now repeat split.
Qed.

Lemma joined_with_NoDup (profiles : list Entities.EntityProfile)
                        (row : Links.ArticleEntityRow) :
  List.NoDup (map Entities.entity_id profiles) ->
  List.NoDup (map Scorer.ae_entity_id (joined_with profiles row)).
Proof.
  unfold joined_with. rewrite map_map. cbn [Scorer.ae_entity_id].
  induction profiles as [| p ps IH]; cbn [map List.filter]; intros Hnd;
    [constructor |].
  apply List.NoDup_cons_iff in Hnd as [Hfresh Hnd].
  destruct (Entities.entity_id p =? Links.ae_entity_id row)%Z;
    [| now apply IH].
  cbn [map]. constructor; [| now apply IH].
  intros Hin. apply Hfresh. apply in_map_iff in Hin as (q & Hq & Hin).
  apply List.filter_In in Hin as [Hin _].
  rewrite <- Hq. exact (in_map Entities.entity_id ps q Hin).
Qed.

Lemma NoDup_app_disjoint {A} (l1 l2 : list A) :
  List.NoDup l1 -> List.NoDup l2 ->
  (forall x, In x l1 -> ~ In x l2) -> List.NoDup (l1 ++ l2).
Proof.
  intros H1 H2 Hdis. induction l1 as [| x l1 IH]; cbn [app]; [exact H2 |].
  apply List.NoDup_cons_iff in H1 as [Hx H1]. constructor.
  - rewrite in_app_iff. intros [Hin | Hin]; [contradiction |].
    apply (Hdis x); [now left | exact Hin].
  - apply IH; [exact H1 |]. intros y Hy. apply Hdis. now right.
Qed.

Lemma joined_rows_NoDup (article_id : Z) (min_relevance : Q)
                        (t : list Links.ArticleEntityRow)
                        (profiles : list Entities.EntityProfile) :
  Links.links_unique t ->
  List.NoDup (map Entities.entity_id profiles) ->
  List.NoDup
    (map Scorer.ae_entity_id
       (flat_map
          (fun row =>
             if (Links.ae_article_id row =? article_id)%Z
                && relevant min_relevance row
             then joined_with profiles row
             else [])
          t)).
Proof.
  unfold Links.links_unique. intros Ht Hp.
  induction t as [| row t IH]; cbn [flat_map map] in *; [constructor |].
  apply List.NoDup_cons_iff in Ht as [Hfresh Ht].
  rewrite map_app. apply NoDup_app_disjoint; [| now apply IH |].
  - destruct (_ && _); [now apply joined_with_NoDup | constructor].
  - intros id Hin1 Hin2.
    destruct ((Links.ae_article_id row =? article_id)%Z
              && relevant min_relevance row) eqn:Hrow; [| destruct Hin1].
    apply andb_true_iff in Hrow as [Ha _]. apply Z.eqb_eq in Ha.
    apply in_map_iff in Hin1 as (e1 & <- & He1).
    apply joined_with_ids in He1 as (Hid1 & _).
    apply in_map_iff in Hin2 as (e2 & Hid & He2).
    apply in_flat_map in He2 as (row' & Hrow' & He2).
    destruct ((Links.ae_article_id row' =? article_id)%Z
              && relevant min_relevance row') eqn:Hrow2; [| destruct He2].
    apply andb_true_iff in Hrow2 as [Ha' _]. apply Z.eqb_eq in Ha'.
    apply joined_with_ids in He2 as (Hid2 & _).
    apply Hfresh.
    replace (Links.ae_article_id row, Links.ae_entity_id row)
      with (Links.ae_article_id row', Links.ae_entity_id row')
      by (f_equal; congruence).
    exact (in_map (fun r => (Links.ae_article_id r, Links.ae_entity_id r))
                  t row' Hrow').
Qed.

(** X25.  [get_primary_entities] over tables that respect their primary
    keys (one row per article and entity in [article_entities], one row per
    id in [entity_profiles]): no entity is listed twice, every listed
    entity comes from a link row of the article whose relevance is present
    and at least [min_relevance], and carries the name and type of the
    profile of its id, and the list is in descending order of relevance. *)
Theorem get_primary_entities_distinct
  (article_id : Z) (min_relevance : Q)
  (article_entities : list Links.ArticleEntityRow) (db : Entities.Db) :
  Links.links_unique article_entities ->
  Entities.ids_unique db ->
  let es := get_primary_entities article_id min_relevance article_entities
                                 (Entities.entity_profiles db) in
  List.NoDup (map Scorer.ae_entity_id es)
  /\ (forall e, In e es ->
        exists row p r,
          In row article_entities
          /\ Links.ae_article_id row = article_id
          /\ Links.ae_entity_id row = Scorer.ae_entity_id e
          /\ Links.ae_relevance_score row = Some r
          /\ Scorer.ae_relevance_score e = Some r
          /\ min_relevance <= r
          /\ In p (Entities.entity_profiles db)
          /\ Entities.entity_id p = Scorer.ae_entity_id e
          /\ Entities.entity_name p = Scorer.ae_entity_name e
          /\ Entities.entity_type p = Scorer.ae_entity_type e)
  /\ Arbitration.descending
       (fun e => default 0 (Scorer.ae_relevance_score e)) es.
Proof.
  intros Ht Hp es. subst es. unfold get_primary_entities.
  split; [| split].
  - eapply Permutation_NoDup;
      [apply Permutation_map, sorted_desc_perm |].
    now apply joined_rows_NoDup.
  - intros e He. apply sorted_desc_In in He.
    apply in_flat_map in He as (row & Hrow & He).
    destruct ((Links.ae_article_id row =? article_id)%Z
              && relevant min_relevance row) eqn:Hsel; [| destruct He].
    apply andb_true_iff in Hsel as [Ha Hrel]. apply Z.eqb_eq in Ha.
    unfold relevant in Hrel.
    destruct (Links.ae_relevance_score row) as [r |] eqn:Hr;
      [| discriminate].
    destruct (Qleb_cases min_relevance r) as [[_ Hle] | [E _]];
      [| congruence].
    apply joined_with_ids in He as (Hid & Hscore & p & Hp' & Hpid & Hn & Hty).
    exists row, p, r.
    split; [exact Hrow |]. split; [exact Ha |]. split; [now symmetry |].
    split; [exact Hr |].
    split; [first [exact Hscore | now rewrite Hscore] |].
    split; [exact Hle |].
    split; [exact Hp' |]. split; [congruence |]. split; now symmetry.
  - apply sorted_desc_descending.
Qed.

Lemma get_primary_entities_distinct_witness :
  map Scorer.ae_entity_id
      (get_primary_entities 10 0.7 sample_article_entities
                            (Entities.entity_profiles Scenario.entity_db))
  = [2; 1]%Z
  /\ get_primary_entities 11 0.7 sample_article_entities
                          (Entities.entity_profiles Scenario.entity_db)
     = []
  /\ List.NoDup
       (map Scorer.ae_entity_id
          (get_primary_entities 10 0.7 sample_article_entities
                                (Entities.entity_profiles Scenario.entity_db))).
Proof.
  assert (Ht : Links.links_unique sample_article_entities).
  { unfold Links.links_unique. cbn.
    repeat (apply List.NoDup_cons;
            [cbn; intros H;
             repeat (destruct H as [H | H]; [discriminate |]); exact H |]).
    apply List.NoDup_nil. }
  assert (Hp : Entities.ids_unique Scenario.entity_db).
  { unfold Entities.ids_unique. cbn.
    apply List.NoDup_cons; [intros [H | []]; discriminate |].
    apply List.NoDup_cons; [intros [] | apply List.NoDup_nil]. }
  split; [vm_compute; reflexivity |].
  split; [vm_compute; reflexivity |].
  exact (proj1 (get_primary_entities_distinct
                  10 0.7 sample_article_entities Scenario.entity_db Ht Hp)).
Defined.
End PrimaryEntities.

(** ** Processing one article *)

Section ProcessingOneArticle.
Import Grouping Store NewGroup Processing.
Local Open Scope Z_scope.

Lemma insert_desc_map_fst {A B} (key : A -> Q) (x : A * B)
                          (l : list (A * B)) :
  map fst (Py.insert_desc (fun g => key (fst g)) x l)
  = Py.insert_desc key (fst x) (map fst l).
Proof.
  induction l as [| y l IH]; cbn [Py.insert_desc map]; [reflexivity |].
  destruct (Py.Qltb (key (fst y)) (key (fst x))); cbn [map];
    [reflexivity | now rewrite IH].
Qed.

Lemma sorted_desc_map_fst {A B} (key : A -> Q) (l : list (A * B)) :
  map fst (Py.sorted_desc (fun g => key (fst g)) l)
  = Py.sorted_desc key (map fst l).
Proof.
  unfold Py.sorted_desc.
  enough (H : forall acc,
             map fst (fold_left (fun acc x =>
                                   Py.insert_desc (fun g => key (fst g)) x acc)
                                l acc)
             = fold_left (fun acc x => Py.insert_desc key x acc)
                         (map fst l) (map fst acc))
    by exact (H []).
  induction l as [| x l IH]; intros acc; cbn [fold_left map]; [reflexivity |].
  now rewrite IH, insert_desc_map_fst.
Qed.

Lemma map_fst_flat_map_tag {A B C} (f : A -> list B) (tag : A -> C)
                           (l : list A) :
  map fst (flat_map (fun e => map (fun g => (g, tag e)) (f e)) l)
  = flat_map f l.
Proof.
  induction l as [| e l IH]; cbn [flat_map map]; [reflexivity |].
  rewrite map_app, IH, map_map. cbn [fst]. now rewrite map_id.
Qed.

Lemma group_scores_of_each (a : Scorer.ArticleSignature)
                           (existing : list Existing) (rules : Rules) :
  flat_map (fun e => group_scores_of a [as_pair e] rules) existing
  = group_scores_of a (map as_pair existing) rules.
Proof.
  unfold group_scores_of. cbv zeta.
  induction existing as [| e existing IH]; [reflexivity |].
  cbn [map]. cbn [flat_map] in *. rewrite app_nil_r. now rewrite IH.
Qed.

(** The flags travel with the entries of [group_scores]: without them the
    ranked list is the one the decision is taken on. *)
Lemma ranked_with_flags_ranked (a : Scorer.ArticleSignature)
                               (existing : list Existing) (rules : Rules) :
  map fst (ranked_with_flags a existing rules)
  = Arbitration.ranked a (map as_pair existing) rules.
Proof.
  unfold ranked_with_flags, Arbitration.ranked.
  rewrite (sorted_desc_map_fst Grouping.score).
  now rewrite map_fst_flat_map_tag, group_scores_of_each.
Qed.

(** X26.  [process_single_ungrouped_article] on a database where no
    article has two membership rows.  Reported as added to a group, the
    article has that group as its only membership, the group is the one the
    decision named, and the groups table is unchanged; reported as a new
    group, the article's only membership is that group, whose id is above
    every stored group id and whose topic is one of PREDEFINED_CATEGORIES;
    reported as an error, nothing was written.  In every case the rows of
    the other articles are as before and still no article has two rows. *)
Theorem process_single_article_one_group
  (article_id : Z) (article_title : string)
  (article_sig : option Scorer.ArticleSignature)
  (existing : list Existing) (rules : Rules)
  (call_gpt_api : list GroupScore -> LlmAnswer)
  (response : option string) (json_loads : string -> Parsed) (db : Db) :
  at_most_one_group (memberships db) ->
  let res := process_single_ungrouped_article
               article_id article_title article_sig existing rules
               call_gpt_api response json_loads db in
  at_most_one_group (memberships (snd res))
  /\ (forall b, b <> article_id ->
        memberships_of b (memberships (snd res))
        = memberships_of b (memberships db))
  /\ match fst res with
     | added_to_existing group_id =>
         memberships_of article_id (memberships (snd res))
         = [(article_id, group_id)]
         /\ two_phase_article_groups (snd res) = two_phase_article_groups db
         /\ exists sig llm_check_triggered,
              article_sig = Some sig
              /\ decide_group call_gpt_api sig (map as_pair existing) rules
                 = (add_to_existing group_id, llm_check_triggered)
     | created_new new_group_info =>
         memberships_of article_id (memberships (snd res))
         = [(article_id, ng_group_id new_group_info)]
         /\ (forall r, In r (two_phase_article_groups db) ->
                       r_group_id r < ng_group_id new_group_info)
         /\ In (ng_main_topic new_group_info) PREDEFINED_CATEGORIES
         /\ ng_article_ids new_group_info = [article_id]
     | error => snd res = db
     end.
Proof.
  intros Hinv res. subst res. unfold process_single_ungrouped_article.
  destruct article_sig as [sig |];
    [| split; [exact Hinv |]; split; [reflexivity | reflexivity]].
  cbv zeta.
  destruct (decide_group call_gpt_api sig (map as_pair existing) rules)
    as [decision llm_check_triggered] eqn:Hdec. cbn [fst snd].
  destruct (llm_check_triggered && existsb _ _);
    [split; [exact Hinv |]; split; [reflexivity | reflexivity] |].
  destruct decision as [final_group_id |].
  - assert (Hinv1 : at_most_one_group
                      (table (mkCursor (memberships db) [])))
      by exact Hinv.
    destruct (add_article_to_group_rows false article_id final_group_id
                _ Hinv1) as (Hok & Hown & Hothers).
    pose proof (add_article_to_group_preserves false article_id
                  final_group_id _ Hinv1) as Hkeep.
    rewrite Hok. cbn [fst snd memberships two_phase_article_groups].
    split; [exact Hkeep |]. split; [exact Hothers |].
    split; [exact Hown |]. split; [reflexivity |].
    exists sig, llm_check_triggered. now split.
  - pose proof (create_new_group_spec
                  article_id article_title
                  (near_miss_groups sig existing rules)
                  response json_loads db Hinv) as Hspec.
    cbv zeta in Hspec.
    destruct (create_new_group_for_single_article
                article_id article_title
                (near_miss_groups sig existing rules)
                response json_loads db) as [outcome db'].
    cbn [fst snd] in *.
    destruct outcome as [[info |] | e]; cbn [fst snd].
    + destruct Hspec as (Htopic & Hids & _ & Hfresh & _ & _ & Hown
                         & Hothers & Hkeep).
      split; [exact Hkeep |]. split; [exact Hothers |].
      split; [exact Hown |]. split; [exact Hfresh |].
      split; [exact Htopic | exact Hids].
    + subst db'. split; [exact Hinv |]. split; [reflexivity | reflexivity].
    + subst db'. split; [exact Hinv |]. split; [reflexivity | reflexivity].
Qed.

Lemma process_single_article_one_group_witness :
  at_most_one_group
    (memberships
       (snd (process_single_ungrouped_article
               12 "Title" (Some Scenario.acme_article) sample_existing
               DYNAMIC_THRESHOLD_RULES (fun _ => NoAnswer)
               (Some "{}"%string) sample_loads sample_db))).
Proof.
  assert (Hinv : at_most_one_group (memberships sample_db)).
  { intros b. unfold sample_db, memberships_of.
    cbn [memberships List.filter fst].
    destruct (10 =? b) eqn:E1, (11 =? b) eqn:E2; cbn [length]; lia. }
  exact (proj1 (process_single_article_one_group
                  12 "Title" (Some Scenario.acme_article) sample_existing
                  DYNAMIC_THRESHOLD_RULES (fun _ => NoAnswer)
                  (Some "{}"%string) sample_loads sample_db Hinv)).
Defined.

(** X27.  A near-miss group without description blocks the founding of a
    group: when the decision for an article is to create a new group and
    one of the two best-scoring groups has a description of None,
    [process_single_ungrouped_article] reports an error and writes
    nothing, so the article stays ungrouped. *)
Theorem process_single_article_blocked_by_null_description
  (article_id : Z) (article_title : string)
  (sig : Scorer.ArticleSignature)
  (existing : list Existing) (rules : Rules)
  (call_gpt_api : list GroupScore -> LlmAnswer)
  (response : option string) (json_loads : string -> Parsed) (db : Db)
  (llm_check_triggered : bool) :
  decide_group call_gpt_api sig (map as_pair existing) rules
  = (create_new, llm_check_triggered) ->
  (exists g, In g (take 2 (ranked_with_flags sig existing rules))
             /\ snd g = true) ->
  process_single_ungrouped_article
    article_id article_title (Some sig) existing rules call_gpt_api
    response json_loads db
  = (error, db).
Proof.
  intros Hdec (g & Hg & Hflag). unfold process_single_ungrouped_article.
  cbv zeta. rewrite Hdec. cbn [fst snd].
  destruct (llm_check_triggered && existsb _ _); [reflexivity |].
  assert (Hraise : create_new_group_for_single_article
                     article_id article_title
                     (near_miss_groups sig existing rules)
                     response json_loads db
                   = (Raised TypeError, db)).
  { unfold create_new_group_for_single_article, prompt_context.
    rewrite build_context_type_error; [reflexivity | |].
    - intros group_info Hin. apply take_In in Hin.
      unfold near_miss_groups in Hin.
      apply in_map_iff in Hin as (g' & <- & _). cbn [desc].
      destruct (snd g'); discriminate.
    - exists (mkNearMiss (gs_group_label (fst g)) JNull
                         (Grouping.score (fst g))).
      split; [| discriminate].
      unfold near_miss_groups. rewrite firstn_map.
      change (@firstn) with (@take). rewrite take_take.
      apply in_map_iff. exists g. rewrite Hflag. now split. }
  now rewrite Hraise.
Qed.

Lemma process_single_article_blocked_by_null_description_witness :
  process_single_ungrouped_article
    12 "Title" (Some Scenario.bare_article) sample_existing
    DYNAMIC_THRESHOLD_RULES (fun _ => NoAnswer)
    (Some "{}"%string) sample_loads sample_db
  = (error, sample_db).
Proof.
  apply (process_single_article_blocked_by_null_description
           12 "Title" Scenario.bare_article sample_existing
           DYNAMIC_THRESHOLD_RULES (fun _ => NoAnswer)
           (Some "{}"%string) sample_loads sample_db false).
  - vm_compute. reflexivity.
  - eexists. split; [left; reflexivity | reflexivity].
Defined.
End ProcessingOneArticle.
